(** * vimg: the operation planner of [VipsImage.Process] and its geometry

    A shallow embedding of the Go package [vimg] (vipsimage.go with the
    engine bindings, the metadata reader and the method DSL that go with it)
    and of the properties its specification states.

    - Go's [int] is a 64-bit two's-complement integer, C's [int] a 32-bit one:
      both are [Z] with the wrap-around written out ([GoInt]).
    - [float64] and [float32] are IEEE 754 binary64 and binary32, taken from
      the executable specification [SpecFloat] of the Standard Library
      ([prec = 53, emax = 1024] and [prec = 24, emax = 128]).
    - libvips is an external collaborator: every C entry point the Go code
      calls is a field of the record [Engine]; calls are logged in the order
      they are made.
    - Go's [error] results are ordinary values ([option error]); a nil-pointer
      dereference is the only effect besides state ([Crash]). *)

From Stdlib Require Import ZArith Lia Bool List String.
From Stdlib Require Import Strings.Byte.
From Stdlib Require Import SpecFloat.
Import ListNotations.
Local Open Scope Z_scope.

(* ================================================================== *)
(** ** Machine integers *)

Module GoInt.

(** Two's-complement wrap-around to [w] bits. *)
Definition wrap (w z : Z) : Z := (z + 2 ^ (w - 1)) mod 2 ^ w - 2 ^ (w - 1).

Definition in_range (w z : Z) : Prop := - 2 ^ (w - 1) <= z < 2 ^ (w - 1).
Definition in_rangeb (w z : Z) : bool :=
    (- 2 ^ (w - 1) <=? z) && (z <? 2 ^ (w - 1)).

(** Go [int] arithmetic (64 bits).  [quot] is Go's [/], which truncates
      towards zero; it is only used with a non-zero constant divisor. *)
Definition add (a b : Z) : Z := wrap 64 (a + b).
Definition sub (a b : Z) : Z := wrap 64 (a - b).
Definition quot (a b : Z) : Z := wrap 64 (Z.quot a b).

End GoInt.

(* ================================================================== *)
(** ** IEEE 754 binary floating point *)

Module IEEE.
Section Format.

Variables prec emax : Z.

(** Conversion of an integer, rounding to nearest even. *)
Definition of_Z (z : Z) : spec_float := binary_normalize prec emax z 0 false.

(** The integer part, towards zero; [None] for NaN and the infinities. *)
Definition trunc (x : spec_float) : option Z :=
    match x with
    | S754_zero _ => Some 0
    | S754_finite s m e => Some (cond_Zopp s (Z.shiftl (Zpos m) e))
    | S754_infinity _ | S754_nan => None
    end.

(** Go's conversion [int(x)] to a [w]-bit integer.  The language leaves the
      result implementation-dependent when the value does not fit; the value
      used here is the one of amd64 ([CVTTSD2SI]: the most negative integer). *)
Definition to_int (w : Z) (x : spec_float) : Z :=
    match trunc x with
    | Some v => if GoInt.in_rangeb w v then v else - 2 ^ (w - 1)
    | None => - 2 ^ (w - 1)
    end.

(** [math.Floor]: [Floor(±0) = ±0], [Floor(±Inf) = ±Inf], [Floor(NaN) = NaN]. *)
Definition Floor (x : spec_float) : spec_float :=
    match x with
    | S754_finite s m e =>
        if 0 <=? e then x
        else
          let q := Z.shiftl (Zpos m) e in
          let exact := Z.shiftl q (- e) =? Zpos m in
          let z := if s then (if exact then - q else - (q + 1)) else q in
          binary_normalize prec emax z 0 s
    | _ => x
    end.

(** [math.Ceil(x) = -Floor(-x)]. *)
Definition Ceil (x : spec_float) : spec_float := SFopp (Floor (SFopp x)).

Definition gtb (x y : spec_float) : bool := SFltb y x.
Definition geb (x y : spec_float) : bool := SFleb y x.

Definition is_zero (x : spec_float) : bool :=
    match x with S754_zero _ => true | _ => false end.
Definition is_nan (x : spec_float) : bool :=
    match x with S754_nan => true | _ => false end.
Definition is_inf (s : bool) (x : spec_float) : bool :=
    match x with S754_infinity s' => Bool.eqb s s' | _ => false end.
Definition signbit (x : spec_float) : bool :=
    match x with
    | S754_zero s | S754_infinity s | S754_finite s _ _ => s
    | S754_nan => false
    end.

(** [math.Max] with its special cases, in the order of the Go library. *)
Definition Max (x y : spec_float) : spec_float :=
    if is_inf false x || is_inf false y then S754_infinity false
    else if is_nan x || is_nan y then S754_nan
    else if is_zero x && SFeqb x y then (if signbit x then y else x)
    else if gtb x y then x else y.

(** [math.Min] with its special cases, in the order of the Go library. *)
Definition Min (x y : spec_float) : spec_float :=
    if is_inf true x || is_inf true y then S754_infinity true
    else if is_nan x || is_nan y then S754_nan
    else if is_zero x && SFeqb x y then (if signbit x then x else y)
    else if SFltb x y then x else y.

End Format.
End IEEE.

(** binary64 *)
Module F64.
Definition prec : Z := 53.
Definition emax : Z := 1024.
Definition t : Type := spec_float.
Definition of_int : Z -> t := IEEE.of_Z prec emax.
Definition div : t -> t -> t := SFdiv prec emax.
Definition mul : t -> t -> t := SFmul prec emax.
Definition add : t -> t -> t := SFadd prec emax.
Definition sub : t -> t -> t := SFsub prec emax.
Definition Floor : t -> t := IEEE.Floor prec emax.
Definition Ceil : t -> t := IEEE.Ceil prec emax.
Definition to_int : t -> Z := IEEE.to_int 64.
Definition zero : t := S754_zero false.
Definition one : t := Eval vm_compute in of_int 1.
Definition two : t := Eval vm_compute in of_int 2.
Definition three : t := Eval vm_compute in of_int 3.
Definition half : t := Eval vm_compute in div one two.
End F64.

(** binary32 *)
Module F32.
Definition prec : Z := 24.
Definition emax : Z := 128.
Definition t : Type := spec_float.
Definition of_int : Z -> t := IEEE.of_Z prec emax.
Definition div : t -> t -> t := SFdiv prec emax.
Definition mul : t -> t -> t := SFmul prec emax.
Definition sub : t -> t -> t := SFsub prec emax.
(** [int(x)] and [C.int(x)] *)
Definition to_int : t -> Z := IEEE.to_int 64.
Definition to_cint : t -> Z := IEEE.to_int 32.
Definition zero : t := S754_zero false.
Definition two : t := Eval vm_compute in of_int 2.
Definition hundred : t := Eval vm_compute in of_int 100.
End F32.

(* ================================================================== *)
(** ** Data model *)

(** Go's [error] values: only their message matters here. *)
Definition error : Type := string.

(** [ImageType], in the order of its [iota] block. *)
Inductive ImageType : Type :=
| UNKNOWN | JPEG | WEBP | PNG | TIFF | GIF | PDF | SVG | MAGICK.

Definition ImageType_eqb (a b : ImageType) : bool :=
  match a, b with
  | UNKNOWN, UNKNOWN | JPEG, JPEG | WEBP, WEBP | PNG, PNG | TIFF, TIFF
  | GIF, GIF | PDF, PDF | SVG, SVG | MAGICK, MAGICK => true
  | _, _ => false
  end.

(** Modelled from the spec: [Gravity] (Centre, North, East, South, West,
    Smart).  Its declaration, like those of [Angle], [Position],
    [Direction], [Color] and of the option structs below, is not among the
    sources at hand; the shape of each is the one the spec's data model
    gives and the uses in vipsimage.go require. *)
Inductive Gravity : Type :=
| GravityCentre | GravityNorth | GravityEast | GravitySouth | GravityWest
| GravitySmart.

Definition Gravity_eqb (a b : Gravity) : bool :=
  match a, b with
  | GravityCentre, GravityCentre | GravityNorth, GravityNorth
  | GravityEast, GravityEast | GravitySouth, GravitySouth
  | GravityWest, GravityWest | GravitySmart, GravitySmart => true
  | _, _ => false
  end.

(** Modelled from the spec: [Angle], an integer number of degrees, with
    the four cardinal constants. *)
Definition Angle : Type := Z.
Definition D0 : Angle := 0.
Definition D90 : Angle := 90.
Definition D180 : Angle := 180.
Definition D270 : Angle := 270.

(** Modelled from the spec: [Position], the alignments of a watermark. *)
Inductive Position : Type :=
| PositionTop | PositionRight | PositionBottom | PositionLeft | PositionCentre.

(** [Interpolator]: the four values of the table [imageInterpolatorToID]. *)
Inductive Interpolator : Type := Bicubic | Bilinear | Nohalo | Nearest.

(** Modelled from the spec: [Direction], the axis of a flip. *)
Inductive Direction : Type := Horizontal | Vertical.

(** Modelled from the spec: [Color], RGBA. *)
Module Color.
Record t : Type := mk { R : Z; G : Z; B : Z; A : Z }.
Definition eqb (a b : t) : bool :=
  (R a =? R b) && (G a =? G b) && (B a =? B b) && (A a =? A b).
End Color.

(** Modelled from the spec: the extract region, [float32] fields that are
    absolute or percentages of the source. *)
Module Extract.
Record t : Type := mk
  { Left : F32.t; Top : F32.t; Width : F32.t; Height : F32.t;
    Relative : bool }.
Definition none : t := mk F32.zero F32.zero F32.zero F32.zero false.
End Extract.

(** Modelled from the spec: the effect parameters. *)
Module GaussianBlur.
Record t : Type := mk { Sigma : F64.t; MinAmpl : F64.t }.
Definition none : t := mk F64.zero F64.zero.
End GaussianBlur.

Module Sharpen.
Record t : Type := mk
  { Sigma : F64.t; X1 : F64.t; Y2 : F64.t; Y3 : F64.t; M1 : F64.t;
    M2 : F64.t }.
Definition none : t := mk F64.zero F64.zero F64.zero F64.zero F64.zero F64.zero.
End Sharpen.

(** Modelled from the spec: the text watermark. *)
Module Watermark.
Record t : Type := mk
  { Text : string; Font : string; Width : Z; DPI : Z; Margin : Z;
    NoReplicate : bool; Background : Color.t; Relative : bool;
    HOffset : F64.t; VOffset : F64.t; HAlign : Position; VAlign : Position;
    TextAlign : Z }.
Definition none : t :=
  mk EmptyString EmptyString 0 0 0 false (Color.mk 0 0 0 0) false
     F64.zero F64.zero PositionTop PositionTop 0.
Definition with_defaults (w : t) (font : string) (width dpi margin : Z) : t :=
  mk (Text w) font width dpi margin (NoReplicate w) (Background w)
     (Relative w) (HOffset w) (VOffset w) (HAlign w) (VAlign w) (TextAlign w).
End Watermark.

(** Modelled from the spec: the image watermark; the offsets and the width
    are [float32], as the arithmetic of [vipsDrawWatermark] requires. *)
Module WatermarkImage.
Record t : Type := mk
  { Buf : list byte; Opacity : F32.t; HAlign : Position; VAlign : Position;
    HOffset : F32.t; VOffset : F32.t; Width : F32.t; Relative : bool;
    BlendMode : Z }.
Definition none : t :=
  mk [] F32.zero PositionTop PositionTop F32.zero F32.zero F32.zero false 0.
Definition with_Opacity (w : t) (op : F32.t) : t :=
  mk (Buf w) op (HAlign w) (VAlign w) (HOffset w) (VOffset w) (Width w)
     (Relative w) (BlendMode w).
End WatermarkImage.

(** Modelled from the spec: [Options], with the fields [Process] reads or
    writes. *)
Module Options.
Record t : Type := mk
  { Width : Z; Height : Z;
    Crop : bool; Embed : bool; Force : bool; Enlarge : bool;
    MaintainAspect : bool; SmartCrop : bool; Trim : bool;
    Gravity : Gravity; Extract : Extract.t;
    Rotate : Angle; Flip : bool; Flop : bool; NoAutoRotate : bool;
    Zoom : Z;
    Watermark : Watermark.t; WatermarkImage : WatermarkImage.t;
    Background : Color.t; Threshold : F64.t;
    GaussianBlur : GaussianBlur.t; Sharpen : Sharpen.t; Gamma : F64.t;
    Type_ : ImageType; Quality : Z; Compression : Z; Interpretation : Z;
    Interpolator : Interpolator; Extend : Z }.

(** [Options{}]: every field at its zero value. *)
Definition zero : t :=
  mk 0 0 false false false false false false false GravityCentre Extract.none
     0 false false false 0 Watermark.none WatermarkImage.none
     (Color.mk 0 0 0 0) F64.zero GaussianBlur.none Sharpen.none F64.zero
     UNKNOWN 0 0 0 Bicubic 0.
End Options.

(** Assignments to single fields of [Options]. *)
Definition setWidth (o : Options.t) (v : Z) : Options.t :=
  let '(Options.mk w h cr em fo en ma sc tr gr ex ro fl fp na zo wm wi bg th gb sh ga ty qu co ip il xt) := o in
  Options.mk v h cr em fo en ma sc tr gr ex ro fl fp na zo wm wi bg th gb sh ga ty qu co ip il xt.

Definition setHeight (o : Options.t) (v : Z) : Options.t :=
  let '(Options.mk w h cr em fo en ma sc tr gr ex ro fl fp na zo wm wi bg th gb sh ga ty qu co ip il xt) := o in
  Options.mk w v cr em fo en ma sc tr gr ex ro fl fp na zo wm wi bg th gb sh ga ty qu co ip il xt.

Definition setCrop (o : Options.t) (v : bool) : Options.t :=
  let '(Options.mk w h cr em fo en ma sc tr gr ex ro fl fp na zo wm wi bg th gb sh ga ty qu co ip il xt) := o in
  Options.mk w h v em fo en ma sc tr gr ex ro fl fp na zo wm wi bg th gb sh ga ty qu co ip il xt.

Definition setEmbed (o : Options.t) (v : bool) : Options.t :=
  let '(Options.mk w h cr em fo en ma sc tr gr ex ro fl fp na zo wm wi bg th gb sh ga ty qu co ip il xt) := o in
  Options.mk w h cr v fo en ma sc tr gr ex ro fl fp na zo wm wi bg th gb sh ga ty qu co ip il xt.

Definition setForce (o : Options.t) (v : bool) : Options.t :=
  let '(Options.mk w h cr em fo en ma sc tr gr ex ro fl fp na zo wm wi bg th gb sh ga ty qu co ip il xt) := o in
  Options.mk w h cr em v en ma sc tr gr ex ro fl fp na zo wm wi bg th gb sh ga ty qu co ip il xt.

Definition setEnlarge (o : Options.t) (v : bool) : Options.t :=
  let '(Options.mk w h cr em fo en ma sc tr gr ex ro fl fp na zo wm wi bg th gb sh ga ty qu co ip il xt) := o in
  Options.mk w h cr em fo v ma sc tr gr ex ro fl fp na zo wm wi bg th gb sh ga ty qu co ip il xt.

Definition setMaintainAspect (o : Options.t) (v : bool) : Options.t :=
  let '(Options.mk w h cr em fo en ma sc tr gr ex ro fl fp na zo wm wi bg th gb sh ga ty qu co ip il xt) := o in
  Options.mk w h cr em fo en v sc tr gr ex ro fl fp na zo wm wi bg th gb sh ga ty qu co ip il xt.

Definition setTrim (o : Options.t) (v : bool) : Options.t :=
  let '(Options.mk w h cr em fo en ma sc tr gr ex ro fl fp na zo wm wi bg th gb sh ga ty qu co ip il xt) := o in
  Options.mk w h cr em fo en ma sc v gr ex ro fl fp na zo wm wi bg th gb sh ga ty qu co ip il xt.

Definition setExtract (o : Options.t) (v : Extract.t) : Options.t :=
  let '(Options.mk w h cr em fo en ma sc tr gr ex ro fl fp na zo wm wi bg th gb sh ga ty qu co ip il xt) := o in
  Options.mk w h cr em fo en ma sc tr gr v ro fl fp na zo wm wi bg th gb sh ga ty qu co ip il xt.

Definition setRotate (o : Options.t) (v : Angle) : Options.t :=
  let '(Options.mk w h cr em fo en ma sc tr gr ex ro fl fp na zo wm wi bg th gb sh ga ty qu co ip il xt) := o in
  Options.mk w h cr em fo en ma sc tr gr ex v fl fp na zo wm wi bg th gb sh ga ty qu co ip il xt.

Definition setFlip (o : Options.t) (v : bool) : Options.t :=
  let '(Options.mk w h cr em fo en ma sc tr gr ex ro fl fp na zo wm wi bg th gb sh ga ty qu co ip il xt) := o in
  Options.mk w h cr em fo en ma sc tr gr ex ro v fp na zo wm wi bg th gb sh ga ty qu co ip il xt.

Definition setNoAutoRotate (o : Options.t) (v : bool) : Options.t :=
  let '(Options.mk w h cr em fo en ma sc tr gr ex ro fl fp na zo wm wi bg th gb sh ga ty qu co ip il xt) := o in
  Options.mk w h cr em fo en ma sc tr gr ex ro fl fp v zo wm wi bg th gb sh ga ty qu co ip il xt.

Definition setBackground (o : Options.t) (v : Color.t) : Options.t :=
  let '(Options.mk w h cr em fo en ma sc tr gr ex ro fl fp na zo wm wi bg th gb sh ga ty qu co ip il xt) := o in
  Options.mk w h cr em fo en ma sc tr gr ex ro fl fp na zo wm wi v th gb sh ga ty qu co ip il xt.

Definition setType (o : Options.t) (v : ImageType) : Options.t :=
  let '(Options.mk w h cr em fo en ma sc tr gr ex ro fl fp na zo wm wi bg th gb sh ga ty qu co ip il xt) := o in
  Options.mk w h cr em fo en ma sc tr gr ex ro fl fp na zo wm wi bg th gb sh ga v qu co ip il xt.

Definition setQuality (o : Options.t) (v : Z) : Options.t :=
  let '(Options.mk w h cr em fo en ma sc tr gr ex ro fl fp na zo wm wi bg th gb sh ga ty qu co ip il xt) := o in
  Options.mk w h cr em fo en ma sc tr gr ex ro fl fp na zo wm wi bg th gb sh ga ty v co ip il xt.

Definition setCompression (o : Options.t) (v : Z) : Options.t :=
  let '(Options.mk w h cr em fo en ma sc tr gr ex ro fl fp na zo wm wi bg th gb sh ga ty qu co ip il xt) := o in
  Options.mk w h cr em fo en ma sc tr gr ex ro fl fp na zo wm wi bg th gb sh ga ty qu v ip il xt.

Definition setInterpretation (o : Options.t) (v : Z) : Options.t :=
  let '(Options.mk w h cr em fo en ma sc tr gr ex ro fl fp na zo wm wi bg th gb sh ga ty qu co ip il xt) := o in
  Options.mk w h cr em fo en ma sc tr gr ex ro fl fp na zo wm wi bg th gb sh ga ty qu co v il xt.

(** [C.VipsImage]: the fields the Go code reads directly.  [handle]
    identifies the object, so that the engine can tell images apart. *)
Module CImage.
Record t : Type := mk { Xsize : Z; Ysize : Z; Bands : Z; handle : Z }.
End CImage.

(** [VipsImage]; [Image] is a pointer and may be nil. *)
Module VipsImage.
Record t : Type := mk
  { Buffer : list byte; Image : option CImage.t; Type_ : ImageType;
    Options : Options.t }.
Definition with_Buffer (img : t) (b : list byte) : t :=
  mk b (Image img) (Type_ img) (Options img).
Definition with_Image (img : t) (c : option CImage.t) : t :=
  mk (Buffer img) c (Type_ img) (Options img).
Definition with_Type (img : t) (ty : ImageType) : t :=
  mk (Buffer img) (Image img) ty (Options img).
Definition with_Options (img : t) (o : Options.t) : t :=
  mk (Buffer img) (Image img) (Type_ img) o.
End VipsImage.

(* ================================================================== *)
(** ** The image engine (libvips, through cgo) *)

(** What a C entry point hands back: the new object, or the message that
    [catchVipsError] reads from the engine's error buffer. *)
Definition cresult (A : Type) : Type := sum A error.

(** The C entry points, under their names.  Two fields stand for more than
    one function: [vips_save_bridge] for the four encoders
    ([vips_webpsave_bridge], [vips_pngsave_bridge], [vips_tiffsave_bridge],
    [vips_jpegsave_bridge]), chosen by its first argument; and
    [vipsImageType] for the Go function of that name, which tells the format
    from the leading bytes with the engine's help (its type probes, the SVG
    pattern, libmagick's loader): the spec's [detectFormat]. *)
Record Engine : Type := mkEngine
  { vips_exif_orientation : CImage.t -> Z;
    has_alpha_channel : CImage.t -> Z;
    has_profile_embed : CImage.t -> Z;
    vips_enum_nick_bridge : CImage.t -> string;
    interpolator_window_size : Interpolator -> Z;
    vips_type_find_bridge : ImageType -> Z;
    vipsImageType : list byte -> ImageType;
    vips_init_image : list byte -> ImageType -> cresult CImage.t;
    vips_save_bridge : ImageType -> CImage.t -> cresult (list byte);
    vips_rotate_fill : CImage.t -> Angle -> Color.t -> cresult CImage.t;
    vips_flip_bridge : CImage.t -> Direction -> cresult CImage.t;
    vips_zoom_bridge : CImage.t -> Z -> Z -> cresult CImage.t;
    vips_jpegload_buffer_shrink : list byte -> Z -> cresult CImage.t;
    vips_webpload_buffer_shrink : list byte -> Z -> cresult CImage.t;
    vips_shrink_bridge : CImage.t -> F64.t -> F64.t -> cresult CImage.t;
    vips_resize_bridge : CImage.t -> F64.t -> Interpolator -> cresult CImage.t;
    vips_smartcrop_bridge : CImage.t -> Z -> Z -> cresult CImage.t;
    vips_extract_area_bridge : CImage.t -> Z -> Z -> Z -> Z -> cresult CImage.t;
    vips_embed_bridge :
      CImage.t -> Z -> Z -> Z -> Z -> Z -> Color.t -> cresult CImage.t;
    vips_find_trim_bridge :
      CImage.t -> Color.t -> F64.t -> cresult (Z * Z * Z * Z);
    vips_gaussblur_bridge : CImage.t -> F64.t -> F64.t -> cresult CImage.t;
    vips_sharpen_bridge : CImage.t -> Sharpen.t -> cresult CImage.t;
    vips_watermark :
      CImage.t -> Watermark.t -> Watermark.t -> cresult CImage.t;
    vips_watermark_image :
      CImage.t -> CImage.t -> Z -> Z -> F32.t -> Z -> cresult CImage.t;
    vips_flatten_background_brigde : CImage.t -> Color.t -> cresult CImage.t;
    vips_gamma_bridge : CImage.t -> F64.t -> cresult CImage.t;
    VipsMajorVersion : Z;
    VipsMinorVersion : Z }.

(** Package-level constants whose declarations are not at hand: they are
    parameters of the development. *)
Record Constants : Type := mkConstants
  { Quality : Z;
    MaxSize : Z;
    WatermarkFont : string;
    ColorBlack : Color.t;
    InterpretationSRGB : Z;
    ExtendBackground : Z }.

(** The engine calls that produce, load or encode an image, as logged. *)
Inductive Call : Type :=
| CallRotate (angle : Angle)
| CallFlip (d : Direction)
| CallSave (ty : ImageType)
| CallShrinkJpeg (shrink : Z)
| CallShrinkWebp (shrink : Z)
| CallZoom (zoom : Z)
| CallShrink (shrink : Z)
| CallResize (scale : F64.t)
| CallSmartCrop (width height : Z)
| CallExtractArea (left top width height : Z)
| CallEmbed (left top width height : Z)
| CallFindTrim
| CallGaussBlur
| CallSharpen
| CallWatermarkText
| CallInitImage
| CallWatermarkImage (left top : Z)
| CallFlatten
| CallGamma.

(* ================================================================== *)
(** ** Geometry calculator (vipsimage.go) *)

Section Planner.

Variable E : Engine.
Variable K : Constants.

(** [vipsWindowSize]: the C function returns an [int]. *)
Definition vipsWindowSize (i : Interpolator) : F64.t :=
  F64.of_int (interpolator_window_size E i).

(** [normalizeOperation] *)
Definition normalizeOperation (o : Options.t) : Options.t :=
  if negb (Options.MaintainAspect o) && negb (Options.Force o)
     && negb (Options.Crop o) && negb (Options.Embed o)
     && negb (Options.Enlarge o) && (Options.Rotate o =? 0)
     && ((Options.Width o >? 0) || (Options.Height o >? 0))
  then setForce o true
  else o.

(** [shouldTransformImage] *)
Definition shouldTransformImage (c : CImage.t) (o : Options.t) : bool :=
  let inWidth := CImage.Xsize c in
  let inHeight := CImage.Ysize c in
  Options.Force o
  || ((Options.Width o >? 0) && (Options.Width o <? inWidth))
  || ((Options.Height o >? 0) && (Options.Height o <? inHeight))
  || IEEE.gtb (Extract.Width (Options.Extract o)) F32.zero
  || IEEE.gtb (Extract.Height (Options.Extract o)) F32.zero
  || ((Options.Height o >? 0) && (Options.Height o >? inHeight)
      && Options.Enlarge o)
  || ((Options.Width o >? 0) && (Options.Width o >? inWidth)
      && Options.Enlarge o)
  || Options.Trim o.

(** [shouldApplyEffects]; [&&] binds tighter than [||]. *)
Definition shouldApplyEffects (o : Options.t) : bool :=
  IEEE.gtb (GaussianBlur.Sigma (Options.GaussianBlur o)) F64.zero
  || IEEE.gtb (GaussianBlur.MinAmpl (Options.GaussianBlur o)) F64.zero
  || (IEEE.gtb (Sharpen.Sigma (Options.Sharpen o)) F64.zero
      && IEEE.gtb (Sharpen.Y2 (Options.Sharpen o)) F64.zero)
  || IEEE.gtb (Sharpen.Y3 (Options.Sharpen o)) F64.zero.

(** The condition [!Enlarge && !Force && Xsize < Width && Ysize < Height],
    which [Process], [ScaleFactor], [calculateShrink] and
    [calculateResidual] each spell out. *)
Definition smallerThanBox (c : CImage.t) (o : Options.t) : bool :=
  negb (Options.Enlarge o) && negb (Options.Force o)
  && (CImage.Xsize c <? Options.Width o)
  && (CImage.Ysize c <? Options.Height o).

(** [Process], the lines that keep the output from being enlarged. *)
Definition clampToSource (c : CImage.t) (o : Options.t) : Options.t :=
  let inWidth := CImage.Xsize c in
  let inHeight := CImage.Ysize c in
  if smallerThanBox c o then setHeight (setWidth o inWidth) inHeight else o.

(** [roundFloat] *)
Definition roundFloat (f : F64.t) : Z :=
  if SFltb f F64.zero then F64.to_int (F64.Ceil (F64.sub f F64.half))
  else F64.to_int (F64.Floor (F64.add f F64.half)).

(** [ScaleFactor]: the factor, and the options it leaves behind. *)
Definition ScaleFactor (c : CImage.t) (o : Options.t) : F64.t * Options.t :=
  if smallerThanBox c o then (F64.one, o)
  else
    let inWidth := CImage.Xsize c in
    let inHeight := CImage.Ysize c in
    let factor := F64.one in
    let xfactor := F64.div (F64.of_int inWidth) (F64.of_int (Options.Width o)) in
    let yfactor := F64.div (F64.of_int inHeight) (F64.of_int (Options.Height o)) in
    if (Options.Width o >? 0) && (Options.Height o >? 0) then
      (* Fixed width and height *)
      if Options.Crop o then (IEEE.Min xfactor yfactor, o)
      else (IEEE.Max xfactor yfactor, o)
    else if Options.Width o >? 0 then
      (* Fixed width, auto height *)
      if Options.Crop o then (factor, setHeight o inHeight)
      else
        let factor := xfactor in
        (factor, setHeight o (roundFloat (F64.div (F64.of_int inHeight) factor)))
    else if Options.Height o >? 0 then
      (* Fixed height, auto width *)
      if Options.Crop o then (factor, setWidth o inWidth)
      else
        let factor := yfactor in
        (factor, setWidth o (roundFloat (F64.div (F64.of_int inWidth) factor)))
    else
      (* Identity transform *)
      (factor, setHeight (setWidth o inWidth) inHeight).

(** [calculateCrop] *)
Definition calculateCrop (inWidth inHeight outWidth outHeight : Z)
  (gravity : Gravity) : Z * Z :=
  let centreX := GoInt.quot (GoInt.add (GoInt.sub inWidth outWidth) 1) 2 in
  let centreY := GoInt.quot (GoInt.add (GoInt.sub inHeight outHeight) 1) 2 in
  match gravity with
  | GravityNorth => (centreX, 0)
  | GravityEast => (GoInt.sub inWidth outWidth, centreY)
  | GravitySouth => (centreX, GoInt.sub inHeight outHeight)
  | GravityWest => (0, centreY)
  | _ => (centreX, centreY)
  end.

(** [calculateShrink] *)
Definition calculateShrink (c : CImage.t) (o : Options.t) : Z * Options.t :=
  if smallerThanBox c o then (1, o)
  else
    let '(factor, o) := ScaleFactor c o in
    (* Calculate integral box shrink *)
    let windowSize := vipsWindowSize (Options.Interpolator o) in
    let shrink :=
      if IEEE.geb factor F64.two && IEEE.gtb windowSize F64.three
      then F64.Floor (F64.div (F64.mul factor F64.three) windowSize)
      else F64.Floor factor in
    (F64.to_int (IEEE.Max shrink F64.one), o).

(** [calculateResidual]: Go evaluates the operands of [/] from left to
    right, so [calculateShrink] runs before [ScaleFactor]. *)
Definition calculateResidual (c : CImage.t) (o : Options.t) : F64.t * Options.t :=
  if smallerThanBox c o then (F64.zero, o)
  else
    let '(shrink, o) := calculateShrink c o in
    let '(factor, o) := ScaleFactor c o in
    (F64.div (F64.of_int shrink) factor, o).

(** [vipsDrawWatermark], the placement of the watermark: [left] and [top]
    start at zero and only the three listed alignments assign them. *)
Definition watermarkPlacement (o : WatermarkImage.t)
  (srcX srcY wmX wmY : F32.t) : F32.t * F32.t :=
  let HOffset := WatermarkImage.HOffset o in
  let VOffset := WatermarkImage.VOffset o in
  if WatermarkImage.Relative o then
    (match WatermarkImage.HAlign o with
     | PositionLeft => F32.mul (F32.div HOffset F32.hundred) srcX
     | PositionRight =>
         let hOffset := F32.mul (F32.div HOffset F32.hundred) srcX in
         F32.sub (F32.sub srcX hOffset) wmX
     | PositionCentre => F32.div (F32.sub srcX wmX) F32.two
     | _ => F32.zero
     end,
     match WatermarkImage.VAlign o with
     | PositionTop => F32.mul (F32.div VOffset F32.hundred) srcY
     | PositionBottom =>
         let vOffset := F32.mul (F32.div VOffset F32.hundred) srcY in
         F32.sub (F32.sub srcY vOffset) wmY
     | PositionCentre => F32.div (F32.sub srcY wmY) F32.two
     | _ => F32.zero
     end)
  else
    (match WatermarkImage.HAlign o with
     | PositionLeft => HOffset
     | PositionRight => F32.sub (F32.sub srcX HOffset) wmX
     | PositionCentre => F32.div (F32.sub srcX wmX) F32.two
     | _ => F32.zero
     end,
     match WatermarkImage.VAlign o with
     | PositionTop => VOffset
     | PositionBottom => F32.sub (F32.sub srcY VOffset) wmY
     | PositionCentre => F32.div (F32.sub srcY wmY) F32.two
     | _ => F32.zero
     end).

End Planner.

(* ================================================================== *)
(** ** Stateful code: the receiver, the call log, and crashes *)

(** Run-time panics of the Go code; [NestingExhausted] marks a nested
    [Process] deeper than the model unfolds (see [Process_depth]). *)
Inductive Fault : Type := NilDereference | IndexOutOfRange | NestingExhausted.

(** The receiver [img] of the method being run and the engine calls made
    so far, oldest first. *)
Record World : Type := mkWorld { self : VipsImage.t; calls : list Call }.

Inductive Outcome (A : Type) : Type :=
| Returns (a : A) (w : World)
| Crash (f : Fault) (w : World).
Arguments Returns {A} a w.
Arguments Crash {A} f w.

Definition M (A : Type) : Type := World -> Outcome A.

Definition ret {A : Type} (a : A) : M A := fun w => Returns a w.

Definition bind {A B : Type} (m : M A) (k : A -> M B) : M B :=
  fun w => match m w with
           | Returns a w' => k a w'
           | Crash f w' => Crash f w'
           end.

Notation "x <- m ;; k" := (bind m (fun x => k))
  (at level 61, m at next level, right associativity).
Notation "' pat <- m ;; k" := (bind m (fun x => match x with pat => k end))
  (at level 61, pat pattern, m at next level, right associativity).
Notation "m ;;; k" := (bind m (fun _ => k))
  (at level 61, right associativity).

Definition panic {A : Type} (f : Fault) : M A := fun w => Crash f w.
Definition getSelf : M VipsImage.t := fun w => Returns (self w) w.
Definition getOptions : M Options.t :=
  fun w => Returns (VipsImage.Options (self w)) w.
Definition putOptions (o : Options.t) : M unit :=
  fun w => Returns tt (mkWorld (VipsImage.with_Options (self w) o) (calls w)).
Definition putImage (c : option CImage.t) : M unit :=
  fun w => Returns tt (mkWorld (VipsImage.with_Image (self w) c) (calls w)).
Definition putBuffer (b : list byte) : M unit :=
  fun w => Returns tt (mkWorld (VipsImage.with_Buffer (self w) b) (calls w)).
Definition log (c : Call) : M unit :=
  fun w => Returns tt (mkWorld (self w) (calls w ++ [c])).

(** [img.Image.Xsize] and the like: reading through a nil pointer panics. *)
Definition deref : M CImage.t :=
  fun w => match VipsImage.Image (self w) with
           | Some c => Returns c w
           | None => Crash NilDereference w
           end.

(** A method called on another [*VipsImage]: the receiver changes for the
    duration of the call, the call log is shared. *)
Definition on {A : Type} (i : VipsImage.t) (m : M A) : M (A * VipsImage.t) :=
  fun w => match m (mkWorld i (calls w)) with
           | Returns a w' => Returns (a, self w') (mkWorld (self w) (calls w'))
           | Crash f w' => Crash f (mkWorld (self w) (calls w'))
           end.

(** [if err != nil { return err }] *)
Definition orReturn (m : M (option error)) (k : M (option error)) :
  M (option error) :=
  e <- m ;; match e with Some _ => ret e | None => k end.
Notation "'check' m ;; k" := (orReturn m k)
  (at level 61, m at next level, right associativity).

Definition ErrVipsImageNotValidPointer : error :=
  "Image is not a valid pointer to *C.VipsImage"%string.

(** A pure function of the loaded image and the options that also
    rewrites the options, as a method of the receiver. *)
Definition planning {A : Type} (f : CImage.t -> Options.t -> A * Options.t) :
  M A :=
  c <- deref ;;
  o <- getOptions ;;
  let '(a, o') := f c o in
  putOptions o' ;;; ret a.

(* ================================================================== *)
(** ** The engine bindings and the stages of [Process] *)

Section Pipeline.

Variable E : Engine.
Variable K : Constants.

(** The shape shared by [vipsRotate], [vipsFlip], [vipsZoom], [vipsShrink],
    [vipsResize], [vipsSmartCrop], [vipsEmbed], [vipsGaussianBlur],
    [vipsSharpen], [vipsWatermark]: refuse a nil image, call the engine,
    return its error or install the image it produced. *)
Definition replacing (call : Call) (op : CImage.t -> cresult CImage.t) :
  M (option error) :=
  i <- getSelf ;;
  match VipsImage.Image i with
  | None => ret (Some ErrVipsImageNotValidPointer)
  | Some c =>
      log call ;;;
      match op c with
      | inr msg => ret (Some msg)
      | inl image => putImage (Some image) ;;; ret None
      end
  end.

(** [VipsIsTypeSupported] *)
Definition VipsIsTypeSupported (t : ImageType) : bool :=
  match t with
  | UNKNOWN => false
  | _ => negb (vips_type_find_bridge E t =? 0)
  end.

(** [IsTypeSupported]: [ImageTypes] lists every type but [UNKNOWN]; the
    cache of [IsImageTypeSupportedByVips] holds [VipsIsTypeSupported]. *)
Definition IsTypeSupported (t : ImageType) : bool :=
  negb (ImageType_eqb t UNKNOWN) && VipsIsTypeSupported t.

(** [vipsExifOrientation] *)
Definition vipsExifOrientation (img : VipsImage.t) : Z * option error :=
  match VipsImage.Image img with
  | None => (0, Some ErrVipsImageNotValidPointer)
  | Some c => (vips_exif_orientation E c, None)
  end.

(** [vipsHasAlpha] *)
Definition vipsHasAlpha (img : VipsImage.t) : bool * option error :=
  match VipsImage.Image img with
  | None => (false, Some ErrVipsImageNotValidPointer)
  | Some c => (has_alpha_channel E c >? 0, None)
  end.

Definition vipsRotate (angle : Angle) : M (option error) :=
  o <- getOptions ;;
  replacing (CallRotate angle)
    (fun c => vips_rotate_fill E c angle (Options.Background o)).

Definition vipsFlip (direction : Direction) : M (option error) :=
  replacing (CallFlip direction) (fun c => vips_flip_bridge E c direction).

Definition vipsZoom (zoom : Z) : M (option error) :=
  replacing (CallZoom zoom)
    (fun c => vips_zoom_bridge E c (GoInt.wrap 32 zoom) (GoInt.wrap 32 zoom)).

Definition vipsShrink (shrink : Z) : M (option error) :=
  replacing (CallShrink shrink)
    (fun c => vips_shrink_bridge E c (F64.of_int shrink) (F64.of_int shrink)).

Definition vipsResize (scale : F64.t) (i : Interpolator) : M (option error) :=
  replacing (CallResize scale) (fun c => vips_resize_bridge E c scale i).

Definition vipsSmartCrop (width height : Z) : M (option error) :=
  i <- getSelf ;;
  match VipsImage.Image i with
  | None => ret (Some ErrVipsImageNotValidPointer)
  | Some _ =>
      if (width >? MaxSize K) || (height >? MaxSize K)
      then ret (Some "Maximum image size exceeded"%string)
      else replacing (CallSmartCrop width height)
             (fun c => vips_smartcrop_bridge E c (GoInt.wrap 32 width)
                         (GoInt.wrap 32 height))
  end.

Definition vipsEmbed (left top width height : Z) (extend : Z)
  (background : Color.t) : M (option error) :=
  let extend := if extend >? 5 then ExtendBackground K else extend in
  replacing (CallEmbed left top width height)
    (fun c => vips_embed_bridge E c (GoInt.wrap 32 left) (GoInt.wrap 32 top)
                (GoInt.wrap 32 width) (GoInt.wrap 32 height)
                (GoInt.wrap 32 extend) background).

(** [vipsGaussianBlur] *)
Definition vipsGaussianBlur (o : GaussianBlur.t) : M (option error) :=
  let sigma :=
    if SFeqb (GaussianBlur.Sigma o) F64.zero then F64.one
    else GaussianBlur.Sigma o in
  replacing CallGaussBlur
    (fun c => vips_gaussblur_bridge E c sigma (GaussianBlur.MinAmpl o)).

Definition vipsSharpen (o : Sharpen.t) : M (option error) :=
  replacing CallSharpen (fun c => vips_sharpen_bridge E c o).

(** [vipsWatermark]: the text and its own options come from [w], the
    alignment and offsets from [img.Options.Watermark]. *)
Definition vipsWatermark (w : Watermark.t) : M (option error) :=
  opts <- getOptions ;;
  replacing CallWatermarkText
    (fun c => vips_watermark E c w (Options.Watermark opts)).

(** [vipsGamma] has no nil check. *)
Definition vipsGamma (Gamma : F64.t) : M (option error) :=
  c <- deref ;;
  log CallGamma ;;;
  match vips_gamma_bridge E c Gamma with
  | inr msg => ret (Some msg)
  | inl image => putImage (Some image) ;;; ret None
  end.

(** [vipsFlattenBackground] *)
Definition vipsFlattenBackground (background : Color.t) : M (option error) :=
  i <- getSelf ;;
  match VipsImage.Image i with
  | None => ret (Some ErrVipsImageNotValidPointer)
  | Some c =>
      let '(alpha, e) := vipsHasAlpha i in
      match alpha, e with
      | true, None =>
          log CallFlatten ;;;
          match vips_flatten_background_brigde E c background with
          | inr msg => ret (Some msg)
          | inl image => putImage (Some image) ;;; ret None
          end
      | _, _ => ret None
      end
  end.

(** [getImageBuffer]: encodes the image in the receiver's format (JPEG
    unless WEBP, PNG or TIFF) and keeps the bytes in [img.Buffer]. *)
Definition getImageBuffer : M (list byte * option error) :=
  i <- getSelf ;;
  match VipsImage.Image i with
  | None => ret ([], Some ErrVipsImageNotValidPointer)
  | Some c =>
      let kind :=
        match VipsImage.Type_ i with
        | WEBP => WEBP | PNG => PNG | TIFF => TIFF | _ => JPEG
        end in
      log (CallSave kind) ;;;
      match vips_save_bridge E kind c with
      | inr msg => ret ([], Some msg)
      | inl buf => putBuffer buf ;;; ret (buf, None)
      end
  end.

(** [vipsShrinkJpeg] and [vipsShrinkWebp]: [&img.Buffer[0]] panics on an
    empty buffer. *)
Definition reloading (call : Call)
  (load : list byte -> cresult CImage.t) : M (option error) :=
  i <- getSelf ;;
  match VipsImage.Image i with
  | None => ret (Some ErrVipsImageNotValidPointer)
  | Some _ =>
      match VipsImage.Buffer i with
      | [] => panic IndexOutOfRange
      | buf =>
          log call ;;;
          match load buf with
          | inr msg => ret (Some msg)
          | inl image => putImage (Some image) ;;; ret None
          end
      end
  end.

Definition vipsShrinkJpeg (shrink : Z) : M (option error) :=
  reloading (CallShrinkJpeg shrink)
    (fun buf => vips_jpegload_buffer_shrink E buf (GoInt.wrap 32 shrink)).

Definition vipsShrinkWebp (shrink : Z) : M (option error) :=
  reloading (CallShrinkWebp shrink)
    (fun buf => vips_webpload_buffer_shrink E buf (GoInt.wrap 32 shrink)).

(** [vipsTrim]: note the order of the results, [top] first. *)
Definition vipsTrim (background : Color.t) (threshold : F64.t) :
  M (Z * Z * Z * Z * option error) :=
  i <- getSelf ;;
  match VipsImage.Image i with
  | None => ret (0, 0, 0, 0, Some ErrVipsImageNotValidPointer)
  | Some c =>
      log CallFindTrim ;;;
      match vips_find_trim_bridge E c background threshold with
      | inr msg => ret (0, 0, 0, 0, Some msg)
      | inl (top, left_, width, height) => ret (top, left_, width, height, None)
      end
  end.

(** [vipsExtract]: the area comes back as a new [*VipsImage]. *)
Definition vipsExtract (left top width height : F32.t) :
  M (option VipsImage.t * option error) :=
  img <- getSelf ;;
  match VipsImage.Image img with
  | None => ret (None, Some ErrVipsImageNotValidPointer)
  | Some c =>
      if IEEE.gtb width (F32.of_int (MaxSize K))
         || IEEE.gtb height (F32.of_int (MaxSize K))
      then ret (None, Some "Maximum image size exceeded"%string)
      else
        let srcX := F32.of_int (CImage.Xsize c) in
        let srcY := F32.of_int (CImage.Ysize c) in
        let relative := Extract.Relative (Options.Extract (VipsImage.Options img)) in
        let top' := if relative then F32.mul srcY (F32.div top F32.hundred) else top in
        let left' := if relative then F32.mul srcX (F32.div left F32.hundred) else left in
        let height' := if relative then F32.mul srcY (F32.div height F32.hundred) else height in
        let width' := if relative then F32.mul srcX (F32.div width F32.hundred) else width in
        log (CallExtractArea (F32.to_cint left') (F32.to_cint top')
               (F32.to_cint width') (F32.to_cint height')) ;;;
        match vips_extract_area_bridge E c (F32.to_cint left') (F32.to_cint top')
                (F32.to_cint width') (F32.to_cint height') with
        | inr msg => ret (None, Some msg)
        | inl image =>
            let i := VipsImage.mk [] (Some image) JPEG Options.zero in
            '(r, i) <- on i getImageBuffer ;;
            match snd r with
            | Some e => ret (None, Some e)
            | None => ret (Some (VipsImage.with_Buffer i (fst r)), None)
            end
        end
  end.

(** [applyDefaults] *)
Definition applyDefaults (img : VipsImage.t) : Options.t :=
  let o := VipsImage.Options img in
  let o := if Options.Quality o =? 0 then setQuality o (Quality K) else o in
  let o := if Options.Compression o =? 0 then setCompression o 6 else o in
  let o := if ImageType_eqb (Options.Type_ o) UNKNOWN
           then setType o (VipsImage.Type_ img) else o in
  let o := if Options.Interpretation o =? 0
           then setInterpretation o (InterpretationSRGB K) else o in
  o.

(** [calculateRotationAndFlip] *)
Definition calculateRotationAndFlip (img : VipsImage.t) (additive : bool) :
  Angle * bool * option error :=
  let angle := Options.Rotate (VipsImage.Options img) in
  let rotate := D0 in
  let flip := false in
  if (angle >? 0) && negb additive then (rotate, flip, None)
  else
    match vipsExifOrientation img with
    | (_, Some err) => (D0, false, Some err)
    | (o, None) =>
        let '(rotate, flip) :=
          match o with
          | 6 => (D90, flip)
          | 3 => (D180, flip)
          | 8 => (D270, flip)
          | 2 => (rotate, true)
          | 7 => (D270, true)
          | 4 => (D180, true)
          | 5 => (D90, true)
          | _ => (rotate, flip)
          end in
        let rotate := if additive then GoInt.add rotate angle else rotate in
        (rotate, flip, None)
    end.

(** [rotateAndFlipImage]: each of the three engine calls overwrites [err]. *)
Definition rotateAndFlipImage (additive : bool) : M (bool * option error) :=
  img <- getSelf ;;
  let '(rotation, flip, err) := calculateRotationAndFlip img additive in
  match err with
  | Some e => ret (false, Some e)
  | None =>
      let o := VipsImage.Options img in
      let o :=
        if negb (Options.NoAutoRotate o) then
          (* Cancel out the EXIF flip if user has requested flip *)
          let o := if flip && Options.Flip o then setFlip o false else o in
          setRotate o rotation
        else o in
      putOptions o ;;;
      '(rotated, err) <-
        (if Options.Rotate o >? 0
         then (e <- vipsRotate (Options.Rotate o) ;; ret (true, e))
         else ret (false, None)) ;;
      '(rotated, err) <-
        (if Options.Flip o
         then (e <- vipsFlip Vertical ;; ret (true, e))
         else ret (rotated, err)) ;;
      '(rotated, err) <-
        (if Options.Flop o
         then (e <- vipsFlip Horizontal ;; ret (true, e))
         else ret (rotated, err)) ;;
      ret (rotated, err)
  end.

(** [zoomImage] *)
Definition zoomImage : M (option error) :=
  o <- getOptions ;;
  if negb (Options.Zoom o =? 0) then vipsZoom (GoInt.add (Options.Zoom o) 1)
  else ret None.

(** [shrinkImage]; [o] is the copy of the options the caller passed. *)
Definition shrinkImage (o : Options.t) (residual : F64.t) (shrink : Z) :
  M (F64.t * option error) :=
  err <- vipsShrink shrink ;;
  match err with
  | Some e => ret (F64.zero, Some e)
  | None =>
      (* Recalculate residual float based on dimensions of required vs shrunk images *)
      c <- deref ;;
      let residualx := F64.div (F64.of_int (Options.Width o)) (F64.of_int (CImage.Xsize c)) in
      let residualy := F64.div (F64.of_int (Options.Height o)) (F64.of_int (CImage.Ysize c)) in
      if Options.Crop o then ret (IEEE.Max residualx residualy, None)
      else ret (IEEE.Min residualx residualy, None)
  end.

(** [shrinkOnLoad] *)
Definition shrinkOnLoad : M (F64.t * option error) :=
  shrink <- planning (calculateShrink E) ;;
  factor <- planning ScaleFactor ;;
  img <- getSelf ;;
  if ImageType_eqb (VipsImage.Type_ img) JPEG && (shrink >=? 2) then
    let '(factor, shrinkOnLoad) :=
      if shrink >=? 8 then (F64.div factor (F64.of_int 8), 8)
      else if shrink >=? 4 then (F64.div factor (F64.of_int 4), 4)
      else if shrink >=? 2 then (F64.div factor (F64.of_int 2), 2)
      else (factor, 1) in
    err <- vipsShrinkJpeg shrinkOnLoad ;;
    ret (factor, err)
  else if ImageType_eqb (VipsImage.Type_ img) WEBP && (shrink >=? 2) then
    err <- vipsShrinkWebp shrink ;;
    ret (factor, err)
  else ret (factor, None).

(** [extractOrEmbedImage]; [o] is a copy of the options.  In the [Trim]
    case [err] is declared anew by [:=], so what [vipsTrim] and
    [vipsExtract] report never reaches the [err] that is returned. *)
Definition extractOrEmbedImage (o : Options.t) :
  M (option VipsImage.t * option error) :=
  c <- deref ;;
  let inWidth := CImage.Xsize c in
  let inHeight := CImage.Ysize c in
  if Gravity_eqb (Options.Gravity o) GravitySmart || Options.SmartCrop o then
    err <- vipsSmartCrop (Options.Width o) (Options.Height o) ;;
    ret (None, err)
  else if Options.Crop o then
    let width := F64.to_int (IEEE.Min (F64.of_int inWidth) (F64.of_int (Options.Width o))) in
    let height := F64.to_int (IEEE.Min (F64.of_int inHeight) (F64.of_int (Options.Height o))) in
    let '(left_, top) :=
      calculateCrop inWidth inHeight (Options.Width o) (Options.Height o)
        (Options.Gravity o) in
    let left := F64.to_int (IEEE.Max (F64.of_int left_) F64.zero) in
    let top := F64.to_int (IEEE.Max (F64.of_int top) F64.zero) in
    vipsExtract (F32.of_int left) (F32.of_int top) (F32.of_int width)
      (F32.of_int height)
  else if Options.Embed o then
    let left := GoInt.quot (GoInt.sub (Options.Width o) inWidth) 2 in
    let top := GoInt.quot (GoInt.sub (Options.Height o) inHeight) 2 in
    err <- vipsEmbed left top (Options.Width o) (Options.Height o)
             (Options.Extend o) (Options.Background o) ;;
    ret (None, err)
  else if Options.Trim o then
    '(left_, top, width, height, err') <-
      vipsTrim (Options.Background o) (Options.Threshold o) ;;
    match err' with
    | None =>
        '(image, _) <- vipsExtract (F32.of_int left_) (F32.of_int top)
                         (F32.of_int width) (F32.of_int height) ;;
        ret (image, None)
    | Some _ => ret (None, None)
    end
  else
    let x := Options.Extract o in
    if negb (SFeqb (Extract.Top x) F32.zero) || negb (SFeqb (Extract.Left x) F32.zero)
       || negb (SFeqb (Extract.Width x) F32.zero)
       || negb (SFeqb (Extract.Height x) F32.zero)
    then
      let width := if SFeqb (Extract.Width x) F32.zero
                   then F32.of_int (Options.Width o) else Extract.Width x in
      let height := if SFeqb (Extract.Height x) F32.zero
                    then F32.of_int (Options.Height o) else Extract.Height x in
      if SFeqb width F32.zero || SFeqb height F32.zero
      then ret (None, Some "extract area width/height params are required"%string)
      else vipsExtract (Extract.Left x) (Extract.Top x) width height
    else ret (None, None).

(** [transformImage] *)
Definition transformImage (shrink : Z) (residual : F64.t) : M (option error) :=
  (* Use vips_shrink with the integral reduction *)
  '(residual, err) <-
    (if shrink >? 1
     then (o <- getOptions ;; shrinkImage o residual shrink)
     else ret (residual, None)) ;;
  match err with
  | Some e => ret (Some e)
  | None =>
      o <- getOptions ;;
      check (if Options.Force o || negb (SFeqb residual F64.zero)
             then vipsResize residual (Options.Interpolator o)
             else ret None) ;;
      let o := if Options.Force o then setEmbed (setCrop o false) false else o in
      putOptions o ;;;
      '(i, err) <- extractOrEmbedImage o ;;
      match err with
      | Some e => ret (Some e)
      | None =>
          match i with
          | Some i =>
              if (0 <? Z.of_nat (List.length (VipsImage.Buffer i)))%Z
              then putImage (VipsImage.Image i) ;;;
                   putBuffer (VipsImage.Buffer i) ;;; ret None
              else ret None
          | None => ret None
          end
      end
  end.

(** [applyEffects] *)
Definition applyEffects : M (option error) :=
  o <- getOptions ;;
  let g := Options.GaussianBlur o in
  let s := Options.Sharpen o in
  check (if IEEE.gtb (GaussianBlur.Sigma g) F64.zero
            || IEEE.gtb (GaussianBlur.MinAmpl g) F64.zero
         then vipsGaussianBlur g else ret None) ;;
  check (if (IEEE.gtb (Sharpen.Sigma s) F64.zero && IEEE.gtb (Sharpen.Y2 s) F64.zero)
            || IEEE.gtb (Sharpen.Y3 s) F64.zero
         then vipsSharpen s else ret None) ;;
  ret None.

(** [watermarkWithText] *)
Definition watermarkWithText : M (option error) :=
  o <- getOptions ;;
  let w := Options.Watermark o in
  if String.eqb (Watermark.Text w) EmptyString then ret None
  else
    let font := if String.eqb (Watermark.Font w) EmptyString
                then WatermarkFont K else Watermark.Font w in
    width <- (if Watermark.Width w =? 0
              then (c <- deref ;;
                    ret (F64.to_int (F64.Floor (F64.of_int
                           (GoInt.wrap 32 (Z.quot (CImage.Xsize c) 6))))))
              else ret (Watermark.Width w)) ;;
    let dpi := if Watermark.DPI w =? 0 then 150 else Watermark.DPI w in
    let margin := if Watermark.Margin w =? 0 then width else Watermark.Margin w in
    check vipsWatermark (Watermark.with_defaults w font width dpi margin) ;;
    ret None.

(** [NewVipsImage] with [Load] and [vipsRead]: a fresh [*VipsImage] read
    from [buf]. *)
Definition NewVipsImage (buf : list byte) (opt : Options.t) :
  M (option VipsImage.t * option error) :=
  match buf with
  | [] => ret (None, Some "Image buffer is empty"%string)
  | _ =>
      let imageType := vipsImageType E buf in
      if ImageType_eqb imageType UNKNOWN
      then ret (None, Some "Unsupported image format"%string)
      else
        log CallInitImage ;;;
        match vips_init_image E buf imageType with
        | inr msg => ret (None, Some msg)
        | inl image => ret (Some (VipsImage.mk buf (Some image) imageType opt), None)
        end
  end.

(** [vipsDrawWatermark]; [process] is [watermark.Process()]. *)
Definition vipsDrawWatermark (process : M (option error))
  (o : WatermarkImage.t) : M (option error) :=
  img <- getSelf ;;
  match VipsImage.Image img with
  | None => ret (Some ErrVipsImageNotValidPointer)
  | Some c =>
      let srcX := F32.of_int (CImage.Xsize c) in
      let srcY := F32.of_int (CImage.Ysize c) in
      let wmWidth :=
        if WatermarkImage.Relative o
        then F32.to_int (F32.mul srcX (F32.div (WatermarkImage.Width o) F32.hundred))
        else F32.to_int (WatermarkImage.Width o) in
      let wmOptions :=
        setBackground
          (setEnlarge (setMaintainAspect
             (setForce (setWidth Options.zero wmWidth) false) true) false)
          (ColorBlack K) in
      '(watermark, e) <- NewVipsImage (WatermarkImage.Buf o) wmOptions ;;
      match watermark, e with
      | _, Some e => ret (Some e)
      | None, None => panic NilDereference
      | Some watermark, None =>
          '(e, watermark) <- on watermark process ;;
          match e with
          | Some e => ret (Some e)
          | None =>
              match VipsImage.Image watermark with
              | None => panic NilDereference
              | Some wm =>
                  let wmX := F32.of_int (CImage.Xsize wm) in
                  let wmY := F32.of_int (CImage.Ysize wm) in
                  let '(left_, top) := watermarkPlacement o srcX srcY wmX wmY in
                  log (CallWatermarkImage (F32.to_cint left_) (F32.to_cint top)) ;;;
                  match vips_watermark_image E c wm (F32.to_cint left_)
                          (F32.to_cint top) (WatermarkImage.Opacity o)
                          (GoInt.wrap 32 (WatermarkImage.BlendMode o)) with
                  | inr msg => ret (Some msg)
                  | inl image => putImage (Some image) ;;; ret None
                  end
              end
          end
      end
  end.

(** [watermarkWithImage] *)
Definition watermarkWithImage (process : M (option error)) : M (option error) :=
  o <- getOptions ;;
  let w := Options.WatermarkImage o in
  match WatermarkImage.Buf w with
  | [] => ret None
  | _ =>
      let w := if SFeqb (WatermarkImage.Opacity w) F32.zero
               then WatermarkImage.with_Opacity w (F32.of_int 1) else w in
      check vipsDrawWatermark process w ;;
      ret None
  end.

(** [Flatten] *)
Definition Flatten : M (option error) :=
  img <- getSelf ;;
  (* Only PNG images are supported for now *)
  if negb (ImageType_eqb (VipsImage.Type_ img) PNG)
     || Color.eqb (Options.Background (VipsImage.Options img)) (ColorBlack K)
  then ret None
  else vipsFlattenBackground (Options.Background (VipsImage.Options img)).

(** [applyGamma]; the source writes [o.Gamma] for [img.Options.Gamma]. *)
Definition applyGamma : M (option error) :=
  o <- getOptions ;;
  if IEEE.gtb (Options.Gamma o) F64.zero
  then (check vipsGamma (Options.Gamma o) ;; ret None)
  else ret None.

(** The transform stage of [Process]: the gate and what it guards. *)
Definition transformStage (shrink : Z) (residual : F64.t) : M (option error) :=
  c <- deref ;;
  o <- getOptions ;;
  if shouldTransformImage c o then transformImage shrink residual
  else ret None.

(** [Process], given what a nested [watermark.Process()] does. *)
Definition Process_body (nested : M (option error)) : M (option error) :=
  (* Make sure defaults are applied sensibly *)
  img <- getSelf ;;
  putOptions (applyDefaults img) ;;;
  o <- getOptions ;;
  (* Can we work with this image? *)
  if negb (IsTypeSupported (Options.Type_ o))
  then ret (Some "Unsupported image output type"%string)
  else
    (* Rotate early, so the output image is the correct size requested *)
    '(rotated, err) <- rotateAndFlipImage true ;;
    check ret err ;;
    (* If the image has been rotated retrieve the buffer *)
    check (if rotated : bool
           then ('(buf, err) <- getImageBuffer ;; putBuffer buf ;;; ret err)
           else ret None) ;;
    (* Infer the required operation based on the in/out image sizes *)
    o <- getOptions ;;
    putOptions (normalizeOperation o) ;;;
    (* Do not enlarge the output if the input width or height are already
       less than the required dimensions *)
    c <- deref ;;
    o <- getOptions ;;
    putOptions (clampToSource c o) ;;;
    factor <- planning ScaleFactor ;;
    shrink <- planning (calculateShrink E) ;;
    residual <- planning (calculateResidual E) ;;
    (* Try to use libjpeg/libwebp shrink-on-load *)
    img <- getSelf ;;
    let supportsShrinkOnLoad :=
      (ImageType_eqb (VipsImage.Type_ img) WEBP
       && (VipsMajorVersion E >=? 8) && (VipsMinorVersion E >=? 3))
      || ImageType_eqb (VipsImage.Type_ img) JPEG in
    '(shrink, residual, err) <-
      (if supportsShrinkOnLoad && (shrink >=? 2) then
         '(factor, err) <- shrinkOnLoad ;;
         match err with
         | Some e => ret (shrink, residual, Some e)
         | None =>
             let factor := IEEE.Max factor F64.one in
             let shrink := F64.to_int (F64.Floor factor) in
             let residual := F64.div (F64.of_int shrink) factor in
             ret (shrink, residual, None)
         end
       else ret (shrink, residual, None)) ;;
    check ret err ;;
    (* Zoom image, if necessary *)
    check zoomImage ;;
    (* Transform image, if necessary *)
    check transformStage shrink residual ;;
    (* Apply effects, if necessary *)
    o <- getOptions ;;
    check (if shouldApplyEffects o then applyEffects else ret None) ;;
    (* Add watermark, if necessary *)
    check watermarkWithText ;;
    check watermarkWithImage nested ;;
    (* Flatten image on a background, if necessary *)
    check Flatten ;;
    (* Apply Gamma filter, if necessary *)
    check applyGamma ;;
    ret None.

(** [Process] calls itself through [vipsDrawWatermark], on the watermark:
    [depth] bounds the nesting.  The options of a watermark carry no
    watermark of their own, so the nesting never exceeds one level. *)
Fixpoint Process_depth (depth : nat) : M (option error) :=
  match depth with
  | O => panic NestingExhausted
  | S d => Process_body (Process_depth d)
  end.

Definition Process : M (option error) := Process_depth 2.

End Pipeline.

(* ================================================================== *)
(** ** Metadata and the method DSL *)

Module ImageSize.
Record t : Type := mk { Width : Z; Height : Z }.
End ImageSize.

Module ImageMetadata.
Record t : Type := mk
  { Orientation : Z; Channels : Z; Alpha : bool; Profile : bool;
    Type_ : string; Space : string; Colourspace : string;
    Size : ImageSize.t }.
(** [ImageMetadata{}] *)
Definition zero : t :=
  mk 0 0 false false EmptyString EmptyString EmptyString (ImageSize.mk 0 0).
End ImageMetadata.

(** [ImageTypeName], with the table [ImageTypes]. *)
Definition ImageTypeName (t : ImageType) : string :=
  match t with
  | JPEG => "jpeg" | PNG => "png" | WEBP => "webp" | TIFF => "tiff"
  | GIF => "gif" | PDF => "pdf" | SVG => "svg" | MAGICK => "magick"
  | UNKNOWN => "unknown"
  end%string.

(** [VipsImage.Metadata] *)
Definition VipsImage_Metadata (E : Engine) : M (ImageMetadata.t * option error) :=
  c <- deref ;;
  img <- getSelf ;;
  let size := ImageSize.mk (CImage.Xsize c) (CImage.Ysize c) in
  match vipsExifOrientation E img with
  | (_, Some err) => ret (ImageMetadata.zero, Some err)
  | (o, None) =>
      match vipsHasAlpha E img with
      | (_, Some err) => ret (ImageMetadata.zero, Some err)
      | (a, None) =>
          let p := has_profile_embed E c >? 0 in
          let s := vips_enum_nick_bridge E c in
          let b := VipsImage.Buffer img in
          ret (ImageMetadata.mk o (CImage.Bands c) a p
                 (ImageTypeName (vipsImageType E b)) s EmptyString size,
               None)
      end
  end.

(** [Image]: the wrapper around a [*VipsImage]. *)
Module Image.
Record t : Type := mk { VipsImage : option VipsImage.t }.
End Image.

(** [Image.Metadata]: its body is the call [i.Metadata()], on the same
    receiver [i].  [fuel] bounds the number of nested calls; [None] means
    that no result was produced within that bound. *)
Fixpoint Image_Metadata (fuel : nat) (i : Image.t) :
  option (ImageMetadata.t * option error) :=
  match fuel with
  | O => None
  | S fuel' => Image_Metadata fuel' i
  end.

(** [Image.Size] *)
Definition Image_Size (fuel : nat) (i : Image.t) :
  option (ImageSize.t * option error) :=
  match Image_Metadata fuel i with
  | Some (m, err) => Some (ImageMetadata.Size m, err)
  | None => None
  end.


(* ================================================================== *)
(** ** Image types: names, tables and detection (type.go, vips.go) *)

From Stdlib Require Import Ascii.

(** A Go map with string keys, as the entries of its literal; reading a
    missing key gives the zero value of the element type. *)
Definition lookupName {A : Type} (table : list (string * A)) (zero : A)
  (key : string) : A :=
  match find (fun kv => String.eqb (fst kv) key) table with
  | Some kv => snd kv
  | None => zero
  end.

(** [ImageTypes]: the image types supported and their alias names. *)
Definition ImageTypes : list (ImageType * string) :=
  [ (JPEG, "jpeg"); (PNG, "png"); (WEBP, "webp"); (TIFF, "tiff");
    (GIF, "gif"); (PDF, "pdf"); (SVG, "svg"); (MAGICK, "magick") ]%string.

(** [_, ok := ImageTypes[t]] *)
Definition inImageTypes (t : ImageType) : bool :=
  existsb (fun kv => ImageType_eqb (fst kv) t) ImageTypes.

(** [ImageTypes[t]] *)
Definition nameInImageTypes (t : ImageType) : string :=
  match find (fun kv => ImageType_eqb (fst kv) t) ImageTypes with
  | Some kv => snd kv
  | None => EmptyString
  end.

(** [imageTypeToID] *)
Definition imageTypeToID : list (string * ImageType) :=
  [ ("webp", WEBP); ("jpeg", JPEG); ("gif", GIF); ("tiff", TIFF);
    ("pdf", PDF); ("png", PNG); ("svg", SVG); ("magick", MAGICK) ]%string.

(** [BlendMode], in the order of its [iota] block. *)
Definition BlendMode : Type := Z.
Definition BlendClear : BlendMode := 0.
Definition BlendSource : BlendMode := 1.
Definition BlendOver : BlendMode := 2.
Definition BlendIn : BlendMode := 3.
Definition BlendOut : BlendMode := 4.
Definition BlendAtop : BlendMode := 5.
Definition BlendDest : BlendMode := 6.
Definition BlendDestOver : BlendMode := 7.
Definition BlendDestIn : BlendMode := 8.
Definition BlendDestOut : BlendMode := 9.
Definition BlendDestAtop : BlendMode := 10.
Definition BlendXor : BlendMode := 11.
Definition BlendAdd : BlendMode := 12.
Definition BlendSaturate : BlendMode := 13.
Definition BlendMultiply : BlendMode := 14.
Definition BlendScreen : BlendMode := 15.
Definition BlendOverlay : BlendMode := 16.
Definition BlendDarken : BlendMode := 17.
Definition BlendLighten : BlendMode := 18.
Definition BlendDodge : BlendMode := 19.
Definition BlendBurn : BlendMode := 20.
Definition BlendHard : BlendMode := 21.
Definition BlendSoft : BlendMode := 22.
Definition BlendDifference : BlendMode := 23.
Definition BlendExclusion : BlendMode := 24.
Definition BlendLast : BlendMode := 25.

(** [blendModeToID] *)
Definition blendModeToID : list (string * BlendMode) :=
  [ ("clear", BlendClear); ("source", BlendSource); ("over", BlendOver);
    ("in", BlendIn); ("out", BlendOut); ("atop", BlendAtop);
    ("dest", BlendDest); ("dest_over", BlendDestOver);
    ("dest_in", BlendDestIn); ("dest_out", BlendDestOut);
    ("dest_atop", BlendDestAtop); ("xor", BlendXor); ("add", BlendAdd);
    ("saturate", BlendSaturate); ("multiply", BlendMultiply);
    ("screen", BlendScreen); ("overlay", BlendOverlay);
    ("darken", BlendDarken); ("lighten", BlendLighten); ("dodge", BlendDodge);
    ("burn", BlendBurn); ("soft", BlendSoft); ("hard", BlendHard);
    ("difference", BlendDifference); ("exclusion", BlendExclusion);
    ("last", BlendLast) ]%string.

Section Json.

(** [json.Unmarshal(data, &s)] for a string [s]: the decoded string, or the
    decoder's error. *)
Variable json_Unmarshal : list byte -> string + error.

(** [UnmarshalJSON] of [ImageType]: the value of the receiver afterwards
    and the error returned. *)
Definition ImageType_UnmarshalJSON (data : list byte) (t : ImageType) :
  ImageType * option error :=
  match json_Unmarshal data with
  | inr err => (t, Some err)
  | inl s => (lookupName imageTypeToID UNKNOWN s, None)
  end.

(** [UnmarshalJSON] of [BlendMode] *)
Definition BlendMode_UnmarshalJSON (data : list byte) (b : BlendMode) :
  BlendMode * option error :=
  match json_Unmarshal data with
  | inr err => (b, Some err)
  | inl s => (lookupName blendModeToID 0 s, None)
  end.

End Json.

(** The value of a byte. *)
Definition byteZ (b : byte) : Z := Z.of_N (Byte.to_N b).

(** Go's conversion [string(b)] of a byte [b]: an integer converts to the
    UTF-8 encoding of the code point of that value, here one byte under
    [0x80] and two bytes from there to [0xFF]. *)
Definition stringOfByte (b : Z) : list Z :=
  if b <? 128 then [b]
  else [Z.lor 192 (Z.shiftr b 6); Z.lor 128 (Z.land b 63)].

(** [utf8.RuneError] *)
Definition RuneError : Z := 65533.

(** A UTF-8 continuation byte, [0x80] to [0xBF]. *)
Definition continuation (b : Z) : bool := (128 <=? b) && (b <=? 191).

(** [utf8.DecodeRuneInString]: the first rune of [s] and its width in
    bytes; [(RuneError, 0)] for the empty string and [(RuneError, 1)] for an
    encoding that is invalid, too short, over-long or out of range. *)
Definition DecodeRuneInString (s : list Z) : Z * Z :=
  match s with
  | [] => (RuneError, 0)
  | s0 :: rest =>
      if s0 <? 128 then (s0, 1)
      else if (s0 <? 194) || (244 <? s0) then (RuneError, 1)
      else if s0 <? 224 then
        match rest with
        | s1 :: _ =>
            if continuation s1
            then (Z.lor (Z.shiftl (Z.land s0 31) 6) (Z.land s1 63), 2)
            else (RuneError, 1)
        | _ => (RuneError, 1)
        end
      else if s0 <? 240 then
        let lo := if s0 =? 224 then 160 else 128 in
        let hi := if s0 =? 237 then 159 else 191 in
        match rest with
        | s1 :: s2 :: _ =>
            if (lo <=? s1) && (s1 <=? hi) && continuation s2
            then (Z.lor (Z.shiftl (Z.land s0 15) 12)
                    (Z.lor (Z.shiftl (Z.land s1 63) 6) (Z.land s2 63)), 3)
            else (RuneError, 1)
        | _ => (RuneError, 1)
        end
      else
        let lo := if s0 =? 240 then 144 else 128 in
        let hi := if s0 =? 244 then 143 else 191 in
        match rest with
        | s1 :: s2 :: s3 :: _ =>
            if (lo <=? s1) && (s1 <=? hi) && continuation s2 && continuation s3
            then (Z.lor (Z.shiftl (Z.land s0 7) 18)
                    (Z.lor (Z.shiftl (Z.land s1 63) 12)
                       (Z.lor (Z.shiftl (Z.land s2 63) 6) (Z.land s3 63))), 4)
            else (RuneError, 1)
        | _ => (RuneError, 1)
        end
  end.

(** The loop of [isBinary], [n] iterations from index [i] on; [None] is an
    index out of range. *)
Fixpoint isBinary_loop (buf : list byte) (i n : nat) : option bool :=
  match n with
  | O => Some false
  | S n' =>
      match nth_error buf i with
      | None => None
      | Some b =>
          let '(charCode, _) := DecodeRuneInString (stringOfByte (byteZ b)) in
          if (charCode =? 65533) || (charCode <=? 8) then Some true
          else isBinary_loop buf (S i) n'
      end
  end.

(** [isBinary] *)
Definition isBinary (buf : list byte) : option bool :=
  if (List.length buf <? 24)%nat then Some false else isBinary_loop buf 0 24.

(** [strings.HasSuffix] *)
Definition HasSuffix (s suffix : string) : bool :=
  (String.length suffix <=? String.length s)%nat
  && String.eqb
       (substring (String.length s - String.length suffix)
          (String.length suffix) s)
       suffix.

(** Conditions of Go's [if]: [&&] and [||] evaluate their right operand
    only when the left one does not decide, so an index out of range on the
    right ([None]) is only met then. *)
Definition andThen (a b : option bool) : option bool :=
  match a with
  | Some true => b
  | _ => a
  end.

Definition orElse (a b : option bool) : option bool :=
  match a with
  | Some false => b
  | _ => a
  end.

(** [buf[i] == v] *)
Definition byteIs (buf : list byte) (i : nat) (v : byte) : option bool :=
  option_map (Byte.eqb v) (nth_error buf i).

(** A chain of [if c { return t }] statements, ending in [return UNKNOWN]. *)
Fixpoint firstOf (cases : list (option bool * ImageType)) : option ImageType :=
  match cases with
  | [] => Some UNKNOWN
  | (c, t) :: rest =>
      match c with
      | None => None
      | Some true => Some t
      | Some false => firstOf rest
      end
  end.

Module Detect.
Section Detect.

Variable E : Engine.

(** [svgRegex.Match(htmlCommentRegex.ReplaceAll(buf, []byte{}))]: the two
    regular expressions of the package, through Go's [regexp]. *)
Variable svgRegexMatch : list byte -> bool.

(** [C.vips_foreign_find_load_buffer], as a Go string. *)
Variable vips_foreign_find_load_buffer : list byte -> string.

(** [IsSVGImage] *)
Definition IsSVGImage (buf : list byte) : option bool :=
  andThen (option_map negb (isBinary buf)) (Some (svgRegexMatch buf)).

(** [readImageType]; [&buf[0]] needs a first byte. *)
Definition readImageType (buf : list byte) : option string :=
  match buf with
  | [] => None
  | _ => Some (vips_foreign_find_load_buffer buf)
  end.

(** [vipsImageType] *)
Definition vipsImageType (buf : list byte) : option ImageType :=
  if (List.length buf <? 12)%nat then Some UNKNOWN
  else
    let supported t := Some (IsTypeSupported E t) in
    firstOf
      [ (andThen (byteIs buf 0 xff) (andThen (byteIs buf 1 xd8) (byteIs buf 2 xff)), JPEG);
        (andThen (supported GIF)
           (andThen (byteIs buf 0 x47) (andThen (byteIs buf 1 x49) (byteIs buf 2 x46))), GIF);
        (andThen (byteIs buf 0 x89)
           (andThen (byteIs buf 1 x50) (andThen (byteIs buf 2 x4e) (byteIs buf 3 x47))), PNG);
        (andThen (supported TIFF)
           (orElse
              (andThen (byteIs buf 0 x49)
                 (andThen (byteIs buf 1 x49) (andThen (byteIs buf 2 x2a) (byteIs buf 3 x00))))
              (andThen (byteIs buf 0 x4d)
                 (andThen (byteIs buf 1 x4d) (andThen (byteIs buf 2 x00) (byteIs buf 3 x2a))))),
         TIFF);
        (andThen (supported PDF)
           (andThen (byteIs buf 0 x25)
              (andThen (byteIs buf 1 x50) (andThen (byteIs buf 2 x44) (byteIs buf 3 x46)))), PDF);
        (andThen (supported WEBP)
           (andThen (byteIs buf 8 x57)
              (andThen (byteIs buf 9 x45) (andThen (byteIs buf 10 x42) (byteIs buf 11 x50)))), WEBP);
        (andThen (supported SVG) (IsSVGImage buf), SVG);
        (andThen (supported MAGICK)
           (option_map (fun s => HasSuffix s "MagickBuffer")
              (readImageType buf)), MAGICK) ].

(** [DetermineImageType] and [DetermineImageTypeName] *)
Definition DetermineImageType (buf : list byte) : option ImageType :=
  vipsImageType buf.

Definition DetermineImageTypeName (buf : list byte) : option string :=
  option_map ImageTypeName (vipsImageType buf).

End Detect.
End Detect.
(* ================================================================== *)
(** ** A test double for the engine *)

(** The operations the fake can be told to fail. *)
Inductive Op : Type :=
| OpRotate | OpFlip | OpZoom | OpShrink | OpResize | OpFindTrim | OpExtract
| OpGamma | OpSave.

Definition Op_eqb (a b : Op) : bool :=
  match a, b with
  | OpRotate, OpRotate | OpFlip, OpFlip | OpZoom, OpZoom | OpShrink, OpShrink
  | OpResize, OpResize | OpFindTrim, OpFindTrim | OpExtract, OpExtract
  | OpGamma, OpGamma | OpSave, OpSave => true
  | _, _ => false
  end.

Definition fails (failing : list Op) (op : Op) : bool :=
  existsb (Op_eqb op) failing.

Definition answer {A : Type} (failing : list Op) (op : Op) (msg : string)
  (a : A) : cresult A :=
  if fails failing op then inr msg else inl a.

Definition resized (c : CImage.t) (w h : Z) : CImage.t :=
  CImage.mk w h (CImage.Bands c) (CImage.handle c + 1).

(** An engine in the manner of the instrumented fake the spec asks for:
    every operation succeeds and hands back an image of the expected size,
    except those named by [failing], which report an error; [detect] is
    the format detection. *)
Definition fakeEngineWith (detect : list byte -> ImageType) (orientation : Z)
  (failing : list Op) : Engine :=
  {| vips_exif_orientation := fun _ => orientation;
     has_alpha_channel := fun _ => 0;
     has_profile_embed := fun _ => 0;
     vips_enum_nick_bridge := fun _ => "srgb"%string;
     interpolator_window_size :=
       fun i => match i with
                | Bicubic => 4 | Nohalo => 5 | Bilinear => 2 | Nearest => 1
                end;
     vips_type_find_bridge := fun _ => 1;
     vipsImageType := detect;
     vips_init_image := fun _ _ => inl (CImage.mk 100 50 3 100);
     vips_save_bridge :=
       fun _ _ => answer failing OpSave "save failed" [x01];
     vips_rotate_fill :=
       fun c _ _ => answer failing OpRotate "rotate failed" (resized c (CImage.Ysize c) (CImage.Xsize c));
     vips_flip_bridge :=
       fun c _ => answer failing OpFlip "flip failed" (resized c (CImage.Xsize c) (CImage.Ysize c));
     vips_zoom_bridge :=
       fun c x y => answer failing OpZoom "zoom failed" (resized c (CImage.Xsize c * x) (CImage.Ysize c * y));
     vips_jpegload_buffer_shrink := fun _ _ => inr "not used"%string;
     vips_webpload_buffer_shrink := fun _ _ => inr "not used"%string;
     vips_shrink_bridge :=
       fun c x _ => answer failing OpShrink "shrink failed"
                      (resized c (CImage.Xsize c / F64.to_int x) (CImage.Ysize c / F64.to_int x));
     vips_resize_bridge :=
       fun c s _ => answer failing OpResize "resize failed"
                      (resized c (F64.to_int (F64.mul (F64.of_int (CImage.Xsize c)) s))
                                 (F64.to_int (F64.mul (F64.of_int (CImage.Ysize c)) s)));
     vips_smartcrop_bridge := fun c w h => inl (resized c w h);
     vips_extract_area_bridge :=
       fun c _ _ w h => answer failing OpExtract "extract failed" (resized c w h);
     vips_embed_bridge := fun c _ _ w h _ _ => inl (resized c w h);
     vips_find_trim_bridge :=
       fun c _ _ => answer failing OpFindTrim "trim failed"
                      (0, 0, CImage.Xsize c, CImage.Ysize c);
     vips_gaussblur_bridge := fun c _ _ => inl c;
     vips_sharpen_bridge := fun c _ => inl c;
     vips_watermark := fun c _ _ => inl c;
     vips_watermark_image := fun c _ _ _ _ _ => inl c;
     vips_flatten_background_brigde := fun c _ => inl c;
     vips_gamma_bridge :=
       fun c _ => answer failing OpGamma "gamma failed" c;
     VipsMajorVersion := 8;
     VipsMinorVersion := 6 |}.

(** The fake tells the format of a buffer as [vipsImageType] of the source
    does, with a regular expression that matches no buffer and a loader
    lookup that finds none. *)
Definition fakeEngine (orientation : Z) (failing : list Op) : Engine :=
  fakeEngineWith
    (fun buf =>
       match Detect.vipsImageType
               (fakeEngineWith (fun _ => UNKNOWN) orientation failing)
               (fun _ => false) (fun _ => EmptyString) buf with
       | Some t => t
       | None => UNKNOWN
       end)
    orientation failing.

(** The first bytes of a JPEG file (JFIF). *)
Definition jpegHeader : list byte :=
  [xff; xd8; xff; xe0; x00; x10; x4a; x46; x49; x46; x00; x01].

Definition fakeConstants : Constants :=
  {| Quality := 80; MaxSize := 16383; WatermarkFont := "sans 10"%string;
     ColorBlack := Color.mk 0 0 0 0; InterpretationSRGB := 22;
     ExtendBackground := 5 |}.

(** A loaded PNG of the given size. *)
Definition loaded (w h : Z) (o : Options.t) : World :=
  mkWorld (VipsImage.mk [x89] (Some (CImage.mk w h 3 0)) PNG o) [].

(** What [Process] returned and which engine calls it made. *)
Definition observed {A : Type} (r : Outcome A) : option A * list Call :=
  match r with
  | Returns a w => (Some a, calls w)
  | Crash _ w => (None, calls w)
  end.

Definition setGamma (o : Options.t) (v : F64.t) : Options.t :=
  let '(Options.mk w h cr em fo en ma sc tr gr ex ro fl fp na zo wm wi bg th gb sh ga ty qu co ip il xt) := o in
  Options.mk w h cr em fo en ma sc tr gr ex ro fl fp na zo wm wi bg th gb sh v ty qu co ip il xt.

Definition setWatermarkImage (o : Options.t) (v : WatermarkImage.t) : Options.t :=
  let '(Options.mk w h cr em fo en ma sc tr gr ex ro fl fp na zo wm wi bg th gb sh ga ty qu co ip il xt) := o in
  Options.mk w h cr em fo en ma sc tr gr ex ro fl fp na zo wm v bg th gb sh ga ty qu co ip il xt.

Definition setInterpolator (o : Options.t) (v : Interpolator) : Options.t :=
  let '(Options.mk w h cr em fo en ma sc tr gr ex ro fl fp na zo wm wi bg th gb sh ga ty qu co ip il xt) := o in
  Options.mk w h cr em fo en ma sc tr gr ex ro fl fp na zo wm wi bg th gb sh ga ty qu co ip v xt.

(* ================================================================== *)
(** ** The statements of the specification, in its own words *)

(** The orientation table of the spec: EXIF code to (rotation, flip). *)
Definition exifTable (code : Z) : Angle * bool :=
  match code with
  | 1 => (0, false)
  | 2 => (0, true)
  | 3 => (180, false)
  | 4 => (180, true)
  | 5 => (90, true)
  | 6 => (90, false)
  | 7 => (270, true)
  | 8 => (270, false)
  | _ => (0, false)
  end.

(** The watermark placement rules of the spec along one axis.  [Near] is
    Left or Top, [Far] is Right or Bottom. *)
Inductive Anchor : Type := Near | Middle | Far.

Definition horizontal (a : Anchor) : Position :=
  match a with Near => PositionLeft | Middle => PositionCentre | Far => PositionRight end.

Definition vertical (a : Anchor) : Position :=
  match a with Near => PositionTop | Middle => PositionCentre | Far => PositionBottom end.

Definition specOffset (relative : bool) (a : Anchor) (offset src wm : F32.t) :
  F32.t :=
  let scaled :=
    if relative then F32.mul (F32.div offset F32.hundred) src else offset in
  match a with
  | Near => scaled
  | Far => F32.sub (F32.sub src scaled) wm
  | Middle => F32.div (F32.sub src wm) F32.two
  end.

(** The sizes for which [inW - outW + 1] cannot overflow a Go [int]. *)
Definition fits62 (z : Z) : Prop := - 2 ^ 62 < z < 2 ^ 62.

(** [below k x]: [x] is a zero or a finite number whose magnitude is under
    [2 ^ k] (its mantissa has [d] digits and its exponent is at most
    [k - d]). *)
Definition below (k : Z) (x : spec_float) : Prop :=
  match x with
  | S754_zero _ => True
  | S754_finite _ m e => Zpos (digits2_pos m) + e <= k
  | S754_infinity _ | S754_nan => False
  end.

(** [above k x]: [x] is finite, not zero, of magnitude at least [2 ^ (k - 1)]. *)
Definition above (k : Z) (x : spec_float) : Prop :=
  match x with
  | S754_finite _ m e => k <= Zpos (digits2_pos m) + e
  | _ => False
  end.

(** Agreement of two binary64 numbers within a relative tolerance of
    [2 ^ -20], far looser than any floating-point tolerance. *)
Definition tolerance : F64.t := S754_finite false 4503599627370496 (-72).

Definition approximately (x y : F64.t) : bool :=
  SFleb (SFabs (F64.sub x y))
        (F64.mul tolerance (IEEE.Max (SFabs x) (SFabs y))).

(** The value that [calculateShrink] floors: [factor * 3 / windowSize] for
    a factor of at least 2 and a window wider than 3, else the factor. *)
Definition shrinkOperand (factor windowSize : F64.t) : F64.t :=
  if IEEE.geb factor F64.two && IEEE.gtb windowSize F64.three
  then F64.div (F64.mul factor F64.three) windowSize
  else factor.

(** The image watermark the receiver's options ask for. *)
Definition requestedWatermark (w : World) : WatermarkImage.t :=
  Options.WatermarkImage (VipsImage.Options (self w)).

(** [keeps x m]: started with the image watermark [x] in the receiver's
    options, [m] ends, or crashes, with [x] still there. *)
Definition keeps {A : Type} (x : WatermarkImage.t) (m : M A) : Prop :=
  forall w, requestedWatermark w = x ->
    match m w with
    | Returns _ w' | Crash _ w' => requestedWatermark w' = x
    end.

(** An engine that differs from [E] in the formats it can load. *)
Definition withTypeFind (E : Engine) (find : ImageType -> Z) : Engine :=
  let '(mkEngine a b c d e _ g h i j k l m n o p q r s t u v w x y z a' b') := E in
  mkEngine a b c d e find g h i j k l m n o p q r s t u v w x y z a' b'.

(* ================================================================== *)
(** ** Loading an image (vipsimage.go, vips.go) *)

Definition putType (ty : ImageType) : M unit :=
  fun w => Returns tt (mkWorld (VipsImage.with_Type (self w) ty) (calls w)).

Module Loader.
Section Loader.

Variable E : Engine.
Variable svgRegexMatch : list byte -> bool.
Variable vips_foreign_find_load_buffer : list byte -> string.

(** [Reset] *)
Definition Reset : M unit :=
  putBuffer [] ;;;
  putType UNKNOWN ;;;
  putOptions Options.zero ;;;
  putImage None.

(** A [*bytes.Buffer] is a pointer: [None] is nil, [Some bytes] a buffer
    holding [bytes]. *)
Definition Buffer : Type := option (list byte).

(** [vipsRead]: [buf.Bytes()] needs a buffer; [img.Buffer] is assigned
    before the format is looked at; [&img.Buffer[0]] needs a first byte. *)
Definition vipsRead (buf : Buffer) : M (option error) :=
  match buf with
  | None => panic NilDereference
  | Some bytes =>
      putBuffer bytes ;;;
      match Detect.vipsImageType E svgRegexMatch vips_foreign_find_load_buffer
              bytes with
      | None => panic IndexOutOfRange
      | Some imageType =>
          if ImageType_eqb imageType UNKNOWN
          then ret (Some "Unsupported image format"%string)
          else
            match bytes with
            | [] => panic IndexOutOfRange
            | _ =>
                log CallInitImage ;;;
                match vips_init_image E bytes imageType with
                | inr msg => putBuffer [] ;;; ret (Some msg)
                | inl image =>
                    putImage (Some image) ;;;
                    putType imageType ;;;
                    ret None
                end
            end
      end
  end.

(** [Load]: [buf.Len()] needs a buffer. *)
Definition Load (buf : Buffer) : M (option error) :=
  match buf with
  | None => panic NilDereference
  | Some bytes =>
      if (List.length bytes =? 0)%nat
      then ret (Some "Image buffer is empty"%string)
      else (check vipsRead buf ;; ret None)
  end.

(** [NewVipsImage]; [pooled] is what [AquireVipsImage] hands out. *)
Definition NewVipsImage (pooled : VipsImage.t) (buf : Buffer)
  (opt : Options.t) : M (option VipsImage.t * option error) :=
  '(err, i) <- on pooled (Load buf) ;;
  match err with
  | Some e => ret (None, Some e)
  | None => ret (Some (VipsImage.with_Options i opt), None)
  end.

End Loader.
End Loader.

(* ================================================================== *)
(** ** Observations on the call log *)

(** The engine calls that only change the scale of the image. *)
Definition resizing (c : Call) : bool :=
  match c with
  | CallShrink _ | CallResize _ => true
  | _ => false
  end.

(** [extends P w r]: [r] ends in a state whose log is the log of [w]
    followed by calls that all satisfy [P]. *)
Definition extends {A : Type} (P : Call -> bool) (w : World) (r : Outcome A) :
  Prop :=
  match r with
  | Returns _ w' | Crash _ w' =>
      exists l, calls w' = calls w ++ l /\ forallb P l = true
  end.

(* ================================================================== *)
(** ** Small helpers of the bindings (vips.go) *)

Module Helpers.

(** [max]: the larger of [x] and 0, computed in [float64]. *)
Definition max (x : Z) : Z :=
  F64.to_int (IEEE.Max (F64.of_int x) F64.zero).

(** [boolToInt] *)
Definition boolToInt (b : bool) : Z := if b then 1 else 0.

(** [strings.Index]: the index of the first instance of [substr] in [s],
    or -1. *)
Definition Index (s substr : string) : Z :=
  match index 0 substr s with
  | Some n => Z.of_nat n
  | None => -1
  end.

(** [strings.Contains] *)
Definition Contains (s substr : string) : bool := 0 <=? Index s substr.

(** [vipsExifShort]; [None] is the panic of the slice expression
    [s[:i-1]] when [i - 1] is negative. *)
Definition vipsExifShort (s : string) : option string :=
  if Contains s " (" then
    let hi := Index s "(" - 1 in
    if hi <? 0 then None else Some (substring 0 (Z.to_nat hi) s)
  else Some s.

(** [s] holds no opening parenthesis. *)
Fixpoint unbracketed (s : string) : bool :=
  match s with
  | EmptyString => true
  | String a s' => negb (Ascii.eqb a "("%char) && unbracketed s'
  end.

End Helpers.

(* ================================================================== *)
(** ** Saving (vipsimage.go, vips.go) *)

(** [vipsSaveOptions] *)
Module vipsSaveOptions.
Record t : Type := mk
  { Quality : Z; Compression : Z; Type_ : ImageType; Interlace : bool;
    NoProfile : bool; StripMetadata : bool; Lossless : bool;
    OutputICC : string; Interpretation : Z; Progressive : bool }.
Definition with_Interpretation (o : t) (v : Z) : t :=
  mk (Quality o) (Compression o) (Type_ o) (Interlace o) (NoProfile o)
     (StripMetadata o) (Lossless o) (OutputICC o) v (Progressive o).
End vipsSaveOptions.

(** The fields of [Options] that only [Save] reads. *)
Module SaveFields.
Record t : Type := mk
  { Interlace : bool; NoProfile : bool; OutputICC : string;
    StripMetadata : bool; Lossless : bool }.
End SaveFields.

(** [Blob], in the order of its [iota] block, and the table [blobs]. *)
Definition Blob : Type := Z.
Definition VIPS_META_EXIF_NAME : Blob := 0.
Definition VIPS_META_XMP_NAME : Blob := 1.
Definition VIPS_META_IPTC_NAME : Blob := 2.
Definition VIPS_META_PHOTOSHOP_NAME : Blob := 3.
Definition VIPS_META_ICC_NAME : Blob := 4.
Definition VIPS_META_IMAGEDESCRIPTION : Blob := 5.
Definition VIPS_META_RESOLUTION_UNIT : Blob := 6.
Definition VIPS_META_ORIENTATION : Blob := 7.
Definition VIPS_META_PAGE_HEIGHT : Blob := 8.
Definition VIPS_META_N_PAGES : Blob := 9.

Definition blobs : list (Blob * string) :=
  [ (VIPS_META_EXIF_NAME, "exif-data"); (VIPS_META_XMP_NAME, "xmp-data");
    (VIPS_META_IPTC_NAME, "iptc-data");
    (VIPS_META_PHOTOSHOP_NAME, "photoshop-data");
    (VIPS_META_ICC_NAME, "icc-profile-data");
    (VIPS_META_IMAGEDESCRIPTION, "image-description");
    (VIPS_META_RESOLUTION_UNIT, "resolution-unit");
    (VIPS_META_ORIENTATION, "orientation");
    (VIPS_META_PAGE_HEIGHT, "page-height"); (VIPS_META_N_PAGES, "n-pages")
  ]%string.

(** [Blob.String]; [Blob.CString] reads [blobToCString], which holds the
    same names as C strings. *)
Definition Blob_String (b : Blob) : string :=
  match find (fun kv => fst kv =? b) blobs with
  | Some kv => snd kv
  | None => EmptyString
  end.

(** The C entry points of the save path, under their names.
    [remove_profile] changes the image it is given in place: it is a
    function to the image afterwards. *)
Record SaveEngine : Type := mkSaveEngine
  { vips_type_find_save_bridge : ImageType -> Z;
    remove_profile : CImage.t -> CImage.t;
    vips_colourspace_issupported_bridge : CImage.t -> Z;
    vips_colourspace_bridge : CImage.t -> Z -> cresult CImage.t;
    vips_icc_transform_bridge : CImage.t -> string -> cresult CImage.t;
    vips_webpsave_bridge : CImage.t -> Z -> Z -> Z -> cresult (list byte);
    vips_pngsave_bridge :
      CImage.t -> Z -> Z -> Z -> Z -> cresult (list byte);
    vips_tiffsave_bridge : CImage.t -> cresult (list byte);
    vips_jpegsave_bridge : CImage.t -> Z -> Z -> Z -> cresult (list byte);
    vips_image_get_blob_bridge : CImage.t -> string -> cresult (list byte) }.

(** [fmt.Errorf("VIPS cannot save to %#v", name)]: [%#v] prints a string
    in Go syntax, between double quotes; the names of [ImageTypes] need no
    escaping. *)
Definition cannotSave (name : string) : error :=
  ("VIPS cannot save to " ++ String "034" (name ++ String "034" EmptyString))%string.

Section Saving.

Variable E : Engine.
Variable V : SaveEngine.
Variable K : Constants.

(** [VipsIsTypeSupportedSave] *)
Definition VipsIsTypeSupportedSave (t : ImageType) : bool :=
  match t with
  | JPEG | WEBP | PNG | TIFF => negb (vips_type_find_save_bridge V t =? 0)
  | _ => false
  end.

(** [IsTypeSupportedSave]; the cache of [IsImageTypeSupportedByVips] holds
    [VipsIsTypeSupportedSave] (see [Cache] below). *)
Definition IsTypeSupportedSave (t : ImageType) : bool :=
  inImageTypes t && VipsIsTypeSupportedSave t.

(** [hasProfile] *)
Definition hasProfile (img : VipsImage.t) : bool * option error :=
  match VipsImage.Image img with
  | None => (false, Some ErrVipsImageNotValidPointer)
  | Some c => (has_profile_embed E c >? 0, None)
  end.

(** [vipsColourspaceIsSupported] *)
Definition vipsColourspaceIsSupported (img : VipsImage.t) :
  bool * option error :=
  match VipsImage.Image img with
  | None => (false, Some ErrVipsImageNotValidPointer)
  | Some c => (vips_colourspace_issupported_bridge V c =? 1, None)
  end.

(** [vipsBlob] *)
Definition vipsBlob (name : Blob) : M (list byte * option error) :=
  img <- getSelf ;;
  match VipsImage.Image img with
  | None => ret ([], Some ErrVipsImageNotValidPointer)
  | Some c =>
      match vips_image_get_blob_bridge V c (Blob_String name) with
      | inr msg => ret ([], Some msg)
      | inl buf => ret (buf, None)
      end
  end.

(** [GetICCProfile] *)
Definition GetICCProfile : M (list byte * option error) :=
  img <- getSelf ;;
  let '(has, err) := hasProfile img in
  match err with
  | Some e => ret ([], Some e)
  | None =>
      if negb has then ret ([], Some "No Profile"%string)
      else
        '(blob, err) <- vipsBlob VIPS_META_ICC_NAME ;;
        match err with
        | Some e => ret ([], Some e)
        | None => ret (blob, None)
        end
  end.

(** [vipsPreSave]; [o] is a pointer, so the options come back with the
    default interpretation filled in. *)
Definition vipsPreSave (o : vipsSaveOptions.t) :
  M (vipsSaveOptions.t * option error) :=
  img <- getSelf ;;
  match VipsImage.Image img with
  | None => ret (o, Some ErrVipsImageNotValidPointer)
  | Some c =>
      (* Remove ICC profile metadata *)
      (if vipsSaveOptions.NoProfile o
       then putImage (Some (remove_profile V c)) else ret tt) ;;;
      (* Use a default interpretation and cast it to C type *)
      let o := if vipsSaveOptions.Interpretation o =? 0
               then vipsSaveOptions.with_Interpretation o (InterpretationSRGB K)
               else o in
      let interpretation := vipsSaveOptions.Interpretation o in
      (* Apply the proper colour space *)
      img <- getSelf ;;
      let '(space, err) := vipsColourspaceIsSupported img in
      match err with
      | Some e => ret (o, Some e)
      | None =>
          err <- (if space : bool then
                    c <- deref ;;
                    match vips_colourspace_bridge V c interpretation with
                    | inr msg => ret (Some msg)
                    | inl image => putImage (Some image) ;;; ret None
                    end
                  else ret None) ;;
          match err with
          | Some e => ret (o, Some e)
          | None =>
              img <- getSelf ;;
              let '(hasProfile, err) := hasProfile img in
              match err with
              | Some e => ret (o, Some e)
              | None =>
                  if negb (String.eqb (vipsSaveOptions.OutputICC o) EmptyString)
                     && hasProfile
                  then
                    c <- deref ;;
                    match vips_icc_transform_bridge V c
                            (vipsSaveOptions.OutputICC o) with
                    | inr msg => ret (o, Some msg)
                    | inl image => putImage (Some image) ;;; ret (o, None)
                    end
                  else ret (o, None)
              end
          end
      end
  end.

(** [vipsSave]: the encoder is chosen by [o.Type], JPEG being the default;
    the encoded bytes become [img.Buffer]. *)
Definition vipsSave (o : vipsSaveOptions.t) : M (option error) :=
  img <- getSelf ;;
  match VipsImage.Image img with
  | None => ret (Some ErrVipsImageNotValidPointer)
  | Some _ =>
      '(o, err) <- vipsPreSave o ;;
      match err with
      | Some e => ret (Some e)
      | None =>
          let interlace :=
            GoInt.wrap 32 (Helpers.boolToInt (vipsSaveOptions.Interlace o)) in
          let quality := GoInt.wrap 32 (vipsSaveOptions.Quality o) in
          let strip :=
            GoInt.wrap 32 (Helpers.boolToInt (vipsSaveOptions.StripMetadata o)) in
          let lossless :=
            GoInt.wrap 32 (Helpers.boolToInt (vipsSaveOptions.Lossless o)) in
          let ty := vipsSaveOptions.Type_ o in
          if negb (ImageType_eqb ty UNKNOWN) && negb (IsTypeSupportedSave ty)
          then ret (Some (cannotSave (nameInImageTypes ty)))
          else
            c <- deref ;;
            let kind :=
              match ty with
              | WEBP => WEBP | PNG => PNG | TIFF => TIFF | _ => JPEG
              end in
            log (CallSave kind) ;;;
            let saved :=
              match ty with
              | WEBP => vips_webpsave_bridge V c strip quality lossless
              | PNG =>
                  vips_pngsave_bridge V c strip
                    (GoInt.wrap 32 (vipsSaveOptions.Compression o)) quality
                    interlace
              | TIFF => vips_tiffsave_bridge V c
              | _ => vips_jpegsave_bridge V c strip quality interlace
              end in
            match saved with
            | inr msg => ret (Some msg)
            | inl buf => putBuffer buf ;;; ret None
            end
      end
  end.

(** [Save] *)
Definition Save (x : SaveFields.t) : M (option error) :=
  o <- getOptions ;;
  let saveOptions :=
    vipsSaveOptions.mk (Options.Quality o) (Options.Compression o)
      (Options.Type_ o) (SaveFields.Interlace x) (SaveFields.NoProfile x)
      (SaveFields.StripMetadata x) (SaveFields.Lossless x)
      (SaveFields.OutputICC x) (Options.Interpretation o) false in
  check vipsSave saveOptions ;;
  ret None.

End Saving.

(** A save engine in the manner of [fakeEngine]: every call succeeds. *)
Definition fakeSaveEngine : SaveEngine :=
  {| vips_type_find_save_bridge := fun _ => 1;
     remove_profile := fun c => c;
     vips_colourspace_issupported_bridge := fun _ => 1;
     vips_colourspace_bridge := fun c _ => inl c;
     vips_icc_transform_bridge := fun c _ => inl c;
     vips_webpsave_bridge := fun _ _ _ _ => inl [x52];
     vips_pngsave_bridge := fun _ _ _ _ _ => inl [x89];
     vips_tiffsave_bridge := fun _ => inl [x49];
     vips_jpegsave_bridge := fun _ _ _ _ => inl [xff];
     vips_image_get_blob_bridge := fun _ _ => inr "no such field"%string |}.

(* ================================================================== *)
(** ** The cache of supported types (type.go) *)

From Stdlib Require Import Permutation.

(** [SupportedImageType] *)
Module SupportedImageType.
Record t : Type := mk { Load : bool; Save : bool }.
End SupportedImageType.

Module Cache.
Section Cache.

Variable E : Engine.
Variable V : SaveEngine.

(** The map [SupportedImageTypes]: what it holds under each key. *)
Definition t : Type := ImageType -> option SupportedImageType.t.

Definition empty : t := fun _ => None.

(** [m[k] = v] *)
Definition store (m : t) (k : ImageType) (v : SupportedImageType.t) : t :=
  fun k' => if ImageType_eqb k k' then Some v else m k'.

(** [len(m)] *)
Definition len (m : t) : nat :=
  List.length
    (filter (fun k => match m k with Some _ => true | None => false end)
       [UNKNOWN; JPEG; WEBP; PNG; TIFF; GIF; PDF; SVG; MAGICK]).

(** What the engine says about a type. *)
Definition entry (k : ImageType) : SupportedImageType.t :=
  SupportedImageType.mk (VipsIsTypeSupported E k) (VipsIsTypeSupportedSave V k).

(** [discoverSupportedImageTypes]; [order] is the order in which
    [range ImageTypes] hands out the entries of the table, which Go leaves
    open. *)
Definition discoverSupportedImageTypes (order : list (ImageType * string))
  (m : t) : t :=
  fold_left (fun m kv => store m (fst kv) (entry (fst kv))) order m.

(** [IsImageTypeSupportedByVips]: the answer and the cache afterwards. *)
Definition IsImageTypeSupportedByVips (order : list (ImageType * string))
  (ty : ImageType) (m : t) : SupportedImageType.t * t :=
  (* Discover supported image types and cache the result *)
  let itShouldDiscover := (len m =? 0)%nat in
  let m := if itShouldDiscover then discoverSupportedImageTypes order m else m in
  (* Check if image type is actually supported *)
  match m ty with
  | Some supported => (supported, m)
  | None => (SupportedImageType.mk false false, m)
  end.

(** [IsTypeSupported]; [&&] does not call its right operand when the left
    one is false. *)
Definition IsTypeSupported (order : list (ImageType * string))
  (ty : ImageType) (m : t) : bool * t :=
  if inImageTypes ty then
    let '(s, m) := IsImageTypeSupportedByVips order ty m in
    (SupportedImageType.Load s, m)
  else (false, m).

(** [IsTypeSupportedSave] *)
Definition IsTypeSupportedSave (order : list (ImageType * string))
  (ty : ImageType) (m : t) : bool * t :=
  if inImageTypes ty then
    let '(s, m) := IsImageTypeSupportedByVips order ty m in
    (SupportedImageType.Save s, m)
  else (false, m).

(** [IsTypeNameSupported]; [visit] is the order of its own [range] over
    [ImageTypes], [order] that of the discovery. *)
Definition IsTypeNameSupported (visit order : list (ImageType * string))
  (name : string) (m : t) : bool * t :=
  match find (fun kv => String.eqb (snd kv) name) visit with
  | Some kv =>
      let '(s, m) := IsImageTypeSupportedByVips order (fst kv) m in
      (SupportedImageType.Load s, m)
  | None => (false, m)
  end.

(** [IsTypeNameSupportedSave] *)
Definition IsTypeNameSupportedSave (visit order : list (ImageType * string))
  (name : string) (m : t) : bool * t :=
  match find (fun kv => String.eqb (snd kv) name) visit with
  | Some kv =>
      let '(s, m) := IsImageTypeSupportedByVips order (fst kv) m in
      (SupportedImageType.Save s, m)
  | None => (false, m)
  end.

(** What the cache holds once filled. *)
Definition discovered (k : ImageType) : option SupportedImageType.t :=
  if inImageTypes k then Some (entry k) else None.

(** The states the package leaves the cache in: never filled, or filled
    by a discovery. *)
Definition coherent (m : t) : Prop :=
  (forall k, m k = None) \/ (forall k, m k = discovered k).

End Cache.
End Cache.

(* ================================================================== *)
(** ** The method DSL (image.go) *)

Definition setGravity (o : Options.t) (v : Gravity) : Options.t :=
  let '(Options.mk w h cr em fo en ma sc tr gr ex ro fl fp na zo wm wi bg th gb sh ga ty qu co ip il xt) := o in
  Options.mk w h cr em fo en ma sc tr v ex ro fl fp na zo wm wi bg th gb sh ga ty qu co ip il xt.

Definition setFlop (o : Options.t) (v : bool) : Options.t :=
  let '(Options.mk w h cr em fo en ma sc tr gr ex ro fl fp na zo wm wi bg th gb sh ga ty qu co ip il xt) := o in
  Options.mk w h cr em fo en ma sc tr gr ex ro fl v na zo wm wi bg th gb sh ga ty qu co ip il xt.

Definition setZoom (o : Options.t) (v : Z) : Options.t :=
  let '(Options.mk w h cr em fo en ma sc tr gr ex ro fl fp na zo wm wi bg th gb sh ga ty qu co ip il xt) := o in
  Options.mk w h cr em fo en ma sc tr gr ex ro fl fp na v wm wi bg th gb sh ga ty qu co ip il xt.

Definition setWatermark (o : Options.t) (v : Watermark.t) : Options.t :=
  let '(Options.mk w h cr em fo en ma sc tr gr ex ro fl fp na zo wm wi bg th gb sh ga ty qu co ip il xt) := o in
  Options.mk w h cr em fo en ma sc tr gr ex ro fl fp na zo v wi bg th gb sh ga ty qu co ip il xt.

(** The methods of [Image]; the state is the [VipsImage] the [Image]
    points to.  Each one assigns to fields of [i.VipsImage.Options] and
    runs [Process], so what earlier calls assigned is still there. *)
Module Dsl.
Section Dsl.

Variable E : Engine.
Variable K : Constants.

(** [i.VipsImage.Options = f(i.VipsImage.Options)] *)
Definition assign (f : Options.t -> Options.t) : M unit :=
  o <- getOptions ;; putOptions (f o).

(** [Image.Process] *)
Definition Process : M (option error) :=
  check Process E K ;; ret None.

(** [SetOptions] *)
Definition SetOptions (o : Options.t) : M unit := putOptions o.

(** [Resize] *)
Definition Resize (width height : Z) : M (option error) :=
  assign (fun o => setEmbed (setHeight (setWidth o width) height) true) ;;;
  Process.

(** [ForceResize] *)
Definition ForceResize (width height : Z) : M (option error) :=
  assign (fun o => setForce (setHeight (setWidth o width) height) true) ;;;
  Process.

(** [ResizeAndCrop] *)
Definition ResizeAndCrop (width height : Z) : M (option error) :=
  assign (fun o =>
            setCrop (setEmbed (setHeight (setWidth o width) height) true)
              true) ;;;
  Process.

(** [SmartCrop] *)
Definition SmartCrop (width height : Z) : M (option error) :=
  assign (fun o =>
            setCrop (setGravity (setHeight (setWidth o width) height)
                       GravitySmart) true) ;;;
  Process.

(** [Extract] *)
Definition Extract (top left width height : Z) : M (option error) :=
  assign (fun o =>
            let x := Options.Extract o in
            let Top := if (top =? 0) && (left =? 0)
                       then F32.of_int (-1) else F32.of_int top in
            setExtract o
              (Extract.mk (F32.of_int left) Top (F32.of_int width)
                 (F32.of_int height) (Extract.Relative x))) ;;;
  Process.

(** [Enlarge] *)
Definition Enlarge (width height : Z) : M (option error) :=
  assign (fun o => setEnlarge (setHeight (setWidth o width) height) true) ;;;
  Process.

(** [EnlargeAndCrop] *)
Definition EnlargeAndCrop (width height : Z) : M (option error) :=
  assign (fun o =>
            setCrop (setForce (setHeight (setWidth o width) height) true)
              true) ;;;
  Process.

(** [Crop] *)
Definition Crop (width height : Z) (gravity : Gravity) : M (option error) :=
  assign (fun o =>
            setGravity (setCrop (setHeight (setWidth o width) height) true)
              gravity) ;;;
  Process.

(** [CropByWidth] *)
Definition CropByWidth (width : Z) : M (option error) :=
  assign (fun o => setCrop (setWidth o width) true) ;;; Process.

(** [CropByHeight] *)
Definition CropByHeight (height : Z) : M (option error) :=
  assign (fun o => setCrop (setHeight o height) true) ;;; Process.

(** [Thumbnail] *)
Definition Thumbnail (pixels : Z) : M (option error) :=
  assign (fun o =>
            setQuality (setCrop (setHeight (setWidth o pixels) pixels) true)
              95) ;;;
  Process.

(** [Watermark] *)
Definition Watermark (w : Watermark.t) : M (option error) :=
  assign (fun o => setWatermark o w) ;;; Process.

(** [WatermarkImage] *)
Definition WatermarkImage (w : WatermarkImage.t) : M (option error) :=
  assign (fun o => setWatermarkImage o w) ;;; Process.

(** [Zoom] *)
Definition Zoom (factor : Z) : M (option error) :=
  assign (fun o => setZoom o factor) ;;; Process.

(** [Rotate] *)
Definition Rotate (a : Angle) : M (option error) :=
  assign (fun o => setRotate o a) ;;; Process.

(** [Flip] *)
Definition Flip : M (option error) :=
  assign (fun o => setFlip o true) ;;; Process.

(** [Flop] *)
Definition Flop : M (option error) :=
  assign (fun o => setFlop o true) ;;; Process.

(** [Fly] *)
Definition Fly : M (option error) := ret (Some "Don't care if I die"%string).

(** [Convert] *)
Definition Convert (t : ImageType) : M (option error) :=
  assign (fun o => setType o t) ;;; Process.

(** [Colourspace] *)
Definition Colourspace (c : Z) : M (option error) :=
  assign (fun o => setInterpretation o c) ;;; Process.

(** [Trim] *)
Definition Trim : M (option error) :=
  assign (fun o => setTrim o true) ;;; Process.

(** [Gamma] *)
Definition Gamma (exponent : F64.t) : M (option error) :=
  assign (fun o => setGamma o exponent) ;;; Process.

(** [GetBuffer], [Image] and [Length] *)
Definition GetBuffer : M (list byte) :=
  img <- getSelf ;; ret (VipsImage.Buffer img).

Definition Length : M Z :=
  b <- GetBuffer ;; ret (Z.of_nat (List.length b)).

End Dsl.
End Dsl.

(** [Options{}] with a width, a height, [Embed] and an extract area: what
    [Resize] and [Extract] leave in fresh options. *)
Definition requesting (width height : Z) (embed : bool) (x : Extract.t) :
  Options.t :=
  setExtract (setEmbed (setHeight (setWidth Options.zero width) height) embed) x.

(* ================================================================== *)
(** * Properties *)

(** ** Go's [int] arithmetic away from the overflow *)

Lemma wrap_small (w z : Z) :
  0 < w -> GoInt.in_range w z -> GoInt.wrap w z = z.
Proof.
  unfold GoInt.in_range, GoInt.wrap. intros Hw [Hlo Hhi].
  assert (Hp : 2 ^ w = 2 * 2 ^ (w - 1)).
  { replace w with (Z.succ (w - 1)) at 1 by lia. apply Z.pow_succ_r. lia. }
  rewrite Z.mod_small; lia.
Qed.

Lemma fits62_int64 (z : Z) : fits62 z -> GoInt.in_range 64 z.
Proof.
  unfold fits62, GoInt.in_range.
  change (2 ^ (64 - 1)) with (2 * 2 ^ 62). lia.
Qed.

Lemma sub_exact (a b : Z) : fits62 a -> fits62 b -> GoInt.sub a b = a - b.
Proof.
  intros Ha Hb. unfold GoInt.sub. apply wrap_small; [lia|].
  unfold fits62, GoInt.in_range in *.
  change (2 ^ (64 - 1)) with (2 * 2 ^ 62). lia.
Qed.

Lemma centre_exact (a b : Z) :
  fits62 a -> fits62 b ->
  GoInt.quot (GoInt.add (GoInt.sub a b) 1) 2 = (a - b + 1) ÷ 2.
Proof.
  intros Ha Hb. rewrite sub_exact by assumption.
  unfold GoInt.add, GoInt.quot.
  assert (H1 : GoInt.in_range 64 (a - b + 1)).
  { unfold fits62, GoInt.in_range in *.
    change (2 ^ (64 - 1)) with (2 * 2 ^ 62). lia. }
  rewrite (wrap_small 64 (a - b + 1)); [ | lia | assumption ].
  apply wrap_small; [lia|].
  unfold GoInt.in_range in *. change (2 ^ (64 - 1)) with (2 * 2 ^ 62).
  pose proof (Z.quot_rem' (a - b + 1) 2) as Hq.
  destruct (Z.le_gt_cases 0 (a - b + 1)) as [Hpos|Hneg].
  - pose proof (Z.rem_bound_pos (a - b + 1) 2 Hpos ltac:(lia)).
    change (2 ^ (64 - 1)) with (2 * 2 ^ 62) in H1. lia.
  - clear Hq. replace (a - b + 1) with (- (- (a - b + 1))) by lia.
    rewrite Z.quot_opp_l by lia.
    pose proof (Z.quot_rem' (- (a - b + 1)) 2) as Hq.
    pose proof (Z.rem_bound_pos (- (a - b + 1)) 2 ltac:(lia) ltac:(lia)).
    change (2 ^ (64 - 1)) with (2 * 2 ^ 62) in H1. lia.
Qed.

(** ** C8: crop offsets by gravity *)

(** C8.  For all sizes whose differences fit a Go [int], [calculateCrop]
    returns, per gravity: North [((inW-outW+1)/2, 0)]; East
    [(inW-outW, (inH-outH+1)/2)]; South [((inW-outW+1)/2, inH-outH)]; West
    [(0, (inH-outH+1)/2)]; Centre and every other gravity
    [((inW-outW+1)/2, (inH-outH+1)/2)], with [/] truncating towards zero. *)
Theorem calculateCrop_by_gravity (inW inH outW outH : Z) (g : Gravity) :
  fits62 inW -> fits62 inH -> fits62 outW -> fits62 outH ->
  calculateCrop inW inH outW outH g =
    match g with
    | GravityNorth => ((inW - outW + 1) ÷ 2, 0)
    | GravityEast => (inW - outW, (inH - outH + 1) ÷ 2)
    | GravitySouth => ((inW - outW + 1) ÷ 2, inH - outH)
    | GravityWest => (0, (inH - outH + 1) ÷ 2)
    | GravityCentre | GravitySmart =>
        ((inW - outW + 1) ÷ 2, (inH - outH + 1) ÷ 2)
    end.
Proof.
  intros HiW HiH HoW HoH. unfold calculateCrop.
  rewrite !centre_exact, !sub_exact by assumption.
  destruct g; reflexivity.
Qed.

(** C8, the instance of the spec: Centre on 1000x800 cropped to 500x400
    gives left 250 and top 200. *)
Lemma calculateCrop_centre_example :
  (fits62 1000 /\ fits62 800 /\ fits62 500 /\ fits62 400)
  /\ calculateCrop 1000 800 500 400 GravityCentre = (250, 200).
Proof.
  assert (H : forall z, -1000 <= z <= 1000 -> fits62 z)
    by (unfold fits62; simpl; lia).
  split; [repeat split; apply H; lia|].
  rewrite (calculateCrop_by_gravity 1000 800 500 400 GravityCentre);
    [reflexivity | apply H; lia ..].
Defined.

(** ** C1: the scale factor when both dimensions are given *)

(** C1.  For every loaded image and options with [Width > 0] and
    [Height > 0] to which the no-enlarge short-circuit does not apply:
    under [Crop], [ScaleFactor] returns [math.Min] of the two ratios
    [inW/Width] and [inH/Height]; under [Force] without [Crop],
    [math.Max] of them. *)
Theorem ScaleFactor_fixed_box (c : CImage.t) (o : Options.t) :
  0 < Options.Width o -> 0 < Options.Height o ->
  smallerThanBox c o = false ->
  let xfactor := F64.div (F64.of_int (CImage.Xsize c)) (F64.of_int (Options.Width o)) in
  let yfactor := F64.div (F64.of_int (CImage.Ysize c)) (F64.of_int (Options.Height o)) in
  (Options.Crop o = true -> fst (ScaleFactor c o) = IEEE.Min xfactor yfactor)
  /\ (Options.Force o = true -> Options.Crop o = false ->
      fst (ScaleFactor c o) = IEEE.Max xfactor yfactor).
Proof.
  intros HW HH Hbox xfactor yfactor. unfold ScaleFactor. rewrite Hbox.
  assert (HWb : (Options.Width o >? 0) = true) by (apply Z.gtb_lt; lia).
  assert (HHb : (Options.Height o >? 0) = true) by (apply Z.gtb_lt; lia).
  rewrite HWb, HHb. simpl.
  split.
  - intros HC. rewrite HC. reflexivity.
  - intros _ HC. rewrite HC. reflexivity.
Qed.

(** [math.Min] and [math.Max] pick one of their arguments when neither is
    a NaN, and they agree on equal arguments. *)
Lemma Min_cases (x y : spec_float) :
  IEEE.is_nan x = false -> IEEE.is_nan y = false ->
  IEEE.Min x y = x \/ IEEE.Min x y = y.
Proof.
  intros Hx Hy. unfold IEEE.Min. rewrite Hx, Hy. simpl.
  destruct x as [[|]|[|]| |sx mx ex]; simpl in *; try discriminate; auto;
    destruct y as [[|]|[|]| |sy my ey]; simpl in *; try discriminate; auto;
    repeat match goal with |- context [if ?b then _ else _] => destruct b end;
    auto.
Qed.

Lemma Max_cases (x y : spec_float) :
  IEEE.is_nan x = false -> IEEE.is_nan y = false ->
  IEEE.Max x y = x \/ IEEE.Max x y = y.
Proof.
  intros Hx Hy. unfold IEEE.Max. rewrite Hx, Hy. simpl.
  destruct x as [[|]|[|]| |sx mx ex]; simpl in *; try discriminate; auto;
    destruct y as [[|]|[|]| |sy my ey]; simpl in *; try discriminate; auto;
    repeat match goal with |- context [if ?b then _ else _] => destruct b end;
    auto.
Qed.

(** C1 at a 1000x800 image: cropped to 500x300 the factor is 2, the
    smaller ratio; forced to 500x300 it is the larger, 800/300. *)
Lemma ScaleFactor_fixed_box_example :
  let c := CImage.mk 1000 800 3 0 in
  let o := setCrop (setHeight (setWidth Options.zero 500) 300) true in
  let o' := setForce (setHeight (setWidth Options.zero 500) 300) true in
  (0 < Options.Width o /\ 0 < Options.Height o /\ smallerThanBox c o = false)
  /\ fst (ScaleFactor c o) = F64.two
  /\ fst (ScaleFactor c o') = F64.div (F64.of_int 800) (F64.of_int 300).
Proof.
  intros c o o'.
  assert (HW : 0 < Options.Width o) by (vm_compute; reflexivity).
  assert (HH : 0 < Options.Height o) by (vm_compute; reflexivity).
  assert (Hbox : smallerThanBox c o = false) by reflexivity.
  split; [repeat split; assumption|]. split.
  - destruct (ScaleFactor_fixed_box c o HW HH Hbox) as [H _].
    rewrite H by reflexivity. vm_compute. reflexivity.
  - destruct (ScaleFactor_fixed_box c o' HW HH eq_refl) as [_ H].
    rewrite H by reflexivity. vm_compute. reflexivity.
Defined.

(** ** C6: the transform gate *)

Lemma gtb_irrefl (z : Z) : (z >? z) = false.
Proof. rewrite Z.gtb_ltb. apply Z.ltb_irrefl. Qed.

(** C6.  For an image already at the requested size, with [Crop] and no
    other mode flag and no extract region, [shouldTransformImage] is false
    after [normalizeOperation], and the transform stage of [Process]
    returns without a single engine call or any change to the image. *)
Theorem transform_gate_closed_at_target_size (E : Engine) (K : Constants)
  (c : CImage.t) (o : Options.t) (buf : list byte) (ty : ImageType)
  (log : list Call) (shrink : Z) (residual : F64.t) :
  Options.Crop o = true ->
  Options.Force o = false -> Options.Embed o = false ->
  Options.Enlarge o = false -> Options.Trim o = false ->
  Options.Extract o = Extract.none ->
  Options.Width o = CImage.Xsize c -> Options.Height o = CImage.Ysize c ->
  normalizeOperation o = o
  /\ shouldTransformImage c (normalizeOperation o) = false
  /\ let w := mkWorld (VipsImage.mk buf (Some c) ty (normalizeOperation o)) log in
     transformStage E K shrink residual w = Returns None w.
Proof.
  intros HC HF HEm HEn HT HX HW HH.
  assert (Hn : normalizeOperation o = o).
  { unfold normalizeOperation. rewrite HC, HF. simpl.
    rewrite andb_false_r. reflexivity. }
  assert (Hg : shouldTransformImage c o = false).
  { unfold shouldTransformImage.
    rewrite HF, HEn, HT, HX, HW, HH, !Z.ltb_irrefl, !gtb_irrefl.
    simpl. rewrite !andb_false_r. reflexivity. }
  rewrite Hn. repeat split; try assumption.
  unfold transformStage, bind, deref, getOptions. simpl.
  rewrite Hg. reflexivity.
Qed.

(** C6 at a 200x200 image cropped to 200x200. *)
Lemma transform_gate_closed_example :
  let c := CImage.mk 200 200 3 0 in
  let o := setCrop (setHeight (setWidth Options.zero 200) 200) true in
  shouldTransformImage c (normalizeOperation o) = false
  /\ observed (Process (fakeEngine 1 []) fakeConstants (loaded 200 200 o))
     = (Some None, []).
Proof.
  intros c o. split.
  - apply (transform_gate_closed_at_target_size (fakeEngine 1 []) fakeConstants
             c o [] PNG [] 1 F64.one); reflexivity.
  - vm_compute. reflexivity.
Defined.

(** ** C4: the orientation table and additive rotation *)

Lemma add_exact (a b : Z) : fits62 a -> fits62 b -> GoInt.add a b = a + b.
Proof.
  intros Ha Hb. unfold GoInt.add. apply wrap_small; [lia|].
  unfold fits62, GoInt.in_range in *.
  change (2 ^ (64 - 1)) with (2 * 2 ^ 62). lia.
Qed.

Lemma exifTable_fits (code : Z) : fits62 (fst (exifTable code)).
Proof.
  unfold fits62.
  assert (H : fst (exifTable code) = 0 \/ fst (exifTable code) = 90
              \/ fst (exifTable code) = 180 \/ fst (exifTable code) = 270).
  { unfold exifTable.
    destruct code as [|p|p]; simpl; auto;
      repeat (destruct p as [p|p|]; simpl; auto). }
  assert (0 < 2 ^ 62) by (apply Z.pow_pos_nonneg; lia).
  assert (270 < 2 ^ 62) by (vm_compute; reflexivity).
  lia.
Qed.

(** C4, as the code has it.  [calculateRotationAndFlip] resolves the EXIF
    code by the fixed table (1: 0; 2: flip; 3: 180; 4: 180 and flip;
    5: 90 and flip; 6: 90; 7: 270 and flip; 8: 270; any other value: no
    rotation, no flip); when [additive] is true the user's angle is added to
    the table's rotation by plain integer addition, with no reduction modulo
    360 and no clamping; without [additive] and without a user angle the
    table's entry is returned as it is. *)
Theorem calculateRotationAndFlip_additive (E : Engine) (img : VipsImage.t)
  (c : CImage.t) :
  VipsImage.Image img = Some c ->
  fits62 (Options.Rotate (VipsImage.Options img)) ->
  let code := vips_exif_orientation E c in
  let angle := Options.Rotate (VipsImage.Options img) in
  calculateRotationAndFlip E img true
  = (fst (exifTable code) + angle, snd (exifTable code), None)
  /\ (angle <= 0 ->
      calculateRotationAndFlip E img false
      = (fst (exifTable code), snd (exifTable code), None)).
Proof.
  intros Hc Hfit code angle.
  unfold calculateRotationAndFlip, vipsExifOrientation.
  rewrite Hc, andb_false_r. fold code. fold angle.
  assert (Hadd : forall r f, (r, f) = exifTable code ->
            (let '(rotate, flip) := (r, f) in
             (GoInt.add rotate angle, flip, @None error))
            = (fst (exifTable code) + angle, snd (exifTable code), None)).
  { intros r f Heq. rewrite <- Heq. simpl.
    rewrite add_exact; [reflexivity | | assumption].
    change r with (fst (r, f)). rewrite Heq. apply exifTable_fits. }
  assert (Hplain : forall r f, (r, f) = exifTable code ->
            (let '(rotate, flip) := (r, f) in (rotate, flip, @None error))
            = (fst (exifTable code), snd (exifTable code), None)).
  { intros r f Heq. rewrite <- Heq. reflexivity. }
  split.
  - unfold exifTable in *. unfold D0, D90, D180, D270.
    destruct code as [|p|p]; simpl; try (apply Hadd; reflexivity);
      repeat (destruct p as [p|p|]; simpl; try (apply Hadd; reflexivity)).
  - intros Hle.
    assert (Hb : (angle >? 0) = false)
      by (rewrite Z.gtb_ltb; apply Z.ltb_ge; lia).
    rewrite Hb. simpl.
    unfold exifTable in *. unfold D0, D90, D180, D270.
    destruct code as [|p|p]; simpl; try (apply Hplain; reflexivity);
      repeat (destruct p as [p|p|]; simpl; try (apply Hplain; reflexivity)).
Qed.

(** C4, the instance of the spec: EXIF code 6 with the user's rotation 90,
    additively, gives 180 and no flip. *)
Lemma calculateRotationAndFlip_additive_example :
  let img := VipsImage.mk [] (Some (CImage.mk 10 10 3 0)) JPEG
               (setRotate Options.zero 90) in
  fits62 90
  /\ calculateRotationAndFlip (fakeEngine 6 []) img true = (180, false, None).
Proof.
  intros img.
  assert (H90 : fits62 90) by (unfold fits62; split; vm_compute; reflexivity).
  split; [exact H90|].
  destruct (calculateRotationAndFlip_additive (fakeEngine 6 []) img
              (CImage.mk 10 10 3 0) eq_refl H90) as [H _].
  rewrite H. reflexivity.
Defined.

(** C4 as the spec words it fails: EXIF code 8 with the user's rotation
    270, additively, gives 540, which is neither [(270 + 270) mod 360] nor
    one of the four cardinal angles. *)
Lemma calculateRotationAndFlip_not_modulo :
  let img := VipsImage.mk [] (Some (CImage.mk 10 10 3 0)) JPEG
               (setRotate Options.zero 270) in
  calculateRotationAndFlip (fakeEngine 8 []) img true = (540, false, None)
  /\ 540 <> (270 + 270) mod 360
  /\ ~ In 540 [0; 90; 180; 270].
Proof.
  intros img. split; [vm_compute; reflexivity|].
  split; [vm_compute; discriminate|].
  simpl. intros [H|[H|[H|[H|[]]]]]; discriminate.
Qed.

(** ** C5: a user rotation without additive mode *)




(** ** C9: placement of the image watermark *)

(** The switches of [vipsDrawWatermark] against the rules of the spec.
    For all sizes, offsets and alignments Left/Centre/Right and
    Top/Centre/Bottom they compute the same: in relative mode the offset is
    first scaled to [(offset/100)·src]; Left/Top give the offset,
    Right/Bottom give [src - offset - wm], Centre gives [(src - wm)/2]
    (binary32 arithmetic). *)
Lemma watermarkPlacement_spec (o : WatermarkImage.t)
  (srcX srcY wmX wmY : F32.t) (h v : Anchor) :
  WatermarkImage.HAlign o = horizontal h ->
  WatermarkImage.VAlign o = vertical v ->
  watermarkPlacement o srcX srcY wmX wmY
  = (specOffset (WatermarkImage.Relative o) h (WatermarkImage.HOffset o) srcX wmX,
     specOffset (WatermarkImage.Relative o) v (WatermarkImage.VOffset o) srcY wmY).
Proof.
  intros Hh Hv. unfold watermarkPlacement, specOffset. rewrite Hh, Hv.
  destruct (WatermarkImage.Relative o), h, v; reflexivity.
Qed.

(** The instance of the spec: 1000x800 source, 100x50 watermark, relative
    mode, Right at 10% and Bottom at 5%: left 800, top 710. *)
Lemma watermarkPlacement_example :
  let o := WatermarkImage.mk jpegHeader F32.zero PositionRight PositionBottom
             (F32.of_int 10) (F32.of_int 5) (F32.of_int 10) true 0 in
  let p := watermarkPlacement o (F32.of_int 1000) (F32.of_int 800)
             (F32.of_int 100) (F32.of_int 50) in
  p = (F32.of_int 800, F32.of_int 710)
  /\ F32.to_cint (fst p) = 800 /\ F32.to_cint (snd p) = 710.
Proof.
  intros o p. unfold p.
  rewrite (watermarkPlacement_spec o _ _ _ _ Far Far eq_refl eq_refl).
  vm_compute. repeat split; reflexivity.
Defined.

(** ** C10: [Image.Metadata] *)

(** [VipsImage.Metadata], which the wrapper is documented to expose,
    returns the size and the other fields of a loaded image. *)
Lemma VipsImage_Metadata_returns (E : Engine) (img : VipsImage.t)
  (c : CImage.t) (log : list Call) :
  VipsImage.Image img = Some c ->
  exists m,
    VipsImage_Metadata E (mkWorld img log) = Returns (m, None) (mkWorld img log)
    /\ ImageMetadata.Size m = ImageSize.mk (CImage.Xsize c) (CImage.Ysize c).
Proof.
  intros Hc. destruct img as [buf image ty o]. simpl in Hc. subst image.
  eexists. split; reflexivity.
Qed.

(** C10, what the code does.  [Image.Metadata] calls itself on the same
    receiver: whatever the bound on the nesting, no call returns, and
    neither does [Image.Size], which starts by calling it. *)
Theorem Image_Metadata_never_returns (fuel : nat) (i : Image.t) :
  Image_Metadata fuel i = None /\ Image_Size fuel i = None.
Proof.
  assert (H : Image_Metadata fuel i = None)
    by (induction fuel as [|n IH]; [reflexivity | exact IH]).
  split; [exact H|]. unfold Image_Size. rewrite H. reflexivity.
Qed.

(** The order of binary floats, as far as [math.Min] and [math.Max] need
    it: comparing the other way round gives the opposite answer. *)
Lemma SFcompare_antisym (x y : spec_float) :
  SFcompare y x = option_map CompOpp (SFcompare x y).
Proof.
  destruct x as [sx|sx| |sx mx ex]; destruct y as [sy|sy| |sy my ey];
    simpl; try reflexivity;
    try (destruct sx; reflexivity); try (destruct sy; reflexivity);
    try (destruct sx; destruct sy; reflexivity).
  destruct sx; destruct sy; simpl; try reflexivity;
    rewrite (Z.compare_antisym ey ex);
    destruct (ey ?= ex); simpl; try reflexivity;
    repeat f_equal; exact (Pos.compare_antisym mx my).
Qed.

Lemma SFleb_refl (x : spec_float) : IEEE.is_nan x = false -> SFleb x x = true.
Proof.
  destruct x as [s|s| |s m e]; simpl; try discriminate; intros _;
    unfold SFleb; simpl; try (destruct s; reflexivity).
  destruct s; rewrite Z.compare_refl;
    change (Pos.compare_cont Eq m m) with (Pos.compare m m);
    rewrite Pos.compare_refl; reflexivity.
Qed.

Lemma SFleb_of_not_ltb (x y : spec_float) :
  IEEE.is_nan x = false -> IEEE.is_nan y = false ->
  SFltb x y = false -> SFleb y x = true.
Proof.
  intros Hx Hy. unfold SFltb, SFleb. rewrite (SFcompare_antisym x y).
  destruct (SFcompare x y) as [[| |]|] eqn:Hc; simpl; try reflexivity;
    try discriminate.
  intros _. destruct x, y; simpl in *; try discriminate;
    repeat match goal with s : bool |- _ => destruct s end; discriminate.
Qed.

Lemma SFleb_of_ltb (x y : spec_float) : SFltb x y = true -> SFleb x y = true.
Proof.
  unfold SFltb, SFleb. destruct (SFcompare x y) as [[| |]|]; congruence.
Qed.

(** [math.Min] is below, and [math.Max] above, both of its arguments. *)
Lemma Min_lower_bound (x y : spec_float) :
  IEEE.is_nan x = false -> IEEE.is_nan y = false ->
  SFleb (IEEE.Min x y) x = true /\ SFleb (IEEE.Min x y) y = true.
Proof.
  intros Hx Hy. unfold IEEE.Min. rewrite Hx, Hy. simpl.
  destruct (IEEE.is_inf true x || IEEE.is_inf true y) eqn:Hinf.
  - destruct x as [sx|sx| |sx mx ex]; destruct y as [sy|sy| |sy my ey];
      try discriminate; split; try reflexivity;
      repeat match goal with s : bool |- _ => destruct s end; reflexivity.
  - destruct (IEEE.is_zero x && SFeqb x y) eqn:Hz.
    + destruct x as [sx|sx| |sx mx ex]; try discriminate.
      destruct y as [sy|sy| |sy my ey]; try discriminate;
        try (destruct sy; discriminate).
      destruct sx; split; reflexivity.
    + destruct (SFltb x y) eqn:Hlt.
      * split; [apply SFleb_refl; assumption | apply SFleb_of_ltb; assumption].
      * split; [apply SFleb_of_not_ltb; assumption | apply SFleb_refl; assumption].
Qed.

Lemma Max_upper_bound (x y : spec_float) :
  IEEE.is_nan x = false -> IEEE.is_nan y = false ->
  SFleb x (IEEE.Max x y) = true /\ SFleb y (IEEE.Max x y) = true.
Proof.
  intros Hx Hy. unfold IEEE.Max. rewrite Hx, Hy. simpl.
  destruct (IEEE.is_inf false x || IEEE.is_inf false y) eqn:Hinf.
  - destruct x as [sx|sx| |sx mx ex]; destruct y as [sy|sy| |sy my ey];
      try discriminate; split; try reflexivity;
      repeat match goal with s : bool |- _ => destruct s end; reflexivity.
  - destruct (IEEE.is_zero x && SFeqb x y) eqn:Hz.
    + destruct x as [sx|sx| |sx mx ex]; try discriminate.
      destruct y as [sy|sy| |sy my ey]; try discriminate;
        try (destruct sy; discriminate).
      destruct sx; split; reflexivity.
    + unfold IEEE.gtb. destruct (SFltb y x) eqn:Hlt.
      * split; [apply SFleb_refl; assumption | apply SFleb_of_ltb; assumption].
      * split; [apply SFleb_of_not_ltb; assumption | apply SFleb_refl; assumption].
Qed.

(* ================================================================== *)
(** ** binary64 arithmetic: the facts the planner relies on *)

(** The number of binary digits, through [Z.log2]. *)
Lemma digits2_pos_log2 (p : positive) :
  Zpos (digits2_pos p) = Z.log2 (Zpos p) + 1.
Proof.
  assert (Hs : forall q, digits2_pos q = Pos.size q)
    by (induction q as [q IH|q IH|]; simpl; congruence).
  rewrite Hs. destruct p; simpl; lia.
Qed.

Lemma Zdigits2_log2 (m : Z) : 0 < m -> Zdigits2 m = Z.log2 m + 1.
Proof. destruct m; try lia. intros _. apply digits2_pos_log2. Qed.

Lemma Zdigits2_nonneg (m : Z) : 0 <= Zdigits2 m.
Proof. destruct m; simpl; lia. Qed.

Lemma Zdigits2_pos (m : Z) : 0 < m -> 1 <= Zdigits2 m.
Proof.
  intros H. rewrite Zdigits2_log2 by assumption.
  pose proof (Z.log2_nonneg m). lia.
Qed.

(** [m < 2 ^ k] bounds the number of digits by [k]. *)
Lemma Zdigits2_le (m k : Z) : 0 < m -> 0 <= k -> m < 2 ^ k -> Zdigits2 m <= k.
Proof.
  intros Hm Hk Hlt. rewrite Zdigits2_log2 by assumption.
  apply Z.log2_lt_pow2 in Hlt; lia.
Qed.

Lemma Zdigits2_bound (m : Z) : 0 < m -> m < 2 ^ Zdigits2 m.
Proof.
  intros Hm. rewrite Zdigits2_log2 by assumption.
  apply Z.log2_lt_pow2; lia.
Qed.

Lemma Zdigits2_succ (m : Z) : 0 <= m -> Zdigits2 (m + 1) <= Zdigits2 m + 1.
Proof.
  intros Hm. destruct (Z.eq_dec m 0) as [->|Hne]; [simpl; lia|].
  rewrite !Zdigits2_log2 by lia.
  pose proof (Z.log2_succ_le m). unfold Z.succ in *. lia.
Qed.

Lemma Zdigits2_shiftr (m n : Z) :
  0 < m -> 0 <= n -> 0 < Z.shiftr m n -> Zdigits2 (Z.shiftr m n) = Zdigits2 m - n.
Proof.
  intros Hm Hn Hs. rewrite !Zdigits2_log2 by assumption.
  rewrite Z.log2_shiftr by assumption.
  destruct (Z.le_gt_cases n (Z.log2 m)) as [Hle|Hgt]; [lia|].
  exfalso. rewrite Z.shiftr_eq_0 in Hs; lia.
Qed.

(** [fexp] and [emin] of binary64. *)
Lemma fexp64 (x : Z) : fexp 53 1024 x = Z.max (x - 53) (-1074).
Proof. reflexivity. Qed.

(** *** Shifting right *)

Lemma iter_pos_swap {A : Type} (f : A -> A) (p : positive) (x : A) :
  iter_pos f p (f x) = f (iter_pos f p x).
Proof.
  revert x. induction p as [p IH|p IH|]; intros x; simpl.
  - rewrite !IH. reflexivity.
  - rewrite !IH. reflexivity.
  - reflexivity.
Qed.

Lemma iter_pos_succ {A : Type} (f : A -> A) (p : positive) (x : A) :
  iter_pos f (Pos.succ p) x = f (iter_pos f p x).
Proof.
  revert x. induction p as [p IH|p IH|]; intros x; simpl.
  - rewrite !IH. rewrite !iter_pos_swap. reflexivity.
  - rewrite !iter_pos_swap. reflexivity.
  - reflexivity.
Qed.

Lemma shr_1_m (mrs : shr_record) :
  0 <= shr_m mrs -> shr_m (shr_1 mrs) = Z.div2 (shr_m mrs).
Proof.
  destruct mrs as [m r s]. simpl. intros Hm.
  destruct m as [|[p|p|]|p]; try lia; reflexivity.
Qed.

Lemma iter_shr_1_m (p : positive) (mrs : shr_record) :
  0 <= shr_m mrs ->
  shr_m (iter_pos shr_1 p mrs) = Z.shiftr (shr_m mrs) (Zpos p).
Proof.
  revert mrs. induction p as [|p IH] using Pos.peano_ind; intros mrs Hm.
  - simpl. rewrite shr_1_m by assumption. rewrite Z.div2_spec. reflexivity.
  - rewrite iter_pos_succ, shr_1_m.
    + rewrite IH by assumption. rewrite Z.div2_spec, Z.shiftr_shiftr by lia.
      f_equal. lia.
    + rewrite IH by assumption. apply Z.shiftr_nonneg. assumption.
Qed.

(** What [shr] does to the mantissa and the exponent. *)
Lemma shr_spec (mrs : shr_record) (e n : Z) :
  0 <= shr_m mrs ->
  (n <= 0 /\ shr mrs e n = (mrs, e))
  \/ (0 < n /\ shr_m (fst (shr mrs e n)) = Z.shiftr (shr_m mrs) n
      /\ snd (shr mrs e n) = e + n).
Proof.
  intros Hm. destruct n as [|p|p]; simpl.
  - left. split; [lia | reflexivity].
  - right. split; [lia|]. split; [apply iter_shr_1_m; assumption | reflexivity].
  - left. split; [lia | reflexivity].
Qed.

Lemma shr_record_of_loc_m (m : Z) (l : location) :
  shr_m (shr_record_of_loc m l) = m.
Proof. destruct l as [|[| |]]; reflexivity. Qed.

Lemma round_nearest_even_bounds (m : Z) (l : location) :
  m <= round_nearest_even m l <= m + 1.
Proof.
  unfold round_nearest_even.
  destruct l as [|[| |]]; try destruct (Z.even m); lia.
Qed.

(** *** Rounding keeps the magnitude *)

Lemma Zdigits2_mono (a b : Z) : 0 <= a <= b -> Zdigits2 a <= Zdigits2 b.
Proof.
  intros [Ha Hab]. destruct (Z.eq_dec a 0) as [->|Hne].
  - apply Zdigits2_nonneg.
  - rewrite !Zdigits2_log2 by lia.
    pose proof (Z.log2_le_mono a b Hab). lia.
Qed.

(** One alignment step of [binary_round_aux]. *)
Lemma shr_fexp_step (m e : Z) (l : location) (k : Z) :
  0 <= m -> Zdigits2 m + e <= k ->
  let r := shr_fexp 53 1024 m e l in
  0 <= shr_m (fst r)
  /\ (0 < shr_m (fst r) -> Zdigits2 (shr_m (fst r)) + snd r <= k)
  /\ snd r <= Z.max e (Z.max (k - 53) (-1074)).
Proof.
  intros Hm Hk r. unfold r, shr_fexp.
  set (n := fexp 53 1024 (Zdigits2 m + e) - e).
  assert (Hn : n = Z.max (Zdigits2 m + e - 53) (-1074) - e)
    by (unfold n; rewrite fexp64; reflexivity).
  pose proof (shr_spec (shr_record_of_loc m l) e n) as Hs.
  rewrite shr_record_of_loc_m in Hs. specialize (Hs Hm).
  destruct Hs as [[Hle Heq]|[Hlt [Hsm Hse]]].
  - rewrite Heq. simpl. rewrite shr_record_of_loc_m.
    repeat split; lia.
  - rewrite Hsm, Hse. split; [apply Z.shiftr_nonneg; assumption|].
    split; [|lia].
    intros Hpos.
    assert (Hm' : 0 < m).
    { destruct (Z.eq_dec m 0) as [->|]; [|lia].
      rewrite Z.shiftr_0_l in Hpos. lia. }
    rewrite Zdigits2_shiftr by lia. lia.
Qed.

(** Rounding a non-negative mantissa of magnitude under [2 ^ k] gives a
    zero or a finite number of magnitude under [2 ^ (k + 1)]: neither a NaN
    nor an infinity. *)
Lemma binary_round_aux_below (s : bool) (mx ex : Z) (lx : location) (k : Z) :
  0 <= mx -> Zdigits2 mx + ex <= k -> 0 <= k <= 971 ->
  below (k + 1) (binary_round_aux 53 1024 s mx ex lx).
Proof.
  intros Hm Hd Hk. unfold binary_round_aux.
  pose proof (shr_fexp_step mx ex lx k Hm Hd) as H1.
  destruct (shr_fexp 53 1024 mx ex lx) as [mrs1 e1]. simpl in H1.
  destruct H1 as [H1m [H1d H1e]].
  pose proof (Zdigits2_nonneg mx) as Hdn.
  set (m2 := round_nearest_even (shr_m mrs1) (loc_of_shr_record mrs1)).
  pose proof (round_nearest_even_bounds (shr_m mrs1) (loc_of_shr_record mrs1)) as Hr.
  fold m2 in Hr.
  assert (H2d : Zdigits2 m2 + e1 <= k + 1).
  { destruct (Z.eq_dec (shr_m mrs1) 0) as [H0|Hne].
    - assert (Zdigits2 m2 <= 1).
      { transitivity (Zdigits2 1); [apply Zdigits2_mono; lia | simpl; lia]. }
      lia.
    - specialize (H1d ltac:(lia)).
      pose proof (Zdigits2_mono m2 (shr_m mrs1 + 1) ltac:(lia)).
      pose proof (Zdigits2_succ (shr_m mrs1) H1m). lia. }
  pose proof (shr_fexp_step m2 e1 loc_Exact (k + 1) ltac:(lia) H2d) as H2.
  destruct (shr_fexp 53 1024 m2 e1 loc_Exact) as [mrs2 e2]. simpl in H2.
  destruct H2 as [H2m [H2d' H2e]].
  destruct (shr_m mrs2) as [|m|m] eqn:Hm3.
  - exact I.
  - assert (He : (e2 <=? 1024 - 53) = true) by (apply Z.leb_le; lia).
    rewrite He. simpl. specialize (H2d' ltac:(lia)). simpl in H2d'. lia.
  - lia.
Qed.

(** *** Rounding does not lose magnitude either *)

Lemma shr_fexp_step_above (m e : Z) (l : location) :
  0 < m -> -1021 <= Zdigits2 m + e ->
  let r := shr_fexp 53 1024 m e l in
  0 < shr_m (fst r)
  /\ Zdigits2 m + e <= Zdigits2 (shr_m (fst r)) + snd r.
Proof.
  intros Hm Hd r. unfold r, shr_fexp.
  set (n := fexp 53 1024 (Zdigits2 m + e) - e).
  assert (Hn : n = Zdigits2 m - 53)
    by (unfold n; rewrite fexp64; lia).
  pose proof (shr_spec (shr_record_of_loc m l) e n) as Hs.
  rewrite shr_record_of_loc_m in Hs. specialize (Hs ltac:(lia)).
  destruct Hs as [[Hle Heq]|[Hlt [Hsm Hse]]].
  - rewrite Heq. simpl. rewrite shr_record_of_loc_m. lia.
  - rewrite Hsm, Hse.
    assert (Hpos : 0 < Z.shiftr m n).
    { pose proof (Z.shiftr_nonneg m n) as Hnn.
      destruct (Z.eq_dec (Z.shiftr m n) 0) as [H0|Hne]; [|lia].
      apply Z.shiftr_eq_0_iff in H0. rewrite Zdigits2_log2 in Hn by lia. lia. }
    split; [assumption|].
    rewrite Zdigits2_shiftr by lia. lia.
Qed.

(** Rounding a positive mantissa in the normal range gives a finite
    number of at least the same magnitude. *)
Lemma binary_round_aux_above (s : bool) (mx ex : Z) (lx : location) :
  0 < mx -> -1021 <= Zdigits2 mx + ex <= 971 ->
  above (Zdigits2 mx + ex) (binary_round_aux 53 1024 s mx ex lx).
Proof.
  intros Hm Hd. unfold binary_round_aux.
  pose proof (shr_fexp_step mx ex lx (Zdigits2 mx + ex) ltac:(lia) ltac:(lia)) as H1.
  pose proof (shr_fexp_step_above mx ex lx Hm ltac:(lia)) as H1'.
  destruct (shr_fexp 53 1024 mx ex lx) as [mrs1 e1]. simpl in H1, H1'.
  destruct H1 as [_ [H1d H1e]]. destruct H1' as [H1p H1a].
  specialize (H1d H1p).
  pose proof (Zdigits2_pos mx Hm) as Hdp.
  set (m2 := round_nearest_even (shr_m mrs1) (loc_of_shr_record mrs1)).
  pose proof (round_nearest_even_bounds (shr_m mrs1) (loc_of_shr_record mrs1)) as Hr.
  fold m2 in Hr.
  pose proof (Zdigits2_mono (shr_m mrs1) m2 ltac:(lia)) as Hlow.
  pose proof (Zdigits2_mono m2 (shr_m mrs1 + 1) ltac:(lia)) as Hup.
  pose proof (Zdigits2_succ (shr_m mrs1) ltac:(lia)) as Hsucc.
  pose proof (shr_fexp_step m2 e1 loc_Exact (Zdigits2 mx + ex + 1)
                ltac:(lia) ltac:(lia)) as H2.
  pose proof (shr_fexp_step_above m2 e1 loc_Exact ltac:(lia) ltac:(lia)) as H2'.
  destruct (shr_fexp 53 1024 m2 e1 loc_Exact) as [mrs2 e2]. simpl in H2, H2'.
  destruct H2 as [_ [_ H2e]]. destruct H2' as [H2p H2a].
  destruct (shr_m mrs2) as [|m|m] eqn:Hm3; try lia.
  assert (He : (e2 <=? 1024 - 53) = true) by (apply Z.leb_le; lia).
  rewrite He. unfold above.
  change (Zdigits2 (Zpos m)) with (Zpos (digits2_pos m)) in H2a. lia.
Qed.

(** *** Integers that binary64 represents exactly *)

Lemma iter_xO_digits (p k : positive) :
  digits2_pos (Pos.iter xO p k) = (digits2_pos p + k)%positive.
Proof.
  induction k as [|k IH] using Pos.peano_ind.
  - simpl. lia.
  - rewrite Pos.iter_succ. simpl. rewrite IH. lia.
Qed.

Lemma iter_xO_value (p k : positive) :
  Zpos (Pos.iter xO p k) = Zpos p * 2 ^ Zpos k.
Proof.
  induction k as [|k IH] using Pos.peano_ind.
  - simpl. lia.
  - rewrite Pos.iter_succ, Pos2Z.inj_succ, Z.pow_succ_r by lia.
    rewrite Pos2Z.inj_xO, IH. ring.
Qed.

(** A canonical mantissa goes through [binary_round_aux] unchanged. *)
Lemma binary_round_aux_canonical (s : bool) (m : positive) (e : Z) :
  fexp 53 1024 (Zpos (digits2_pos m) + e) = e -> e <= 971 ->
  binary_round_aux 53 1024 s (Zpos m) e loc_Exact = S754_finite s m e.
Proof.
  intros Hc He. unfold binary_round_aux, shr_fexp.
  change (Zdigits2 (Zpos m)) with (Zpos (digits2_pos m)).
  rewrite Hc, Z.sub_diag.
  cbn [shr shr_record_of_loc shr_m loc_of_shr_record round_nearest_even].
  change (Zdigits2 (Zpos m)) with (Zpos (digits2_pos m)).
  rewrite Hc, Z.sub_diag.
  cbn [shr shr_record_of_loc shr_m].
  assert (Hle : (e <=? 1024 - 53) = true) by (apply Z.leb_le; lia).
  rewrite Hle. reflexivity.
Qed.

(** An integer of at most 53 binary digits converts without rounding. *)
Lemma binary_round_exact (s : bool) (p : positive) :
  Zpos (digits2_pos p) <= 53 ->
  exists m e,
    binary_round 53 1024 s p 0 = S754_finite s m e
    /\ e <= 0
    /\ Zpos m = Zpos p * 2 ^ (- e)
    /\ Zpos (digits2_pos m) + e = Zpos (digits2_pos p).
Proof.
  intros Hd. unfold binary_round.
  rewrite fexp64.
  assert (Hmax : Z.max (Zpos (digits2_pos p) + 0 - 53) (-1074)
                 = Zpos (digits2_pos p) - 53) by lia.
  rewrite Hmax. unfold shl_align.
  destruct (Zpos (digits2_pos p) - 53 - 0) as [|k|k] eqn:Hk; try lia.
  - exists p, 0. split; [|repeat split; lia].
    apply binary_round_aux_canonical; [rewrite fexp64|]; lia.
  - exists (Pos.iter xO p k), (Zpos (digits2_pos p) - 53).
    assert (Hdig : Zpos (digits2_pos (Pos.iter xO p k))
                   = Zpos (digits2_pos p) + Zpos k)
      by (rewrite iter_xO_digits; lia).
    split; [|repeat split; try lia].
    + apply binary_round_aux_canonical; [rewrite fexp64|]; lia.
    + rewrite iter_xO_value. f_equal. f_equal. lia.
Qed.

Lemma int_digits (p : positive) (k : Z) :
  0 <= k -> Zpos p < 2 ^ k -> Zpos (digits2_pos p) <= k.
Proof.
  intros Hk Hlt. change (Zpos (digits2_pos p)) with (Zdigits2 (Zpos p)).
  apply Zdigits2_le; lia.
Qed.

(** [float64(z)] for a positive integer under [2 ^ 53]: finite, positive,
    of the magnitude of [z], and [int] gives [z] back. *)
Lemma of_int_pos (z : Z) :
  0 < z < 2 ^ 53 ->
  exists m e,
    F64.of_int z = S754_finite false m e
    /\ Zpos (digits2_pos m) + e = Zdigits2 z
    /\ IEEE.trunc (F64.of_int z) = Some z.
Proof.
  intros [Hpos Hlt]. destruct z as [|p|p]; try lia.
  destruct (binary_round_exact false p (int_digits p 53 ltac:(lia) Hlt))
    as (m & e & Heq & He & Hv & Hd).
  exists m, e. unfold F64.of_int, IEEE.of_Z, binary_normalize.
  change F64.prec with 53. change F64.emax with 1024.
  rewrite Heq. repeat split; [assumption|].
  simpl. f_equal.
  rewrite <- (Z.opp_involutive e), <- Z.shiftr_opp_r, Z.opp_involutive.
  rewrite Z.shiftr_div_pow2, Hv by lia.
  apply Z.div_mul. apply Z.pow_nonzero; lia.
Qed.

Lemma below_mono (k k' : Z) (x : spec_float) : k <= k' -> below k x -> below k' x.
Proof. destruct x; simpl; intros; try assumption; lia. Qed.

(** [float64(z)] for any integer under [2 ^ 53] in absolute value. *)
Lemma of_int_below (z : Z) :
  - 2 ^ 53 < z < 2 ^ 53 -> below (Zdigits2 z) (F64.of_int z).
Proof.
  intros Hz. unfold F64.of_int, IEEE.of_Z, binary_normalize.
  change F64.prec with 53. change F64.emax with 1024.
  destruct z as [|p|p].
  - exact I.
  - destruct (binary_round_exact false p (int_digits p 53 ltac:(lia) ltac:(lia)))
      as (m & e & Heq & He & Hv & Hd).
    rewrite Heq. unfold below, Zdigits2. lia.
  - destruct (binary_round_exact true p (int_digits p 53 ltac:(lia) ltac:(lia)))
      as (m & e & Heq & He & Hv & Hd).
    rewrite Heq. unfold below, Zdigits2. lia.
Qed.

Lemma above_mono (k k' : Z) (x : spec_float) : k' <= k -> above k x -> above k' x.
Proof. destruct x; simpl; intros; try assumption; lia. Qed.

(** [float64(z)] for a positive Go [int]: finite and at least 1, also when
    the conversion rounds. *)
Lemma of_int_above (z : Z) : 0 < z < 2 ^ 63 -> above 1 (F64.of_int z).
Proof.
  intros [Hpos Hlt]. destruct z as [|p|p]; try lia.
  destruct (Z.le_gt_cases (Zpos (digits2_pos p)) 53) as [Hd|Hd].
  - assert (Hz : 0 < Zpos p < 2 ^ 53).
    { split; [lia|]. pose proof (Zdigits2_bound (Zpos p) ltac:(lia)) as Hb.
      apply Z.lt_le_trans with (2 ^ Zdigits2 (Zpos p)); [assumption|].
      apply Z.pow_le_mono_r; [lia | exact Hd]. }
    destruct (of_int_pos (Zpos p) Hz) as (m & e & Heq & Hdig & _).
    rewrite Heq. unfold above. rewrite Hdig. apply Zdigits2_pos. lia.
  - pose proof (int_digits p 63 ltac:(lia) Hlt) as Hd63.
    unfold F64.of_int, IEEE.of_Z, binary_normalize, binary_round.
    change F64.prec with 53. change F64.emax with 1024.
    rewrite fexp64. unfold shl_align.
    destruct (Z.max (Zpos (digits2_pos p) + 0 - 53) (-1074) - 0) as [|k|k] eqn:Hk;
      try lia.
    apply above_mono with (Zdigits2 (Zpos p) + 0); [simpl; lia|].
    apply binary_round_aux_above; [lia|]. simpl. lia.
Qed.

(** *** Division and multiplication keep magnitudes in check *)

(** A number divided by itself is exactly 1. *)
Lemma SFdiv_same (s : bool) (m : positive) (e : Z) :
  F64.div (S754_finite s m e) (S754_finite s m e) = F64.one.
Proof.
  unfold F64.div, SFdiv, SFdiv_core_binary.
  change F64.prec with 53. change F64.emax with 1024.
  rewrite !Z.sub_diag. change (fexp 53 1024 0) with (-53).
  change (Z.min (-53) 0) with (-53). change (0 - -53) with 53.
  cbv iota.
  rewrite Z.shiftl_mul_pow2 by lia.
  assert (Hq : Z.div_eucl (Zpos m * 2 ^ 53) (Zpos m) = (2 ^ 53, 0)).
  { transitivity ((Zpos m * 2 ^ 53) / Zpos m, (Zpos m * 2 ^ 53) mod Zpos m).
    - unfold Z.div, Z.modulo.
      destruct (Z.div_eucl (Zpos m * 2 ^ 53) (Zpos m)); reflexivity.
    - rewrite (Z.mul_comm (Zpos m)), Z.div_mul, Z.mod_mul by lia.
      reflexivity. }
  rewrite Hq.
  assert (Hloc : new_location (Zpos m) 0 = loc_Exact).
  { unfold new_location, new_location_even, new_location_odd.
    destruct (Z.even (Zpos m)); reflexivity. }
  rewrite Hloc. rewrite xorb_nilpotent. vm_compute. reflexivity.
Qed.

Lemma SFmul_below (kx ky : Z) (x y : spec_float) :
  below kx x -> below ky y -> 0 <= kx + ky <= 971 ->
  below (kx + ky + 1) (F64.mul x y).
Proof.
  intros Hx Hy Hk.
  destruct x as [sx|sx| |sx mx ex]; unfold below in Hx; try contradiction;
    destruct y as [sy|sy| |sy my ey]; unfold below in Hy; try contradiction;
    try exact I.
  unfold F64.mul, SFmul. change F64.prec with 53. change F64.emax with 1024.
  apply binary_round_aux_below; [lia| |lia].
  change (Zpos (mx * my)) with (Zpos mx * Zpos my).
  rewrite Zdigits2_log2 by lia.
  pose proof (Z.log2_mul_above (Zpos mx) (Zpos my) ltac:(lia) ltac:(lia)).
  rewrite !digits2_pos_log2 in *. lia.
Qed.

Lemma SFdiv_below (k : Z) (x y : spec_float) :
  below k x -> above 1 y -> 0 <= k <= 971 ->
  below (k + 1) (F64.div x y).
Proof.
  intros Hx Hy Hk.
  destruct y as [sy|sy| |sy my ey]; unfold above in Hy; try contradiction.
  destruct x as [sx|sx| |sx mx ex]; unfold below in Hx; try contradiction;
    try exact I.
  unfold F64.div, SFdiv. change F64.prec with 53. change F64.emax with 1024.
  unfold SFdiv_core_binary.
  change (Zdigits2 (Zpos mx)) with (Zpos (digits2_pos mx)).
  change (Zdigits2 (Zpos my)) with (Zpos (digits2_pos my)).
  set (dx := Zpos (digits2_pos mx)) in *.
  set (dy := Zpos (digits2_pos my)) in *.
  set (e' := Z.min (fexp 53 1024 (dx + ex - (dy + ey))) (ex - ey)).
  assert (He' : e' <= ex - ey) by (unfold e'; lia).
  assert (He'k : e' <= k) by (unfold e'; rewrite fexp64; lia).
  set (m' := match ex - ey - e' with
             | 0 => Zpos mx
             | Zpos _ => Z.shiftl (Zpos mx) (ex - ey - e')
             | Zneg _ => 0
             end).
  assert (Hm' : m' = Zpos mx * 2 ^ (ex - ey - e')).
  { unfold m'. destruct (ex - ey - e') as [|p|p] eqn:Hs; try lia.
    rewrite Z.shiftl_mul_pow2 by lia. reflexivity. }
  clearbody m'.
  pose proof (Z.div_eucl_eq m' (Zpos my) ltac:(lia)) as Heq.
  pose proof (Z.mod_pos_bound m' (Zpos my) ltac:(lia)) as Hb.
  assert (Hdiv : fst (Z.div_eucl m' (Zpos my)) = m' / Zpos my) by reflexivity.
  destruct (Z.div_eucl m' (Zpos my)) as [q r]. simpl in Hdiv. subst q.
  apply binary_round_aux_below; [| |lia].
  - apply Z.div_pos; [|lia]. rewrite Hm'.
    apply Z.mul_nonneg_nonneg; [lia|]. apply Z.pow_nonneg. lia.
  - destruct (Z.eq_dec (m' / Zpos my) 0) as [H0|Hne].
    + rewrite H0. simpl. lia.
    + assert (Hm'pos : 0 < m').
      { rewrite Hm'. apply Z.mul_pos_pos; [lia|]. apply Z.pow_pos_nonneg; lia. }
      assert (Hqpos : 0 < m' / Zpos my).
      { pose proof (Z.div_pos m' (Zpos my) ltac:(lia) ltac:(lia)). lia. }
      assert (Hmy : 2 ^ (dy - 1) <= Zpos my).
      { unfold dy. rewrite digits2_pos_log2.
        replace (Z.log2 (Zpos my) + 1 - 1) with (Z.log2 (Zpos my)) by lia.
        apply Z.log2_spec. lia. }
      assert (Hdy : 1 <= dy) by (unfold dy; lia).
      assert (Hle : m' / Zpos my <= Z.shiftr m' (dy - 1)).
      { rewrite Z.shiftr_div_pow2 by lia.
        apply Z.div_le_compat_l; [lia|]. split; [|assumption].
        apply Z.pow_pos_nonneg; lia. }
      pose proof (Zdigits2_mono (m' / Zpos my) (Z.shiftr m' (dy - 1)) ltac:(lia)) as Hmono.
      rewrite Zdigits2_shiftr in Hmono by lia.
      assert (Hdm' : Zdigits2 m' = dx + (ex - ey - e')).
      { rewrite Zdigits2_log2 by assumption. rewrite Hm'.
        rewrite Z.log2_mul_pow2 by lia. unfold dx.
        rewrite digits2_pos_log2. lia. }
      lia.
Qed.

(** *** [math.Min], [math.Max], [math.Floor] and the conversion to [int] *)

Lemma below_not_nan (k : Z) (x : spec_float) : below k x -> IEEE.is_nan x = false.
Proof. destruct x; simpl; intros H; try reflexivity; contradiction. Qed.

Lemma Min_below (k : Z) (x y : spec_float) :
  below k x -> below k y -> below k (IEEE.Min x y).
Proof.
  intros Hx Hy.
  destruct (Min_cases x y (below_not_nan k x Hx) (below_not_nan k y Hy))
    as [H|H]; rewrite H; assumption.
Qed.

Lemma Max_below (k : Z) (x y : spec_float) :
  below k x -> below k y -> below k (IEEE.Max x y).
Proof.
  intros Hx Hy.
  destruct (Max_cases x y (below_not_nan k x Hx) (below_not_nan k y Hy))
    as [H|H]; rewrite H; assumption.
Qed.

Lemma to_int_exact (x : spec_float) (v : Z) :
  IEEE.trunc x = Some v -> - 2 ^ 63 <= v < 2 ^ 63 -> F64.to_int x = v.
Proof.
  intros Ht Hv. unfold F64.to_int, IEEE.to_int. rewrite Ht.
  unfold GoInt.in_rangeb. change (64 - 1) with 63.
  assert (H1 : (- 2 ^ 63 <=? v) = true) by (apply Z.leb_le; lia).
  assert (H2 : (v <? 2 ^ 63) = true) by (apply Z.ltb_lt; lia).
  rewrite H1, H2. reflexivity.
Qed.

Lemma Max_one_finite (s : bool) (m : positive) (e : Z) :
  IEEE.Max (S754_finite s m e) F64.one
  = if SFltb F64.one (S754_finite s m e) then S754_finite s m e else F64.one.
Proof. reflexivity. Qed.

Lemma to_int_one : F64.to_int F64.one = 1.
Proof. vm_compute. reflexivity. Qed.

(** [int(math.Max(math.Floor(y), 1))] is at least 1 for every finite [y]
    of magnitude under [2 ^ 52]. *)
Lemma to_int_Max_Floor (y : spec_float) :
  below 52 y -> 1 <= F64.to_int (IEEE.Max (F64.Floor y) F64.one).
Proof.
  intros Hy. destruct y as [s|s| |s m e]; unfold below in Hy; try contradiction.
  - destruct s; vm_compute; discriminate.
  - assert (Hmax : forall s' m' e' v,
              IEEE.trunc (S754_finite s' m' e') = Some v ->
              (s' = false -> 1 <= v < 2 ^ 63) ->
              1 <= F64.to_int (IEEE.Max (S754_finite s' m' e') F64.one)).
    { intros s' m' e' v Ht Hv. rewrite Max_one_finite.
      destruct (SFltb F64.one (S754_finite s' m' e')) eqn:Hlt;
        [|rewrite to_int_one; lia].
      destruct s'; [discriminate|].
      rewrite (to_int_exact _ v Ht); specialize (Hv eq_refl); lia. }
    assert (Hzero : forall s', 1 <= F64.to_int (IEEE.Max (S754_zero s') F64.one))
      by (intros [|]; vm_compute; discriminate).
    assert (Hbound : Zpos m < 2 ^ Zpos (digits2_pos m)).
    { change (Zpos (digits2_pos m)) with (Zdigits2 (Zpos m)).
      apply Zdigits2_bound. lia. }
    unfold F64.Floor, IEEE.Floor. destruct (0 <=? e) eqn:He.
    + apply Z.leb_le in He.
      apply (Hmax s m e (cond_Zopp s (Z.shiftl (Zpos m) e))); [reflexivity|].
      intros ->. simpl. rewrite Z.shiftl_mul_pow2 by assumption.
      assert (0 < 2 ^ e) by (apply Z.pow_pos_nonneg; lia).
      assert (Zpos m * 2 ^ e < 2 ^ 52).
      { apply Z.lt_le_trans with (2 ^ Zpos (digits2_pos m) * 2 ^ e); [nia|].
        rewrite <- Z.pow_add_r by lia. apply Z.pow_le_mono_r; lia. }
      assert (2 ^ 52 < 2 ^ 63) by (apply Z.pow_lt_mono_r; lia).
      nia.
    + apply Z.leb_gt in He.
      set (q := Z.shiftl (Zpos m) e).
      assert (Hq : 0 <= q < 2 ^ 52).
      { unfold q. rewrite <- (Z.opp_involutive e), Z.shiftl_opp_r.
        rewrite Z.shiftr_div_pow2 by lia.
        assert (0 < 2 ^ (- e)) by (apply Z.pow_pos_nonneg; lia).
        split; [apply Z.div_pos; lia|].
        apply Z.div_lt_upper_bound; [lia|].
        apply Z.lt_le_trans with (2 ^ Zpos (digits2_pos m)); [assumption|].
        rewrite <- Z.pow_add_r by lia. apply Z.pow_le_mono_r; lia. }
      clearbody q.
      set (z := if s then if Z.shiftl q (- e) =? Zpos m then - q else - (q + 1)
                else q).
      assert (Hz : - 2 ^ 52 <= z < 2 ^ 52).
      { unfold z. destruct s; [destruct (Z.shiftl q (- e) =? Zpos m)|]; lia. }
      clearbody z.
      change F64.prec with 53. change F64.emax with 1024.
      unfold binary_normalize.
      assert (H5253 : 2 ^ 52 < 2 ^ 53) by (apply Z.pow_lt_mono_r; lia).
      assert (H5363 : 2 ^ 53 < 2 ^ 63) by (apply Z.pow_lt_mono_r; lia).
      destruct z as [|p|p].
      * apply Hzero.
      * destruct (of_int_pos (Zpos p) ltac:(lia)) as (m' & e' & Heq & _ & Ht).
        unfold F64.of_int, IEEE.of_Z, binary_normalize in Heq, Ht.
        change F64.prec with 53 in Heq, Ht. change F64.emax with 1024 in Heq, Ht.
        rewrite Heq in Ht |- *.
        apply (Hmax false m' e' (Zpos p) Ht). intros _. lia.
      * destruct (binary_round_exact true p) as (m' & e' & Heq & _).
        { apply int_digits; lia. }
        rewrite Heq, Max_one_finite. simpl. rewrite to_int_one. lia.
Qed.

(** ** C7: the shrink plan *)

Lemma int32_digits (z : Z) : GoInt.in_range 32 z -> Zdigits2 z <= 32.
Proof.
  unfold GoInt.in_range. change (32 - 1) with 31. intros Hz.
  assert (H3132 : 2 ^ 31 < 2 ^ 32) by (apply Z.pow_lt_mono_r; lia).
  destruct z as [|p|p]; simpl; [lia| |].
  - apply int_digits; lia.
  - apply int_digits; lia.
Qed.

Lemma int32_53 (z : Z) : GoInt.in_range 32 z -> - 2 ^ 53 < z < 2 ^ 53.
Proof.
  unfold GoInt.in_range. change (32 - 1) with 31. intros Hz.
  assert (2 ^ 31 < 2 ^ 53) by (apply Z.pow_lt_mono_r; lia). lia.
Qed.

(** The ratio of an image dimension to a requested dimension. *)
Lemma ratio_below (a b : Z) :
  GoInt.in_range 32 a -> 0 < b < 2 ^ 63 ->
  below 33 (F64.div (F64.of_int a) (F64.of_int b)).
Proof.
  intros Ha Hb. apply (SFdiv_below 32); [| |lia].
  - apply below_mono with (Zdigits2 a); [apply int32_digits; assumption|].
    apply of_int_below. apply int32_53. assumption.
  - apply of_int_above. assumption.
Qed.

Lemma below_one (k : Z) : 1 <= k -> below k F64.one.
Proof. intros H. unfold below. simpl. lia. Qed.

(** Whatever branch [ScaleFactor] takes, its result is a zero or a finite
    number of magnitude under [2 ^ 33]. *)
Lemma ScaleFactor_below (c : CImage.t) (o : Options.t) :
  GoInt.in_range 32 (CImage.Xsize c) -> GoInt.in_range 32 (CImage.Ysize c) ->
  Options.Width o < 2 ^ 63 -> Options.Height o < 2 ^ 63 ->
  below 33 (fst (ScaleFactor c o)).
Proof.
  intros HX HY HW HH. unfold ScaleFactor.
  destruct (smallerThanBox c o); [apply below_one; lia|].
  destruct (Options.Width o >? 0) eqn:HWb;
    destruct (Options.Height o >? 0) eqn:HHb; simpl;
    try apply Z.gtb_lt in HWb; try apply Z.gtb_lt in HHb.
  - destruct (Options.Crop o); simpl;
      [apply Min_below | apply Max_below]; apply ratio_below;
      (assumption || lia).
  - destruct (Options.Crop o); simpl; [apply below_one; lia|].
    apply ratio_below; (assumption || lia).
  - destruct (Options.Crop o); simpl; [apply below_one; lia|].
    apply ratio_below; (assumption || lia).
  - apply below_one; lia.
Qed.

(** A window size above 3 is a positive number. *)
Lemma windowSize_above (w : Z) :
  GoInt.in_range 32 w -> IEEE.gtb (F64.of_int w) F64.three = true ->
  above 1 (F64.of_int w).
Proof.
  intros Hw Hgt. pose proof (int32_53 w Hw) as H53.
  destruct w as [|p|p].
  - vm_compute in Hgt. discriminate.
  - apply of_int_above.
    assert (2 ^ 53 < 2 ^ 63) by (apply Z.pow_lt_mono_r; lia). lia.
  - exfalso. unfold F64.of_int, IEEE.of_Z, binary_normalize in Hgt.
    change F64.prec with 53 in Hgt. change F64.emax with 1024 in Hgt.
    destruct (binary_round_exact true p) as (m & e & Heq & _).
    { apply int_digits; lia. }
    rewrite Heq in Hgt. vm_compute in Hgt. discriminate.
Qed.

Lemma shrinkOperand_below (factor : F64.t) (w : Z) :
  below 33 factor -> GoInt.in_range 32 w ->
  below 52 (shrinkOperand factor (F64.of_int w)).
Proof.
  intros Hf Hw. unfold shrinkOperand.
  destruct (IEEE.geb factor F64.two); simpl;
    [|apply below_mono with 33; [lia | assumption]].
  destruct (IEEE.gtb (F64.of_int w) F64.three) eqn:Hgt;
    [|apply below_mono with 33; [lia | assumption]].
  apply below_mono with 37; [lia|].
  apply (SFdiv_below 36); [| |lia].
  - apply (SFmul_below 33 2); [assumption| |lia].
    unfold below. simpl. lia.
  - apply windowSize_above; assumption.
Qed.

Lemma calculateShrink_unfold (E : Engine) (c : CImage.t) (o : Options.t) :
  smallerThanBox c o = false ->
  calculateShrink E c o
  = (F64.to_int
       (IEEE.Max
          (F64.Floor
             (shrinkOperand (fst (ScaleFactor c o))
                (vipsWindowSize E (Options.Interpolator (snd (ScaleFactor c o))))))
          F64.one),
     snd (ScaleFactor c o)).
Proof.
  intros Hbox. unfold calculateShrink. rewrite Hbox.
  destruct (ScaleFactor c o) as [factor o1]. unfold shrinkOperand. simpl.
  destruct (IEEE.geb factor F64.two
            && IEEE.gtb (vipsWindowSize E (Options.Interpolator o1)) F64.three);
    reflexivity.
Qed.

(** With both dimensions given [ScaleFactor] leaves the options alone. *)
Lemma ScaleFactor_fixed_state (c : CImage.t) (o : Options.t) :
  0 < Options.Width o -> 0 < Options.Height o -> snd (ScaleFactor c o) = o.
Proof.
  intros HW HH. unfold ScaleFactor.
  destruct (smallerThanBox c o); [reflexivity|].
  assert (HWb : (Options.Width o >? 0) = true) by (apply Z.gtb_lt; lia).
  assert (HHb : (Options.Height o >? 0) = true) by (apply Z.gtb_lt; lia).
  rewrite HWb, HHb. simpl. destruct (Options.Crop o); reflexivity.
Qed.

(** C7, as the code has it.  For an image whose dimensions are C [int]s,
    requested dimensions that are Go [int]s and an engine whose window sizes
    are C [int]s: [calculateShrink] returns an integer of at least 1, namely
    [int(max(floor(y), 1))] with [y = factor * 3 / windowSize] when
    [factor >= 2] and [windowSize > 3], else [y = factor];
    [calculateResidual] is 0 when the no-enlarge short-circuit applies and
    otherwise the binary64 quotient of [calculateShrink] by the
    [ScaleFactor] evaluated after it (the same [ScaleFactor] as before when
    both dimensions are given). *)
Theorem shrink_plan (E : Engine) (c : CImage.t) (o : Options.t) :
  GoInt.in_range 32 (CImage.Xsize c) ->
  GoInt.in_range 32 (CImage.Ysize c) ->
  GoInt.in_range 64 (Options.Width o) ->
  GoInt.in_range 64 (Options.Height o) ->
  (forall i, GoInt.in_range 32 (interpolator_window_size E i)) ->
  let shrink := fst (calculateShrink E c o) in
  let residual := fst (calculateResidual E c o) in
  1 <= shrink
  /\ (smallerThanBox c o = true -> shrink = 1 /\ residual = F64.zero)
  /\ (smallerThanBox c o = false ->
      shrink
      = F64.to_int
          (IEEE.Max
             (F64.Floor
                (shrinkOperand (fst (ScaleFactor c o))
                   (vipsWindowSize E (Options.Interpolator (snd (ScaleFactor c o))))))
             F64.one)
      /\ residual
         = F64.div (F64.of_int shrink)
             (fst (ScaleFactor c (snd (calculateShrink E c o))))
      /\ (0 < Options.Width o -> 0 < Options.Height o ->
          residual = F64.div (F64.of_int shrink) (fst (ScaleFactor c o)))).
Proof.
  intros HX HY HW HH Hwin shrink residual.
  assert (Hres : smallerThanBox c o = false ->
                 residual
                 = F64.div (F64.of_int shrink)
                     (fst (ScaleFactor c (snd (calculateShrink E c o))))).
  { intros Hbox. unfold residual, shrink, calculateResidual. rewrite Hbox.
    destruct (calculateShrink E c o) as [s o1]. simpl.
    destruct (ScaleFactor c o1) as [f o2]. reflexivity. }
  split; [|split].
  - unfold shrink. destruct (smallerThanBox c o) eqn:Hbox.
    + unfold calculateShrink. rewrite Hbox. simpl. lia.
    + rewrite calculateShrink_unfold by assumption. simpl.
      apply to_int_Max_Floor. apply shrinkOperand_below; [|apply Hwin].
      apply ScaleFactor_below; try assumption.
      * apply HW.
      * apply HH.
  - intros Hbox. unfold shrink, residual, calculateShrink, calculateResidual.
    rewrite Hbox. split; reflexivity.
  - intros Hbox. split; [|split].
    + unfold shrink. rewrite calculateShrink_unfold by assumption. reflexivity.
    + apply Hres. assumption.
    + intros HWp HHp. rewrite (Hres Hbox). f_equal.
      rewrite calculateShrink_unfold by assumption. simpl.
      rewrite ScaleFactor_fixed_state by assumption. reflexivity.
Qed.

(** C7 at a 400x400 image forced to 100x100 with the bilinear
    interpolator: factor 4, shrink 4, residual 1. *)
Lemma shrink_plan_example :
  let E := fakeEngine 1 [] in
  let c := CImage.mk 400 400 3 0 in
  let o := setInterpolator
             (setForce (setHeight (setWidth Options.zero 100) 100) true)
             Bilinear in
  1 <= fst (calculateShrink E c o)
  /\ fst (calculateShrink E c o) = 4
  /\ fst (calculateResidual E c o) = F64.one.
Proof.
  intros E c o.
  assert (Hr : forall w z, 32 <= w -> -5 <= z <= 400 -> GoInt.in_range w z).
  { intros w z Hw Hz. unfold GoInt.in_range.
    assert (400 < 2 ^ 31) by (vm_compute; reflexivity).
    assert (2 ^ 31 <= 2 ^ (w - 1)) by (apply Z.pow_le_mono_r; lia). lia. }
  destruct (shrink_plan E c o) as [H1 _].
  - apply Hr; simpl; lia.
  - apply Hr; simpl; lia.
  - apply Hr; simpl; lia.
  - apply Hr; simpl; lia.
  - intros i. apply Hr; [lia|]. destruct i; simpl; lia.
  - split; [exact H1|]. split; vm_compute; reflexivity.
Defined.

(** C7 as the spec words it fails: at that image the shrink times the
    residual is 4, sixteen times [1 / ScaleFactor = 1/4]. *)
Lemma shrink_times_residual_is_not_inverse_factor :
  let E := fakeEngine 1 [] in
  let c := CImage.mk 400 400 3 0 in
  let o := setInterpolator
             (setForce (setHeight (setWidth Options.zero 100) 100) true)
             Bilinear in
  let shrink := fst (calculateShrink E c o) in
  let residual := fst (calculateResidual E c o) in
  let factor := fst (ScaleFactor c o) in
  F64.mul (F64.of_int shrink) residual = F64.of_int 4
  /\ F64.div F64.one factor = F64.div F64.one (F64.of_int 4)
  /\ approximately (F64.mul (F64.of_int shrink) residual)
       (F64.div F64.one factor) = false.
Proof. intros E c o shrink residual factor. vm_compute. repeat split. Qed.

(** ** C3: the enlargement guard *)


Lemma of_int_div_same (z : Z) :
  0 < z -> GoInt.in_range 32 z ->
  F64.div (F64.of_int z) (F64.of_int z) = F64.one.
Proof.
  intros Hpos Hz. pose proof (int32_53 z Hz).
  destruct (of_int_pos z ltac:(lia)) as (m & e & Heq & _).
  rewrite Heq. apply SFdiv_same.
Qed.




(** The factor in the order of binary64: for dimensions that are C [int]s and Go
    [int]s the two ratios are numbers, so under [Crop] the factor is below
    both of them and under [Force] without [Crop] above both. *)
Lemma ScaleFactor_bounds_ratios (c : CImage.t) (o : Options.t) :
  GoInt.in_range 32 (CImage.Xsize c) -> GoInt.in_range 32 (CImage.Ysize c) ->
  0 < Options.Width o < 2 ^ 63 -> 0 < Options.Height o < 2 ^ 63 ->
  smallerThanBox c o = false ->
  let xfactor := F64.div (F64.of_int (CImage.Xsize c)) (F64.of_int (Options.Width o)) in
  let yfactor := F64.div (F64.of_int (CImage.Ysize c)) (F64.of_int (Options.Height o)) in
  let factor := fst (ScaleFactor c o) in
  (Options.Crop o = true ->
   SFleb factor xfactor = true /\ SFleb factor yfactor = true)
  /\ (Options.Crop o = false ->
      SFleb xfactor factor = true /\ SFleb yfactor factor = true).
Proof.
  intros HX HY HW HH Hbox xfactor yfactor factor.
  assert (Hxn : IEEE.is_nan xfactor = false)
    by (apply below_not_nan with 33, ratio_below; assumption).
  assert (Hyn : IEEE.is_nan yfactor = false)
    by (apply below_not_nan with 33, ratio_below; assumption).
  unfold factor, ScaleFactor. rewrite Hbox.
  assert (HWb : (Options.Width o >? 0) = true) by (apply Z.gtb_lt; lia).
  assert (HHb : (Options.Height o >? 0) = true) by (apply Z.gtb_lt; lia).
  rewrite HWb, HHb. simpl.
  split; intros HC; rewrite HC; simpl.
  - apply Min_lower_bound; assumption.
  - apply Max_upper_bound; assumption.
Qed.

(** ** C2: propagation of engine errors through [Process] *)

(** [if err != nil { return err }]: an error ends the function with that
    error, in the state the failing call left, and what follows is not run. *)
Lemma orReturn_error (m k : M (option error)) (w w' : World) (e : error) :
  m w = Returns (Some e) w' -> orReturn m k w = Returns (Some e) w'.
Proof. intros H. unfold orReturn, bind. rewrite H. reflexivity. Qed.

Lemma orReturn_nil (m k : M (option error)) (w w' : World) :
  m w = Returns None w' -> orReturn m k w = k w'.
Proof. intros H. unfold orReturn, bind. rewrite H. reflexivity. Qed.

(** The [Trim] case of [extractOrEmbedImage] reports no error when
    [vips_find_trim_bridge] fails: it returns [(nil, nil)]. *)
Lemma extractOrEmbedImage_drops_trim_error (E : Engine) (K : Constants)
  (o : Options.t) (w : World) (c : CImage.t) (msg : error) :
  VipsImage.Image (self w) = Some c ->
  Gravity_eqb (Options.Gravity o) GravitySmart = false ->
  Options.SmartCrop o = false -> Options.Crop o = false ->
  Options.Embed o = false -> Options.Trim o = true ->
  vips_find_trim_bridge E c (Options.Background o) (Options.Threshold o)
  = inr msg ->
  extractOrEmbedImage E K o w
  = Returns (None, None) (mkWorld (self w) (calls w ++ [CallFindTrim])).
Proof.
  intros Hc Hg Hs Hcr Hem Htr Hfail.
  unfold extractOrEmbedImage, bind, deref. rewrite Hc, Hg, Hs, Hcr, Hem, Htr.
  simpl. unfold vipsTrim, bind, getSelf, log. simpl. rewrite Hc, Hfail.
  reflexivity.
Qed.

(** C2 at a failing input: a PNG of 100x100 processed with [Trim] and
    [Gamma = 2], on an engine whose [vips_find_trim_bridge] fails.  [Process]
    returns nil, and the gamma stage runs after the failed call. *)
Theorem Process_continues_after_trim_error :
  let o := setGamma (setTrim Options.zero true) F64.two in
  observed (Process (fakeEngine 1 [OpFindTrim]) fakeConstants (loaded 100 100 o))
  = (Some None, [CallResize F64.one; CallFindTrim; CallGamma]).
Proof. vm_compute. reflexivity. Qed.

(** C2 at a second failing input: rotation by 90 with a flip, on an engine
    whose [vips_rotate_fill] fails.  [rotateAndFlipImage] goes on to flip
    the image, the flip overwrites the error, and [Process] completes. *)
Lemma Process_continues_after_rotate_error :
  let o := setGamma (setFlip (setRotate Options.zero 90) true) F64.two in
  observed (Process (fakeEngine 1 [OpRotate]) fakeConstants (loaded 100 100 o))
  = (Some None, [CallRotate 90; CallFlip Vertical; CallSave PNG; CallGamma]).
Proof. vm_compute. reflexivity. Qed.

(** For contrast, a failing resize does end [Process] with the engine's
    message, and no later stage runs. *)
Lemma Process_stops_at_resize_error :
  let o := setGamma (setTrim Options.zero true) F64.two in
  observed (Process (fakeEngine 1 [OpResize]) fakeConstants (loaded 100 100 o))
  = (Some (Some "resize failed"%string), [CallResize F64.one]).
Proof. vm_compute. reflexivity. Qed.

(** ** The nesting of [Process] *)

(** Without a watermark buffer [watermarkWithImage] returns at once: the
    nested [Process] is not reached.  The options [vipsDrawWatermark] gives
    to the watermark carry no buffer, which is why one level of nesting is
    all there is. *)
Lemma watermarkWithImage_without_buffer (E : Engine) (K : Constants)
  (nested nested' : M (option error)) (w : World) :
  WatermarkImage.Buf (Options.WatermarkImage (VipsImage.Options (self w))) = [] ->
  watermarkWithImage E K nested w = Returns None w
  /\ watermarkWithImage E K nested' w = Returns None w.
Proof.
  intros Hbuf. unfold watermarkWithImage, bind, getOptions.
  rewrite Hbuf. split; reflexivity.
Qed.

(** ** C9: the image watermark, through [vipsDrawWatermark] *)

(** C9.  Image-watermark placement in [vipsDrawWatermark].  On a loaded
    image [c], once the watermark buffer has been decoded and processed
    without an error into the image [wm], the one compositing call of
    [vipsDrawWatermark] is made at the [left] and [top] of the spec, as C
    integers: with [srcX], [srcY] the size of [c] and [wmX], [wmY] the size
    of [wm], in relative mode Left gives [(hOffset/100)·srcX], Right
    [srcX - (hOffset/100)·srcX - wmX], Centre [(srcX - wmX)/2], the same
    vertically for Top, Bottom and Centre, and in absolute mode the same
    without the percentage; the engine is called with these two numbers and
    its answer is what [vipsDrawWatermark] returns. *)
Theorem vipsDrawWatermark_placement (E : Engine) (K : Constants)
  (process : M (option error)) (o : WatermarkImage.t) (w w1 : World)
  (c image0 wm : CImage.t) (h v : Anchor) :
  let srcX := F32.of_int (CImage.Xsize c) in
  let srcY := F32.of_int (CImage.Ysize c) in
  let wmX := F32.of_int (CImage.Xsize wm) in
  let wmY := F32.of_int (CImage.Ysize wm) in
  let left :=
    F32.to_cint (specOffset (WatermarkImage.Relative o) h
                   (WatermarkImage.HOffset o) srcX wmX) in
  let top :=
    F32.to_cint (specOffset (WatermarkImage.Relative o) v
                   (WatermarkImage.VOffset o) srcY wmY) in
  let buf := WatermarkImage.Buf o in
  let ty := vipsImageType E buf in
  let wmWidth :=
    if WatermarkImage.Relative o
    then F32.to_int (F32.mul srcX (F32.div (WatermarkImage.Width o) F32.hundred))
    else F32.to_int (WatermarkImage.Width o) in
  let wmOptions :=
    setBackground
      (setEnlarge (setMaintainAspect
         (setForce (setWidth Options.zero wmWidth) false) true) false)
      (ColorBlack K) in
  VipsImage.Image (self w) = Some c ->
  WatermarkImage.HAlign o = horizontal h ->
  WatermarkImage.VAlign o = vertical v ->
  buf <> [] -> ty <> UNKNOWN ->
  vips_init_image E buf ty = inl image0 ->
  process (mkWorld (VipsImage.mk buf (Some image0) ty wmOptions)
             (calls w ++ [CallInitImage]))
  = Returns None w1 ->
  VipsImage.Image (self w1) = Some wm ->
  vipsDrawWatermark E K process o w
  = match vips_watermark_image E c wm left top (WatermarkImage.Opacity o)
            (GoInt.wrap 32 (WatermarkImage.BlendMode o)) with
    | inl image =>
        Returns None
          (mkWorld (VipsImage.with_Image (self w) (Some image))
             (calls w1 ++ [CallWatermarkImage left top]))
    | inr msg =>
        Returns (Some msg)
          (mkWorld (self w) (calls w1 ++ [CallWatermarkImage left top]))
    end.
Proof.
  intros srcX srcY wmX wmY left top buf ty wmWidth wmOptions
         Hc Hh Hv Hbuf Hty Hinit Hproc Hwm.
  unfold vipsDrawWatermark. unfold bind at 1. unfold getSelf at 1.
  rewrite Hc.
  fold srcX srcY. fold wmWidth. fold wmOptions.
  unfold bind at 1. unfold NewVipsImage. fold buf.
  destruct buf as [|b0 rest] eqn:Ebuf; [congruence|].
  fold ty.
  assert (Hne : ImageType_eqb ty UNKNOWN = false)
    by (destruct ty; try reflexivity; congruence).
  rewrite Hne.
  unfold bind at 1. unfold log at 1. cbn [self calls].
  rewrite Hinit. unfold ret at 1.
  unfold bind at 1. unfold on. cbn [self calls].
  rewrite Hproc. rewrite Hwm.
  fold wmX wmY.
  rewrite (watermarkPlacement_spec o srcX srcY wmX wmY h v Hh Hv).
  fold left top.
  unfold bind at 1. unfold log at 1. cbn [self calls].
  destruct (vips_watermark_image E c wm left top (WatermarkImage.Opacity o)
              (GoInt.wrap 32 (WatermarkImage.BlendMode o))) as [image|msg].
  - unfold bind, putImage, ret. reflexivity.
  - reflexivity.
Qed.

(** C9, the instance of the spec, through [vipsDrawWatermark] on the fake
    engine: a 1000x800 image and a watermark that decodes to 100x50,
    relative mode, Right at 10% and Bottom at 5%.  The compositing call is
    made at left 800, top 710. *)
Lemma vipsDrawWatermark_placement_example :
  let E := fakeEngine 1 [] in
  let o := WatermarkImage.mk jpegHeader F32.zero PositionRight PositionBottom
             (F32.of_int 10) (F32.of_int 5) (F32.of_int 10) true 0 in
  observed (vipsDrawWatermark E fakeConstants (Process E fakeConstants) o
              (loaded 1000 800 Options.zero))
  = (Some None, [CallInitImage; CallWatermarkImage 800 710]).
Proof.
  intros E o.
  set (wmOptions :=
         setBackground
           (setEnlarge (setMaintainAspect
              (setForce (setWidth Options.zero 100) false) true) false)
           (ColorBlack fakeConstants)).
  set (w0 := mkWorld (VipsImage.mk jpegHeader (Some (CImage.mk 100 50 3 100))
                        JPEG wmOptions) [CallInitImage]).
  set (w1 := match Process E fakeConstants w0 with
             | Returns _ w' | Crash _ w' => w'
             end).
  rewrite (vipsDrawWatermark_placement E fakeConstants
             (Process E fakeConstants) o (loaded 1000 800 Options.zero) w1
             (CImage.mk 1000 800 3 0) (CImage.mk 100 50 3 100)
             (CImage.mk 100 50 3 100) Far Far).
  - vm_compute. reflexivity.
  - reflexivity.
  - reflexivity.
  - reflexivity.
  - discriminate.
  - vm_compute. discriminate.
  - vm_compute. reflexivity.
  - vm_compute. reflexivity.
  - vm_compute. reflexivity.
Defined.

(** The whole pipeline on the same instance: a 1000x800 image with an
    image watermark, relative mode, 10% wide, Right at 10% and Bottom at 5%.
    The watermark is loaded (100x50), processed by the nested [Process]
    without any engine call and composited at left 800, top 710. *)
Lemma Process_places_image_watermark :
  let wm := WatermarkImage.mk jpegHeader F32.zero PositionRight PositionBottom
              (F32.of_int 10) (F32.of_int 5) (F32.of_int 10) true 0 in
  let o := setWatermarkImage Options.zero wm in
  observed (Process (fakeEngine 1 []) fakeConstants (loaded 1000 800 o))
  = (Some None, [CallInitImage; CallWatermarkImage 800 710]).
Proof. vm_compute. reflexivity. Qed.

(** ** One level of nesting is all [Process] needs *)

(** *** The stages before the image watermark leave the request alone *)

Lemma keeps_ret {A : Type} (x : WatermarkImage.t) (a : A) : keeps x (ret a).
Proof. intros w Hw. exact Hw. Qed.

Lemma keeps_panic {A : Type} (x : WatermarkImage.t) (f : Fault) :
  keeps x (@panic A f).
Proof. intros w Hw. exact Hw. Qed.

Lemma keeps_bind {A B : Type} (x : WatermarkImage.t) (m : M A) (k : A -> M B) :
  keeps x m -> (forall a, keeps x (k a)) -> keeps x (bind m k).
Proof.
  intros Hm Hk w Hw. unfold bind. specialize (Hm w Hw).
  destruct (m w) as [a w'|f w']; [apply Hk|]; assumption.
Qed.

(** What [getSelf] and [getOptions] hand over is known to carry [x]. *)
Lemma keeps_bind_getSelf {B : Type} (x : WatermarkImage.t)
  (k : VipsImage.t -> M B) :
  (forall img, Options.WatermarkImage (VipsImage.Options img) = x -> keeps x (k img)) ->
  keeps x (bind getSelf k).
Proof. intros Hk w Hw. unfold bind, getSelf. apply Hk; assumption. Qed.

Lemma keeps_bind_getOptions {B : Type} (x : WatermarkImage.t)
  (k : Options.t -> M B) :
  (forall o, Options.WatermarkImage o = x -> keeps x (k o)) ->
  keeps x (bind getOptions k).
Proof. intros Hk w Hw. unfold bind, getOptions. apply Hk; assumption. Qed.

Lemma keeps_putOptions (x : WatermarkImage.t) (o : Options.t) :
  Options.WatermarkImage o = x -> keeps x (putOptions o).
Proof. intros Ho w Hw. exact Ho. Qed.

Lemma keeps_putImage (x : WatermarkImage.t) (c : option CImage.t) :
  keeps x (putImage c).
Proof. intros w Hw. exact Hw. Qed.

Lemma keeps_putBuffer (x : WatermarkImage.t) (b : list byte) :
  keeps x (putBuffer b).
Proof. intros w Hw. exact Hw. Qed.

Lemma keeps_log (x : WatermarkImage.t) (c : Call) : keeps x (log c).
Proof. intros w Hw. exact Hw. Qed.

Lemma keeps_deref (x : WatermarkImage.t) : keeps x deref.
Proof.
  intros w Hw. unfold deref. destruct (VipsImage.Image (self w)); exact Hw.
Qed.

Lemma keeps_on {A : Type} (x : WatermarkImage.t) (i : VipsImage.t) (m : M A) :
  keeps x (on i m).
Proof.
  intros w Hw. unfold on.
  destruct (m (mkWorld i (calls w))) as [a w'|f w']; exact Hw.
Qed.

Lemma keeps_orReturn (x : WatermarkImage.t) (m k : M (option error)) :
  keeps x m -> keeps x k -> keeps x (orReturn m k).
Proof.
  intros Hm Hk. unfold orReturn. apply keeps_bind; [assumption|].
  intros [e|]; [apply keeps_ret | assumption].
Qed.

Create HintDb keeps.
#[local] Hint Resolve keeps_ret keeps_panic keeps_putImage keeps_putBuffer
  keeps_log keeps_deref keeps_on : keeps.

(** The assignments the planner makes never touch the watermark. *)
Lemma setters_keep (o : Options.t) :
  (forall v, Options.WatermarkImage (setWidth o v) = Options.WatermarkImage o)
  /\ (forall v, Options.WatermarkImage (setHeight o v) = Options.WatermarkImage o)
  /\ (forall v, Options.WatermarkImage (setCrop o v) = Options.WatermarkImage o)
  /\ (forall v, Options.WatermarkImage (setEmbed o v) = Options.WatermarkImage o)
  /\ (forall v, Options.WatermarkImage (setForce o v) = Options.WatermarkImage o)
  /\ (forall v, Options.WatermarkImage (setRotate o v) = Options.WatermarkImage o)
  /\ (forall v, Options.WatermarkImage (setFlip o v) = Options.WatermarkImage o)
  /\ (forall v, Options.WatermarkImage (setType o v) = Options.WatermarkImage o)
  /\ (forall v, Options.WatermarkImage (setQuality o v) = Options.WatermarkImage o)
  /\ (forall v, Options.WatermarkImage (setCompression o v) = Options.WatermarkImage o)
  /\ (forall v, Options.WatermarkImage (setInterpretation o v) = Options.WatermarkImage o).
Proof. destruct o. repeat split. Qed.

(** Unfolds the setters inside [WatermarkImage (...)] and decides the
    conditionals on the way. *)
Ltac watermark_same :=
  repeat match goal with
         | |- context [if ?b then _ else _] => destruct b
         | |- context [let '(_, _) := ?p in _] => destruct p
         end;
  repeat match goal with
         | |- context [Options.WatermarkImage (?f ?o ?v)] =>
             first
               [ rewrite (proj1 (setters_keep o))
               | rewrite (proj1 (proj2 (setters_keep o)))
               | rewrite (proj1 (proj2 (proj2 (setters_keep o))))
               | rewrite (proj1 (proj2 (proj2 (proj2 (setters_keep o)))))
               | rewrite (proj1 (proj2 (proj2 (proj2 (proj2 (setters_keep o))))))
               | rewrite (proj1 (proj2 (proj2 (proj2 (proj2 (proj2 (setters_keep o)))))))
               | rewrite (proj1 (proj2 (proj2 (proj2 (proj2 (proj2 (proj2 (setters_keep o))))))))
               | rewrite (proj1 (proj2 (proj2 (proj2 (proj2 (proj2 (proj2 (proj2 (setters_keep o)))))))))
               | rewrite (proj1 (proj2 (proj2 (proj2 (proj2 (proj2 (proj2 (proj2 (proj2 (setters_keep o))))))))))
               | rewrite (proj1 (proj2 (proj2 (proj2 (proj2 (proj2 (proj2 (proj2 (proj2 (proj2 (setters_keep o)))))))))))
               | rewrite (proj2 (proj2 (proj2 (proj2 (proj2 (proj2 (proj2 (proj2 (proj2 (proj2 (setters_keep o))))))))))) ]
         end;
  try reflexivity; try assumption.

Lemma applyDefaults_keeps (K : Constants) (img : VipsImage.t) :
  Options.WatermarkImage (applyDefaults K img)
  = Options.WatermarkImage (VipsImage.Options img).
Proof. unfold applyDefaults. watermark_same. Qed.

Lemma normalizeOperation_keeps (o : Options.t) :
  Options.WatermarkImage (normalizeOperation o) = Options.WatermarkImage o.
Proof. unfold normalizeOperation. watermark_same. Qed.

Lemma clampToSource_keeps (c : CImage.t) (o : Options.t) :
  Options.WatermarkImage (clampToSource c o) = Options.WatermarkImage o.
Proof. unfold clampToSource. watermark_same. Qed.

Lemma ScaleFactor_keeps (c : CImage.t) (o : Options.t) :
  Options.WatermarkImage (snd (ScaleFactor c o)) = Options.WatermarkImage o.
Proof. unfold ScaleFactor. watermark_same; simpl; watermark_same. Qed.

Lemma calculateShrink_keeps (E : Engine) (c : CImage.t) (o : Options.t) :
  Options.WatermarkImage (snd (calculateShrink E c o)) = Options.WatermarkImage o.
Proof.
  unfold calculateShrink. destruct (smallerThanBox c o); [reflexivity|].
  pose proof (ScaleFactor_keeps c o) as H.
  destruct (ScaleFactor c o) as [f o1]. exact H.
Qed.

Lemma calculateResidual_keeps (E : Engine) (c : CImage.t) (o : Options.t) :
  Options.WatermarkImage (snd (calculateResidual E c o)) = Options.WatermarkImage o.
Proof.
  unfold calculateResidual. destruct (smallerThanBox c o); [reflexivity|].
  pose proof (calculateShrink_keeps E c o) as H1.
  destruct (calculateShrink E c o) as [s o1].
  pose proof (ScaleFactor_keeps c o1) as H2.
  destruct (ScaleFactor c o1) as [f o2]. simpl in *. congruence.
Qed.

(** Walks through a stage: binds, early returns, conditionals. *)
Ltac keeps_tac :=
  repeat first
    [ progress auto with keeps
    | apply keeps_bind_getSelf; intros ? ?
    | apply keeps_bind_getOptions; intros ? ?
    | apply keeps_orReturn
    | apply keeps_bind; [ | intros ? ]
    | apply keeps_putOptions; solve [watermark_same]
    | match goal with
      | |- keeps _ (if ?b then _ else _) => destruct b
      | |- keeps _ (match ?e with _ => _ end) => destruct e
      end ].

Section Keeps.

Variable E : Engine.
Variable K : Constants.
Variable x : WatermarkImage.t.

Lemma keeps_planning {A : Type} (f : CImage.t -> Options.t -> A * Options.t) :
  (forall c o, Options.WatermarkImage (snd (f c o)) = Options.WatermarkImage o) ->
  keeps x (planning f).
Proof.
  intros Hf w Hw. unfold planning, bind, deref, getOptions.
  destruct (VipsImage.Image (self w)) as [c|]; [|exact Hw].
  pose proof (Hf c (VipsImage.Options (self w))) as Hco.
  destruct (f c (VipsImage.Options (self w))) as [a o']. simpl in *.
  unfold requestedWatermark in *. simpl. congruence.
Qed.

Lemma keeps_replacing (call : Call) (op : CImage.t -> cresult CImage.t) :
  keeps x (replacing call op).
Proof. unfold replacing. keeps_tac. Qed.
#[local] Hint Resolve keeps_replacing : keeps.

Lemma keeps_vipsRotate (angle : Angle) : keeps x (vipsRotate E angle).
Proof. unfold vipsRotate. keeps_tac. Qed.

Lemma keeps_vipsFlip (d : Direction) : keeps x (vipsFlip E d).
Proof. unfold vipsFlip. keeps_tac. Qed.

Lemma keeps_vipsZoom (zoom : Z) : keeps x (vipsZoom E zoom).
Proof. unfold vipsZoom. keeps_tac. Qed.

Lemma keeps_vipsShrink (shrink : Z) : keeps x (vipsShrink E shrink).
Proof. unfold vipsShrink. keeps_tac. Qed.

Lemma keeps_vipsResize (scale : F64.t) (i : Interpolator) :
  keeps x (vipsResize E scale i).
Proof. unfold vipsResize. keeps_tac. Qed.

Lemma keeps_vipsSmartCrop (width height : Z) :
  keeps x (vipsSmartCrop E K width height).
Proof. unfold vipsSmartCrop. keeps_tac. Qed.

Lemma keeps_vipsEmbed (l t w h extend : Z) (background : Color.t) :
  keeps x (vipsEmbed E K l t w h extend background).
Proof. unfold vipsEmbed. keeps_tac. Qed.

Lemma keeps_vipsGaussianBlur (o : GaussianBlur.t) :
  keeps x (vipsGaussianBlur E o).
Proof. unfold vipsGaussianBlur. keeps_tac. Qed.

Lemma keeps_vipsSharpen (o : Sharpen.t) : keeps x (vipsSharpen E o).
Proof. unfold vipsSharpen. keeps_tac. Qed.

Lemma keeps_vipsWatermark (w : Watermark.t) : keeps x (vipsWatermark E w).
Proof. unfold vipsWatermark. keeps_tac. Qed.

Lemma keeps_getImageBuffer : keeps x (getImageBuffer E).
Proof. unfold getImageBuffer. keeps_tac. Qed.

Lemma keeps_reloading (call : Call) (load : list byte -> cresult CImage.t) :
  keeps x (reloading call load).
Proof. unfold reloading. keeps_tac. Qed.
#[local] Hint Resolve keeps_reloading : keeps.

Lemma keeps_vipsShrinkJpeg (shrink : Z) : keeps x (vipsShrinkJpeg E shrink).
Proof. unfold vipsShrinkJpeg. keeps_tac. Qed.

Lemma keeps_vipsShrinkWebp (shrink : Z) : keeps x (vipsShrinkWebp E shrink).
Proof. unfold vipsShrinkWebp. keeps_tac. Qed.

Lemma keeps_vipsTrim (background : Color.t) (threshold : F64.t) :
  keeps x (vipsTrim E background threshold).
Proof. unfold vipsTrim. keeps_tac. Qed.

Lemma keeps_vipsExtract (l t w h : F32.t) : keeps x (vipsExtract E K l t w h).
Proof. unfold vipsExtract. keeps_tac. Qed.

#[local] Hint Resolve keeps_vipsRotate keeps_vipsFlip keeps_vipsZoom keeps_vipsShrink
  keeps_vipsResize keeps_vipsSmartCrop keeps_vipsEmbed keeps_vipsGaussianBlur
  keeps_vipsSharpen keeps_vipsWatermark keeps_getImageBuffer
  keeps_vipsShrinkJpeg keeps_vipsShrinkWebp keeps_vipsTrim keeps_vipsExtract
  : keeps.

Lemma keeps_rotateAndFlipImage (additive : bool) :
  keeps x (rotateAndFlipImage E additive).
Proof. unfold rotateAndFlipImage. keeps_tac. Qed.

Lemma keeps_zoomImage : keeps x (zoomImage E).
Proof. unfold zoomImage. keeps_tac. Qed.

Lemma keeps_shrinkImage (o : Options.t) (residual : F64.t) (shrink : Z) :
  keeps x (shrinkImage E o residual shrink).
Proof. unfold shrinkImage. keeps_tac. Qed.

Lemma keeps_ScaleFactor : keeps x (planning ScaleFactor).
Proof. apply keeps_planning, ScaleFactor_keeps. Qed.

Lemma keeps_calculateShrink : keeps x (planning (calculateShrink E)).
Proof. apply keeps_planning, calculateShrink_keeps. Qed.

Lemma keeps_calculateResidual : keeps x (planning (calculateResidual E)).
Proof. apply keeps_planning, calculateResidual_keeps. Qed.

#[local] Hint Resolve keeps_rotateAndFlipImage keeps_zoomImage keeps_shrinkImage
  keeps_ScaleFactor keeps_calculateShrink keeps_calculateResidual : keeps.

Lemma keeps_shrinkOnLoad : keeps x (shrinkOnLoad E).
Proof. unfold shrinkOnLoad. keeps_tac. Qed.

Lemma keeps_extractOrEmbedImage (o : Options.t) :
  keeps x (extractOrEmbedImage E K o).
Proof. unfold extractOrEmbedImage. keeps_tac. Qed.
#[local] Hint Resolve keeps_shrinkOnLoad keeps_extractOrEmbedImage : keeps.

Lemma keeps_transformImage (shrink : Z) (residual : F64.t) :
  keeps x (transformImage E K shrink residual).
Proof. unfold transformImage. keeps_tac. Qed.
#[local] Hint Resolve keeps_transformImage : keeps.

Lemma keeps_transformStage (shrink : Z) (residual : F64.t) :
  keeps x (transformStage E K shrink residual).
Proof. unfold transformStage. keeps_tac. Qed.

Lemma keeps_applyEffects : keeps x (applyEffects E).
Proof. unfold applyEffects. keeps_tac. Qed.

Lemma keeps_watermarkWithText : keeps x (watermarkWithText E K).
Proof. unfold watermarkWithText. keeps_tac. Qed.

End Keeps.

(** *** What follows a stage that keeps the request *)

Lemma bind_cong_keeps {A B : Type} (x : WatermarkImage.t) (m : M A)
  (k1 k2 : A -> M B) (w : World) :
  keeps x m -> requestedWatermark w = x ->
  (forall a w', requestedWatermark w' = x -> k1 a w' = k2 a w') ->
  bind m k1 w = bind m k2 w.
Proof.
  intros Hm Hw Hk. unfold bind. specialize (Hm w Hw).
  destruct (m w) as [a w'|f w']; [apply Hk; assumption | reflexivity].
Qed.

Lemma bind_cong_getSelf {B : Type} (x : WatermarkImage.t)
  (k1 k2 : VipsImage.t -> M B) (w : World) :
  requestedWatermark w = x ->
  (forall img w', Options.WatermarkImage (VipsImage.Options img) = x ->
                  requestedWatermark w' = x -> k1 img w' = k2 img w') ->
  bind getSelf k1 w = bind getSelf k2 w.
Proof. intros Hw Hk. unfold bind, getSelf. apply Hk; assumption. Qed.

Lemma bind_cong_getOptions {B : Type} (x : WatermarkImage.t)
  (k1 k2 : Options.t -> M B) (w : World) :
  requestedWatermark w = x ->
  (forall o w', Options.WatermarkImage o = x ->
                requestedWatermark w' = x -> k1 o w' = k2 o w') ->
  bind getOptions k1 w = bind getOptions k2 w.
Proof. intros Hw Hk. unfold bind, getOptions. apply Hk; assumption. Qed.

Lemma orReturn_cong_keeps (x : WatermarkImage.t) (m k1 k2 : M (option error))
  (w : World) :
  keeps x m -> requestedWatermark w = x ->
  (forall w', requestedWatermark w' = x -> k1 w' = k2 w') ->
  orReturn m k1 w = orReturn m k2 w.
Proof.
  intros Hm Hw Hk. unfold orReturn.
  apply bind_cong_keeps with x; [assumption..|].
  intros [e|] w' Hw'; [reflexivity | apply Hk; assumption].
Qed.

(** With no watermark buffer in the options, [Process] does not depend on
    what a nested [Process] would do. *)
Lemma Process_body_without_watermark (E : Engine) (K : Constants)
  (n1 n2 : M (option error)) (w : World) :
  WatermarkImage.Buf (requestedWatermark w) = [] ->
  Process_body E K n1 w = Process_body E K n2 w.
Proof.
  intros Hbuf. remember (requestedWatermark w) as x eqn:Hx. symmetry in Hx.
  unfold Process_body.
  apply bind_cong_getSelf with x; [assumption|]. intros img w0 Himg Hw0.
  apply bind_cong_keeps with x;
    [apply keeps_putOptions; rewrite applyDefaults_keeps; assumption
    | assumption |].
  intros _ w1 Hw1.
  apply bind_cong_getOptions with x; [assumption|]. intros o w2 Ho Hw2.
  destruct (negb (IsTypeSupported E (Options.Type_ o))); [reflexivity|].
  apply bind_cong_keeps with x; [apply keeps_rotateAndFlipImage | assumption |].
  intros [rotated err] w3 Hw3.
  apply orReturn_cong_keeps with x; [apply keeps_ret | assumption |].
  intros w4 Hw4.
  apply orReturn_cong_keeps with x; [|assumption|].
  { destruct rotated; [|apply keeps_ret].
    apply keeps_bind; [apply keeps_getImageBuffer|].
    intros [buf e]. apply keeps_bind; [apply keeps_putBuffer|].
    intros _. apply keeps_ret. }
  intros w5 Hw5.
  apply bind_cong_getOptions with x; [assumption|]. intros o1 w6 Ho1 Hw6.
  apply bind_cong_keeps with x;
    [apply keeps_putOptions; rewrite normalizeOperation_keeps; assumption
    | assumption |].
  intros _ w7 Hw7.
  apply bind_cong_keeps with x; [apply keeps_deref | assumption |].
  intros c w8 Hw8.
  apply bind_cong_getOptions with x; [assumption|]. intros o2 w9 Ho2 Hw9.
  apply bind_cong_keeps with x;
    [apply keeps_putOptions; rewrite clampToSource_keeps; assumption
    | assumption |].
  intros _ w10 Hw10.
  apply bind_cong_keeps with x; [apply keeps_ScaleFactor | assumption |].
  intros factor w11 Hw11.
  apply bind_cong_keeps with x; [apply keeps_calculateShrink | assumption |].
  intros shrink w12 Hw12.
  apply bind_cong_keeps with x; [apply keeps_calculateResidual | assumption |].
  intros residual w13 Hw13.
  apply bind_cong_getSelf with x; [assumption|]. intros img1 w14 Himg1 Hw14.
  apply bind_cong_keeps with x; [|assumption|].
  { match goal with |- keeps _ (if ?b then _ else _) => destruct b end;
      [|apply keeps_ret].
    apply keeps_bind; [apply keeps_shrinkOnLoad|].
    intros [f e]. destruct e; apply keeps_ret. }
  intros [[shrink' residual'] err'] w15 Hw15.
  apply orReturn_cong_keeps with x; [apply keeps_ret | assumption |].
  intros w16 Hw16.
  apply orReturn_cong_keeps with x; [apply keeps_zoomImage | assumption |].
  intros w17 Hw17.
  apply orReturn_cong_keeps with x; [apply keeps_transformStage | assumption |].
  intros w18 Hw18.
  apply bind_cong_getOptions with x; [assumption|]. intros o3 w19 Ho3 Hw19.
  apply orReturn_cong_keeps with x; [|assumption|].
  { destruct (shouldApplyEffects o3); [apply keeps_applyEffects | apply keeps_ret]. }
  intros w20 Hw20.
  apply orReturn_cong_keeps with x; [apply keeps_watermarkWithText | assumption |].
  intros w21 Hw21.
  unfold orReturn, bind.
  assert (Hb : WatermarkImage.Buf
                 (Options.WatermarkImage (VipsImage.Options (self w21))) = []).
  { unfold requestedWatermark in Hw21. rewrite Hw21. assumption. }
  destruct (watermarkWithImage_without_buffer E K n1 n2 w21 Hb) as [H1 H2].
  rewrite H1, H2. reflexivity.
Qed.

(** *** One level of nesting is all there is *)

Lemma bind_cong {A B : Type} (m : M A) (k1 k2 : A -> M B) (w : World) :
  (forall a w', m w = Returns a w' -> k1 a w' = k2 a w') ->
  bind m k1 w = bind m k2 w.
Proof.
  intros Hk. unfold bind.
  destruct (m w) as [a w'|f w']; [apply Hk; reflexivity | reflexivity].
Qed.

Lemma bind_cong_l {A B : Type} (m1 m2 : M A) (k : A -> M B) (w : World) :
  m1 w = m2 w -> bind m1 k w = bind m2 k w.
Proof. intros Hm. unfold bind. rewrite Hm. reflexivity. Qed.

Lemma orReturn_cong (m k1 k2 : M (option error)) (w : World) :
  (forall w', k1 w' = k2 w') -> orReturn m k1 w = orReturn m k2 w.
Proof.
  intros Hk. unfold orReturn. apply bind_cong.
  intros [e|] w' _; [reflexivity | apply Hk].
Qed.

Lemma orReturn_cong_l (m1 m2 k : M (option error)) (w : World) :
  m1 w = m2 w -> orReturn m1 k w = orReturn m2 k w.
Proof. intros Hm. unfold orReturn. apply bind_cong_l. assumption. Qed.

(** The image [NewVipsImage] returns carries the options it was given. *)
Lemma NewVipsImage_options (E : Engine) (buf : list byte) (opt : Options.t)
  (w w' : World) (v : VipsImage.t) (e : option error) :
  NewVipsImage E buf opt w = Returns (Some v, e) w' ->
  VipsImage.Options v = opt.
Proof.
  unfold NewVipsImage. destruct buf as [|b buf]; [discriminate|].
  destruct (ImageType_eqb _ UNKNOWN); [discriminate|].
  unfold bind, log.
  destruct (vips_init_image E (b :: buf) _) as [image|msg];
    unfold ret; intros H; inversion H; reflexivity.
Qed.

(** [vipsDrawWatermark] runs the nested [Process] on an image whose options
    hold no watermark: two nested behaviours that agree there are
    indistinguishable. *)
Lemma vipsDrawWatermark_nested (E : Engine) (K : Constants)
  (n1 n2 : M (option error)) (o : WatermarkImage.t) (w : World) :
  (forall w0, WatermarkImage.Buf (requestedWatermark w0) = [] -> n1 w0 = n2 w0) ->
  vipsDrawWatermark E K n1 o w = vipsDrawWatermark E K n2 o w.
Proof.
  intros Hn. unfold vipsDrawWatermark.
  apply bind_cong. intros img w0 _.
  destruct (VipsImage.Image img) as [c|]; [|reflexivity].
  apply bind_cong. intros [[v|] [e|]] w1 Hnew; try reflexivity.
  apply NewVipsImage_options in Hnew.
  apply bind_cong_l. unfold on.
  rewrite Hn; [reflexivity|].
  unfold requestedWatermark. cbn [self]. rewrite Hnew. reflexivity.
Qed.

Lemma watermarkWithImage_nested (E : Engine) (K : Constants)
  (n1 n2 : M (option error)) (w : World) :
  (forall w0, WatermarkImage.Buf (requestedWatermark w0) = [] -> n1 w0 = n2 w0) ->
  watermarkWithImage E K n1 w = watermarkWithImage E K n2 w.
Proof.
  intros Hn. unfold watermarkWithImage.
  apply bind_cong. intros o w0 _.
  destruct (WatermarkImage.Buf (Options.WatermarkImage o)); [reflexivity|].
  apply orReturn_cong_l. apply vipsDrawWatermark_nested. assumption.
Qed.

Lemma Process_body_nested (E : Engine) (K : Constants)
  (n1 n2 : M (option error)) (w : World) :
  (forall w0, WatermarkImage.Buf (requestedWatermark w0) = [] -> n1 w0 = n2 w0) ->
  Process_body E K n1 w = Process_body E K n2 w.
Proof.
  intros Hn. unfold Process_body.
  repeat lazymatch goal with
    | |- ?l = ?r => first
        [ constr_eq l r; reflexivity
        | lazymatch l with
          | orReturn (watermarkWithImage _ _ _) _ _ =>
              apply orReturn_cong_l, watermarkWithImage_nested; assumption
          | orReturn _ _ _ => apply orReturn_cong; intros ?
          | bind _ _ _ => apply bind_cong; intros ? ? _
          | (if ?b then _ else _) _ => destruct b
          | (let '(_, _) := ?p in _) _ => destruct p
          end ]
    end.
Qed.

(** Unfolding [Process] deeper than twice changes nothing: the depth chosen
    for [Process] loses no behaviour of the recursive Go method. *)
Theorem Process_depth_enough (E : Engine) (K : Constants) (d : nat) (w : World) :
  Process_depth E K (S (S d)) w = Process E K w.
Proof.
  unfold Process. cbn [Process_depth].
  apply Process_body_nested. intros w0 Hbuf.
  apply Process_body_without_watermark. assumption.
Qed.

(* ================================================================== *)
(** ** Image types: names, tables and detection *)

(** *** The tables *)

(** [ImageTypeName] reads the table [ImageTypes]. *)
Lemma ImageTypeName_table (t : ImageType) :
  ImageTypeName t
  = match find (fun kv => ImageType_eqb (fst kv) t) ImageTypes with
    | Some kv => snd kv
    | None => "unknown"%string
    end.
Proof. destruct t; reflexivity. Qed.

Lemma lookupName_missing {A : Type} (table : list (string * A)) (zero : A)
  (key : string) :
  ~ In key (map fst table) -> lookupName table zero key = zero.
Proof.
  unfold lookupName. induction table as [|[k v] table IH]; intros Hnot.
  - reflexivity.
  - simpl in *. destruct (String.eqb_spec k key) as [->|Hne].
    + exfalso. apply Hnot. left. reflexivity.
    + apply IH. intros Hin. apply Hnot. right. assumption.
Qed.

(** X1: decoding the name [ImageTypeName] gives to a type yields that type
    again, [UNKNOWN] included; a name that belongs to no type yields
    [UNKNOWN], and in neither case is an error reported. *)
Theorem ImageType_UnmarshalJSON_names (json : list byte -> string + error)
  (data : list byte) (s : string) (t0 : ImageType) :
  json data = inl s ->
  snd (ImageType_UnmarshalJSON json data t0) = None
  /\ (forall t, s = ImageTypeName t ->
      fst (ImageType_UnmarshalJSON json data t0) = t)
  /\ ((forall t, s <> ImageTypeName t) ->
      fst (ImageType_UnmarshalJSON json data t0) = UNKNOWN).
Proof.
  intros Hjson. unfold ImageType_UnmarshalJSON. rewrite Hjson.
  split; [reflexivity|]. split.
  - intros t ->. destruct t; reflexivity.
  - intros Hnone. apply lookupName_missing. simpl.
    intros [H|[H|[H|[H|[H|[H|[H|[H|[]]]]]]]]]; subst s.
    + apply (Hnone WEBP). reflexivity.
    + apply (Hnone JPEG). reflexivity.
    + apply (Hnone GIF). reflexivity.
    + apply (Hnone TIFF). reflexivity.
    + apply (Hnone PDF). reflexivity.
    + apply (Hnone PNG). reflexivity.
    + apply (Hnone SVG). reflexivity.
    + apply (Hnone MAGICK). reflexivity.
Qed.

Lemma ImageType_UnmarshalJSON_names_example :
  (fun _ : list byte => @inl string error "tiff"%string) [] = inl "tiff"%string
  /\ ImageType_UnmarshalJSON (fun _ => inl "tiff"%string) [] JPEG = (TIFF, None).
Proof.
  split; [reflexivity|].
  pose proof (ImageType_UnmarshalJSON_names (fun _ => inl "tiff"%string) []
                "tiff"%string JPEG eq_refl) as (He & Hname & _).
  specialize (Hname TIFF eq_refl).
  destruct (ImageType_UnmarshalJSON (fun _ => inl "tiff"%string) [] JPEG)
    as [t e].
  simpl in He, Hname. subst. reflexivity.
Defined.

Lemma lookupName_in {A : Type} (table : list (string * A)) (zero : A)
  (k : string) (v : A) :
  NoDup (map fst table) -> In (k, v) table -> lookupName table zero k = v.
Proof.
  unfold lookupName. induction table as [|[k' v'] table IH]; intros Hnd Hin.
  - destruct Hin.
  - simpl in *. inversion Hnd as [|? ? Hnot Hnd']; subst.
    destruct (String.eqb_spec k' k) as [->|Hne].
    + destruct Hin as [Heq|Hin]; [inversion Heq; reflexivity|].
      exfalso. apply Hnot. apply in_map_iff. exists (k, v). split; auto.
    + destruct Hin as [Heq|Hin]; [congruence|]. apply IH; assumption.
Qed.

Lemma blendModeToID_keys : NoDup (map fst blendModeToID).
Proof.
  apply (NoDup_count_occ' string_dec).
  intros x Hin. unfold blendModeToID in *. simpl in Hin.
  repeat (destruct Hin as [<-|Hin]; [vm_compute; reflexivity|]).
  destruct Hin.
Qed.

(** X2: a decoder error leaves the blend mode as it was; a decoded name is
    never refused: a name outside the table becomes [BlendClear] without an
    error, the result is always one of the 26 modes, and every mode has a
    name that decodes to it. *)
Theorem BlendMode_UnmarshalJSON_total (json : list byte -> string + error)
  (data : list byte) (b0 : BlendMode) :
  (forall err, json data = inr err ->
     BlendMode_UnmarshalJSON json data b0 = (b0, Some err))
  /\ (forall s, json data = inl s ->
        snd (BlendMode_UnmarshalJSON json data b0) = None
        /\ BlendClear <= fst (BlendMode_UnmarshalJSON json data b0) <= BlendLast
        /\ (~ In s (map fst blendModeToID) ->
            fst (BlendMode_UnmarshalJSON json data b0) = BlendClear))
  /\ (forall b, BlendClear <= b <= BlendLast ->
        exists s, forall data', json data' = inl s ->
          BlendMode_UnmarshalJSON json data' b0 = (b, None)).
Proof.
  split; [|split].
  - intros err H. unfold BlendMode_UnmarshalJSON. rewrite H. reflexivity.
  - intros s H. unfold BlendMode_UnmarshalJSON. rewrite H.
    split; [reflexivity|]. split.
    + cbn [fst]. unfold lookupName.
      destruct (find _ blendModeToID) as [[k v]|] eqn:Hfind;
        [|unfold BlendClear, BlendLast; simpl; lia].
      apply find_some in Hfind. destruct Hfind as [Hin _].
      cbn [snd].
      assert (Hall : forallb (fun kv : string * BlendMode =>
                                (0 <=? snd kv) && (snd kv <=? 25))
                       blendModeToID = true) by (vm_compute; reflexivity).
      rewrite forallb_forall in Hall. specialize (Hall _ Hin).
      cbn [snd] in Hall. apply andb_true_iff in Hall.
      destruct Hall as [H0 H25]. apply Z.leb_le in H0, H25.
      unfold BlendClear, BlendLast. lia.
    + intros Hnot. apply lookupName_missing. assumption.
  - intros b Hb. unfold BlendClear, BlendLast in Hb.
    assert (Hall : forall n, (n <= 25)%nat ->
              existsb (Z.eqb (Z.of_nat n)) (map snd blendModeToID) = true).
    { intros n Hn.
      do 26 (destruct n as [|n]; [vm_compute; reflexivity|]). lia. }
    assert (Hin : In b (map snd blendModeToID)).
    { specialize (Hall (Z.to_nat b) ltac:(lia)).
      rewrite Z2Nat.id in Hall by lia.
      apply existsb_exists in Hall. destruct Hall as (x & Hx & Heq).
      apply Z.eqb_eq in Heq. subst x. exact Hx. }
    apply in_map_iff in Hin. destruct Hin as ([s b'] & Hsnd & Hin).
    simpl in Hsnd. subst b'. exists s. intros data' H.
    unfold BlendMode_UnmarshalJSON. rewrite H. f_equal.
    apply lookupName_in; [apply blendModeToID_keys | assumption].
Qed.

Lemma BlendMode_UnmarshalJSON_example :
  BlendMode_UnmarshalJSON (fun _ => inl "multiplied"%string) [] BlendOver
  = (BlendClear, None).
Proof.
  pose proof (BlendMode_UnmarshalJSON_total (fun _ => inl "multiplied"%string)
                [] BlendOver) as (_ & H & _).
  destruct (H "multiplied"%string eq_refl) as (He & _ & Hz).
  assert (Hnot : ~ In "multiplied"%string (map fst blendModeToID)).
  { simpl. intros Hin.
    repeat (destruct Hin as [Hin|Hin]; [discriminate Hin|]). destruct Hin. }
  specialize (Hz Hnot).
  destruct (BlendMode_UnmarshalJSON (fun _ => inl "multiplied"%string) []
              BlendOver) as [b e].
  simpl in He, Hz. subst. reflexivity.
Defined.

(** *** Binary buffers *)

(** A byte, converted to a string and decoded again, is its own code
    point: [utf8.RuneError] cannot come out. *)
Lemma decode_stringOfByte (b : byte) :
  fst (DecodeRuneInString (stringOfByte (byteZ b))) = byteZ b.
Proof. destruct b; reflexivity. Qed.

Lemma byteZ_range (b : byte) : 0 <= byteZ b < 256.
Proof. destruct b; vm_compute; split; congruence. Qed.

Lemma isBinary_loop_spec (buf : list byte) (n i : nat) :
  (i + n <= List.length buf)%nat ->
  isBinary_loop buf i n
  = Some (existsb (fun b => byteZ b <=? 8) (firstn n (skipn i buf))).
Proof.
  revert i. induction n as [|n IH]; intros i Hlen.
  - reflexivity.
  - simpl isBinary_loop.
    destruct (nth_error buf i) as [b|] eqn:Hnth.
    + pose proof (decode_stringOfByte b) as Hdec.
      destruct (DecodeRuneInString (stringOfByte (byteZ b))) as [charCode sz].
      simpl in Hdec. subst charCode.
      assert (Hskip : skipn i buf = b :: skipn (S i) buf).
      { clear - Hnth. revert buf Hnth.
        induction i as [|i IHi]; intros [|x buf] Hnth; simpl in *;
          try discriminate.
        - congruence.
        - apply IHi. assumption. }
      rewrite Hskip. simpl firstn. simpl existsb.
      pose proof (byteZ_range b) as Hr.
      assert (Hne : (byteZ b =? 65533) = false) by (apply Z.eqb_neq; lia).
      rewrite Hne. simpl orb.
      destruct (byteZ b <=? 8); [reflexivity|].
      apply IH. lia.
    + apply nth_error_None in Hnth. lia.
Qed.

Lemma isBinary_defined (buf : list byte) : isBinary buf <> None.
Proof.
  unfold isBinary.
  destruct (Nat.ltb_spec (List.length buf) 24) as [Hlt|Hge];
    [discriminate|].
  rewrite isBinary_loop_spec by (simpl; lia). discriminate.
Qed.

(** X3: [isBinary] never indexes out of range, and it answers [true]
    exactly for a buffer of at least 24 bytes with a byte of value 8 or
    less among the first 24; bytes from [0x80] on, which are no valid UTF-8
    on their own, do not count. *)
Theorem isBinary_spec (buf : list byte) :
  isBinary buf
  = Some ((24 <=? List.length buf)%nat
          && existsb (fun b => byteZ b <=? 8) (firstn 24 buf)).
Proof.
  unfold isBinary.
  destruct (Nat.ltb_spec (List.length buf) 24) as [Hlt|Hge].
  - assert (H : (24 <=? List.length buf)%nat = false)
      by (apply Nat.leb_gt; assumption).
    rewrite H. reflexivity.
  - assert (H : (24 <=? List.length buf)%nat = true)
      by (apply Nat.leb_le; assumption).
    rewrite H. simpl andb.
    rewrite isBinary_loop_spec by (simpl; lia). reflexivity.
Qed.

(** *** The format of a buffer *)

Lemma andThen_some (a b : option bool) :
  a <> None -> b <> None -> andThen a b <> None.
Proof. destruct a as [[|]|]; simpl; congruence. Qed.

Lemma orElse_some (a b : option bool) :
  a <> None -> b <> None -> orElse a b <> None.
Proof. destruct a as [[|]|]; simpl; congruence. Qed.

Lemma byteIs_some (buf : list byte) (i : nat) (v : byte) :
  (i < List.length buf)%nat -> byteIs buf i v <> None.
Proof.
  intros Hlt. unfold byteIs.
  destruct (nth_error buf i) eqn:Hnth; [discriminate|].
  apply nth_error_None in Hnth. lia.
Qed.

Lemma firstOf_some (cases : list (option bool * ImageType)) :
  Forall (fun c => fst c <> None) cases -> firstOf cases <> None.
Proof.
  induction 1 as [|[c t] cases Hc Hall IH]; simpl; [discriminate|].
  destruct c as [[|]|]; simpl in *; congruence.
Qed.

Lemma andThen_true (a b : option bool) :
  andThen a b = Some true -> a = Some true /\ b = Some true.
Proof. destruct a as [[|]|]; simpl; intros H; try discriminate; auto. Qed.

Lemma firstOf_cases (P : ImageType -> Prop)
  (cases : list (option bool * ImageType)) (t : ImageType) :
  P UNKNOWN ->
  Forall (fun c => fst c = Some true -> P (snd c)) cases ->
  firstOf cases = Some t -> P t.
Proof.
  intros Hu Hall. induction Hall as [|[c t'] cases Hc Hall IH]; simpl.
  - intros H. inversion H. subst. assumption.
  - destruct c as [[|]|]; simpl in *; intros H.
    + inversion H. subst. apply Hc. reflexivity.
    + apply IH. assumption.
    + discriminate.
Qed.

Section DetectFacts.

Variable E : Engine.
Variable svgRegexMatch : list byte -> bool.
Variable vips_foreign_find_load_buffer : list byte -> string.

Local Notation vipsImageType :=
  (Detect.vipsImageType E svgRegexMatch vips_foreign_find_load_buffer).

Lemma vipsImageType_short (buf : list byte) :
  (List.length buf < 12)%nat -> vipsImageType buf = Some UNKNOWN.
Proof.
  intros Hlt. unfold Detect.vipsImageType.
  destruct (Nat.ltb_spec (List.length buf) 12) as [_|Hge]; [reflexivity|lia].
Qed.

Lemma vipsImageType_defined (buf : list byte) :
  exists t, vipsImageType buf = Some t.
Proof.
  unfold Detect.vipsImageType.
  destruct (Nat.ltb_spec (List.length buf) 12) as [Hlt|Hge];
    [eexists; reflexivity|].
  match goal with
  | |- exists t, ?x = Some t =>
      assert (H : x <> None); [|destruct x; [eexists; reflexivity|congruence]]
  end.
  apply firstOf_some.
  assert (Hsvg : Detect.IsSVGImage svgRegexMatch buf <> None).
  { unfold Detect.IsSVGImage.
    destruct (isBinary buf) as [bin|] eqn:Hbin;
      [|exfalso; exact (isBinary_defined buf Hbin)].
    simpl. destruct (negb bin); simpl; discriminate. }
  assert (Hread : Detect.readImageType vips_foreign_find_load_buffer buf
                  <> None).
  { unfold Detect.readImageType. destruct buf; [simpl in Hge; lia|].
    discriminate. }
  repeat first [apply Forall_nil | apply Forall_cons]; cbn [fst];
    repeat first
      [ assumption | discriminate | apply byteIs_some; lia
      | apply andThen_some | apply orElse_some ].
  destruct (Detect.readImageType _ buf); [discriminate | congruence].
Qed.

(** X4: [vipsImageType] never indexes out of range, whatever the buffer,
    and a buffer of fewer than 12 bytes is [UNKNOWN] even when it starts
    with the magic number of a format. *)
Theorem vipsImageType_total (buf : list byte) :
  (exists t, vipsImageType buf = Some t)
  /\ ((List.length buf < 12)%nat -> vipsImageType buf = Some UNKNOWN).
Proof.
  split.
  - apply vipsImageType_defined.
  - apply vipsImageType_short.
Qed.

(** X5: what [vipsImageType] answers is [UNKNOWN], [JPEG], [PNG], or a
    type the engine can load: JPEG and PNG are told by their magic numbers
    alone, every other format only after [IsTypeSupported]. *)
Theorem vipsImageType_supported (buf : list byte) (t : ImageType) :
  vipsImageType buf = Some t ->
  t = UNKNOWN \/ t = JPEG \/ t = PNG \/ IsTypeSupported E t = true.
Proof.
  unfold Detect.vipsImageType.
  destruct (List.length buf <? 12)%nat.
  - intros H. inversion H. auto.
  - apply (firstOf_cases
             (fun t => t = UNKNOWN \/ t = JPEG \/ t = PNG
                       \/ IsTypeSupported E t = true)); [auto|].
    repeat first [apply Forall_nil | apply Forall_cons]; cbn [fst snd];
      intros H; auto; apply andThen_true in H; destruct H as [H _];
      inversion H; auto.
Qed.

End DetectFacts.

Lemma vipsImageType_total_example :
  Detect.vipsImageType (fakeEngine 1 []) (fun _ => false)
    (fun _ => EmptyString) [xff; xd8; xff] = Some UNKNOWN.
Proof.
  apply (vipsImageType_total (fakeEngine 1 []) (fun _ => false)
           (fun _ => EmptyString) [xff; xd8; xff]).
  simpl. lia.
Defined.

Lemma vipsImageType_supported_example :
  let E := withTypeFind (fakeEngine 1 [])
             (fun t => match t with GIF => 1 | _ => 0 end) in
  let gif := [x47; x49; x46; x38; x39; x61; x01; x00; x01; x00; x00; x00] in
  let webp := [x52; x49; x46; x46; x00; x00; x00; x00; x57; x45; x42; x50] in
  Detect.vipsImageType E (fun _ => false) (fun _ => EmptyString) gif = Some GIF
  /\ IsTypeSupported E GIF = true
  /\ Detect.vipsImageType E (fun _ => false) (fun _ => EmptyString) webp
     = Some UNKNOWN.
Proof.
  intros E gif webp.
  assert (Hgif : Detect.vipsImageType E (fun _ => false)
                   (fun _ => EmptyString) gif = Some GIF) by reflexivity.
  split; [assumption|]. split; [|reflexivity].
  destruct (vipsImageType_supported E (fun _ => false) (fun _ => EmptyString)
              gif GIF Hgif) as [H|[H|[H|H]]];
    [discriminate H | discriminate H | discriminate H | exact H].
Defined.

(** The fake engine tells the format of a buffer as [vipsImageType] of the
    source does. *)
Lemma fakeEngine_detects (orientation : Z) (failing : list Op)
  (buf : list byte) :
  Detect.vipsImageType (fakeEngine orientation failing) (fun _ => false)
    (fun _ => EmptyString) buf
  = Some (vipsImageType (fakeEngine orientation failing) buf).
Proof.
  destruct (vipsImageType_defined (fakeEngine orientation failing)
              (fun _ => false) (fun _ => EmptyString) buf) as [t Ht].
  rewrite Ht. f_equal.
  change (vipsImageType (fakeEngine orientation failing) buf)
    with (match Detect.vipsImageType (fakeEngine orientation failing)
                  (fun _ => false) (fun _ => EmptyString) buf with
          | Some t => t
          | None => UNKNOWN
          end).
  rewrite Ht. reflexivity.
Qed.

(* ================================================================== *)
(** ** Loading an image *)

Section LoaderFacts.

Variable E : Engine.
Variable svgRegexMatch : list byte -> bool.
Variable vips_foreign_find_load_buffer : list byte -> string.

Local Notation vipsImageType :=
  (Detect.vipsImageType E svgRegexMatch vips_foreign_find_load_buffer).
Local Notation Load :=
  (Loader.Load E svgRegexMatch vips_foreign_find_load_buffer).
Local Notation vipsRead :=
  (Loader.vipsRead E svgRegexMatch vips_foreign_find_load_buffer).

(** What [vipsRead] does, by the format found and the engine's answer. *)
Lemma vipsRead_cases (buf : list byte) (w : World) :
  (vipsImageType buf = Some UNKNOWN
   /\ vipsRead (Some buf) w
      = Returns (Some "Unsupported image format"%string)
          (mkWorld (VipsImage.with_Buffer (self w) buf) (calls w)))
  \/ (exists t, vipsImageType buf = Some t /\ t <> UNKNOWN
      /\ (12 <= List.length buf)%nat
      /\ ((exists msg, vips_init_image E buf t = inr msg
           /\ vipsRead (Some buf) w
              = Returns (Some msg)
                  (mkWorld (VipsImage.with_Buffer (self w) [])
                     (calls w ++ [CallInitImage])))
          \/ (exists image, vips_init_image E buf t = inl image
              /\ vipsRead (Some buf) w
                 = Returns None
                     (mkWorld
                        (VipsImage.mk buf (Some image) t
                           (VipsImage.Options (self w)))
                        (calls w ++ [CallInitImage]))))).
Proof.
  destruct (vipsImageType_defined E svgRegexMatch
              vips_foreign_find_load_buffer buf) as [t Ht].
  pose proof (vipsImageType_short E svgRegexMatch
                vips_foreign_find_load_buffer buf) as Hshort.
  unfold Loader.vipsRead. unfold bind at 1. unfold putBuffer at 1.
  rewrite Ht.
  destruct t; try (left; split; reflexivity); right;
    (eexists; split; [reflexivity|]; split; [discriminate|];
     assert (Hlen : (12 <= List.length buf)%nat)
       by (destruct (Nat.lt_ge_cases (List.length buf) 12) as [Hlt|Hge];
             [specialize (Hshort Hlt); congruence | assumption]);
     split; [assumption|];
     destruct buf as [|b buf]; [simpl in Hlen; lia|];
     unfold bind, putBuffer, log, putImage, putType, ret;
     cbn [ImageType_eqb self calls];
     match goal with
     | |- context [vips_init_image E ?b ?t] =>
         destruct (vips_init_image E b t) as [image|msg]
     end;
     [right; eexists; split; reflexivity | left; eexists; split; reflexivity]).
Qed.

(** X6: [Load] panics on a nil buffer and on no other: given a buffer it
    returns, whatever the bytes, and an empty buffer is refused with [Image
    buffer is empty] before anything is touched. *)
Theorem Load_returns (w : World) :
  Load None w = Crash NilDereference w
  /\ (forall bytes, exists err w', Load (Some bytes) w = Returns err w')
  /\ Load (Some []) w = Returns (Some "Image buffer is empty"%string) w.
Proof.
  split; [reflexivity|]. split; [|reflexivity].
  intros bytes. unfold Loader.Load.
  destruct bytes as [|b buf]; [eexists; eexists; reflexivity|].
  cbn [List.length Nat.eqb]. unfold orReturn, bind.
  destruct (vipsRead_cases (b :: buf) w)
    as [[_ H]|(t & _ & _ & _ & [(msg & _ & H)|(image & _ & H)])];
    rewrite H; eexists; eexists; reflexivity.
Qed.

(** X7: after a [Load] that returned nil the receiver holds a decoded
    image, a type other than [UNKNOWN] and exactly the bytes given, of which
    there are at least 12; its options are untouched and the engine was
    asked once, to decode. *)
Theorem Load_success (buf : list byte) (w w' : World) :
  Load (Some buf) w = Returns None w' ->
  VipsImage.Image (self w') <> None
  /\ VipsImage.Type_ (self w') <> UNKNOWN
  /\ vipsImageType buf = Some (VipsImage.Type_ (self w'))
  /\ VipsImage.Buffer (self w') = buf
  /\ (12 <= List.length buf)%nat
  /\ VipsImage.Options (self w') = VipsImage.Options (self w)
  /\ calls w' = calls w ++ [CallInitImage].
Proof.
  unfold Loader.Load. destruct buf as [|b buf]; [discriminate|].
  cbn [List.length Nat.eqb]. unfold orReturn, bind.
  destruct (vipsRead_cases (b :: buf) w)
    as [[_ H]|(t & Ht & Hne & Hlen & [(msg & _ & H)|(image & _ & H)])];
    rewrite H; try discriminate.
  unfold ret. intros Heq. inversion Heq. subst w'. cbn.
  repeat split; try assumption; try reflexivity. discriminate.
Qed.

(** X8: a [Load] that returns an error keeps the image, the type and the
    options the receiver had, and makes at most the one decoding call; but
    unless the buffer was empty it has already replaced [Buffer], by the
    rejected bytes when the format is unknown and by nil when the engine
    fails to decode. *)
Theorem Load_failure (buf : list byte) (w w' : World) (e : error) :
  Load (Some buf) w = Returns (Some e) w' ->
  VipsImage.Image (self w') = VipsImage.Image (self w)
  /\ VipsImage.Type_ (self w') = VipsImage.Type_ (self w)
  /\ VipsImage.Options (self w') = VipsImage.Options (self w)
  /\ ((buf = [] /\ w' = w)
      \/ (buf <> [] /\ vipsImageType buf = Some UNKNOWN
          /\ VipsImage.Buffer (self w') = buf /\ calls w' = calls w)
      \/ (buf <> [] /\ VipsImage.Buffer (self w') = []
          /\ calls w' = calls w ++ [CallInitImage])).
Proof.
  unfold Loader.Load. destruct buf as [|b buf].
  - cbn [List.length Nat.eqb]. unfold ret. intros H. inversion H. subst.
    repeat split; try reflexivity. left. split; reflexivity.
  - cbn [List.length Nat.eqb]. unfold orReturn, bind.
    destruct (vipsRead_cases (b :: buf) w)
      as [[Ht H]|(t & Ht & Hne & Hlen & [(msg & _ & H)|(image & _ & H)])];
      rewrite H; unfold ret; intros Heq; inversion Heq; subst; cbn.
    + repeat split; try reflexivity. right. left.
      repeat split; try assumption; try reflexivity. discriminate.
    + repeat split; try reflexivity. right. right.
      repeat split; try reflexivity. discriminate.
Qed.

End LoaderFacts.

Lemma Load_returns_example :
  Loader.Load (fakeEngine 1 []) (fun _ => false) (fun _ => EmptyString) None
    (loaded 10 10 Options.zero)
  = Crash NilDereference (loaded 10 10 Options.zero).
Proof.
  apply (Load_returns (fakeEngine 1 []) (fun _ => false)
           (fun _ => EmptyString) (loaded 10 10 Options.zero)).
Defined.

(** The first bytes of a PNG file. *)
Lemma Load_success_example :
  let png := [x89; x50; x4e; x47; x0d; x0a; x1a; x0a; x00; x00; x00; x0d] in
  let w := mkWorld (VipsImage.mk [] None UNKNOWN Options.zero) [] in
  let w' := mkWorld (VipsImage.mk png (Some (CImage.mk 100 50 3 100)) PNG
                       Options.zero) [CallInitImage] in
  Loader.Load (fakeEngine 1 []) (fun _ => false) (fun _ => EmptyString) (Some png) w
  = Returns None w'
  /\ VipsImage.Type_ (self w') <> UNKNOWN.
Proof.
  intros png w w'.
  assert (H : Loader.Load (fakeEngine 1 []) (fun _ => false)
                (fun _ => EmptyString) (Some png) w = Returns None w')
    by reflexivity.
  split; [assumption|].
  apply (Load_success (fakeEngine 1 []) (fun _ => false)
           (fun _ => EmptyString) png w w' H).
Defined.

(** A text file offered to a receiver that holds a decoded image. *)
Lemma Load_failure_example :
  let txt := [x68; x65; x6c; x6c; x6f; x20; x77; x6f; x72; x6c; x64; x21] in
  let w := loaded 10 10 Options.zero in
  let w' := mkWorld (VipsImage.with_Buffer (self w) txt) [] in
  Loader.Load (fakeEngine 1 []) (fun _ => false) (fun _ => EmptyString) (Some txt) w
  = Returns (Some "Unsupported image format"%string) w'
  /\ VipsImage.Image (self w') = VipsImage.Image (self w).
Proof.
  intros txt w w'.
  assert (H : Loader.Load (fakeEngine 1 []) (fun _ => false)
                (fun _ => EmptyString) (Some txt) w
              = Returns (Some "Unsupported image format"%string) w')
    by reflexivity.
  split; [assumption|].
  apply (Load_failure (fakeEngine 1 []) (fun _ => false)
           (fun _ => EmptyString) txt w w' _ H).
Defined.

(* ================================================================== *)
(** ** [Process] at its edges *)

(** The rotation and the flip of [calculateRotationAndFlip] in additive
    mode, through the orientation table. *)
Lemma calculateRotationAndFlip_table (E : Engine) (img : VipsImage.t)
  (c : CImage.t) :
  VipsImage.Image img = Some c ->
  fits62 (Options.Rotate (VipsImage.Options img)) ->
  calculateRotationAndFlip E img true
  = (fst (exifTable (vips_exif_orientation E c))
     + Options.Rotate (VipsImage.Options img),
     snd (exifTable (vips_exif_orientation E c)), None).
Proof.
  intros Hc Hfit.
  unfold calculateRotationAndFlip, vipsExifOrientation.
  rewrite Hc, andb_false_r.
  set (code := vips_exif_orientation E c).
  set (angle := Options.Rotate (VipsImage.Options img)) in *.
  assert (Hadd : forall r f, (r, f) = exifTable code ->
            (let '(rotate, flip) := (r, f) in
             (GoInt.add rotate angle, flip, @None error))
            = (fst (exifTable code) + angle, snd (exifTable code), None)).
  { intros r f Heq. rewrite <- Heq. simpl.
    rewrite add_exact; [reflexivity | | assumption].
    change r with (fst (r, f)). rewrite Heq. apply exifTable_fits. }
  unfold exifTable in *. unfold D0, D90, D180, D270.
  destruct code as [|p|p]; simpl; try (apply Hadd; reflexivity);
    repeat (destruct p as [p|p|]; simpl; try (apply Hadd; reflexivity)).
Qed.

(** X9: on a receiver whose [Image] is nil, [Process] does not panic: it
    returns an error, either that the output type is unsupported or that the
    image is no valid pointer, without any engine call and without touching
    the image or the buffer. *)
Theorem Process_nil_image (E : Engine) (K : Constants) (w : World) :
  VipsImage.Image (self w) = None ->
  exists e w',
    Process E K w = Returns (Some e) w'
    /\ (e = "Unsupported image output type"%string
        \/ e = ErrVipsImageNotValidPointer)
    /\ calls w' = calls w
    /\ VipsImage.Image (self w') = None
    /\ VipsImage.Buffer (self w') = VipsImage.Buffer (self w).
Proof.
  destruct w as [[buf img ty o] log]. cbn [self VipsImage.Image].
  intros ->. unfold Process. cbn [Process_depth]. unfold Process_body.
  unfold bind at 1. unfold getSelf at 1.
  unfold bind at 1. unfold putOptions at 1.
  unfold bind at 1. unfold getOptions at 1. cbn [self calls].
  cbn [VipsImage.with_Options VipsImage.Options VipsImage.Buffer
       VipsImage.Image VipsImage.Type_].
  destruct (negb (IsTypeSupported E _)).
  - eexists. eexists. split; [reflexivity|].
    split; [left; reflexivity|]. cbn. auto.
  - unfold bind at 1. unfold rotateAndFlipImage.
    unfold bind at 1. unfold getSelf at 1. cbn [self].
    unfold calculateRotationAndFlip, vipsExifOrientation.
    cbn [VipsImage.Image VipsImage.Options]. rewrite andb_false_r.
    unfold ret at 1. unfold orReturn at 1. unfold bind, ret.
    eexists. eexists. split; [reflexivity|].
    split; [right; reflexivity|]. cbn. auto.
Qed.

Lemma Process_nil_image_example :
  exists e w',
    Process (fakeEngine 1 []) fakeConstants
      (mkWorld (VipsImage.mk [] None UNKNOWN Options.zero) [])
    = Returns (Some e) w'
    /\ (e = "Unsupported image output type"%string
        \/ e = ErrVipsImageNotValidPointer)
    /\ calls w' = []
    /\ VipsImage.Image (self w') = None
    /\ VipsImage.Buffer (self w') = [].
Proof.
  apply (Process_nil_image (fakeEngine 1 []) fakeConstants
           (mkWorld (VipsImage.mk [] None UNKNOWN Options.zero) [])).
  reflexivity.
Defined.

(** *** Nothing asked for *)

Lemma smallerThanBox_at_source_size (c : CImage.t) (o : Options.t) :
  Options.Width o = CImage.Xsize c -> smallerThanBox c o = false.
Proof.
  intros HW. unfold smallerThanBox. rewrite HW, Z.ltb_irrefl.
  rewrite andb_false_r. reflexivity.
Qed.

(** At the size of the source the plan is: scale by 1, shrink by 1, and a
    residual of 1, with the options left as they are. *)
Lemma plan_at_source_size (E : Engine) (c : CImage.t) (o : Options.t) :
  0 < CImage.Xsize c -> 0 < CImage.Ysize c ->
  GoInt.in_range 32 (CImage.Xsize c) -> GoInt.in_range 32 (CImage.Ysize c) ->
  Options.Width o = CImage.Xsize c -> Options.Height o = CImage.Ysize c ->
  ScaleFactor c o = (F64.one, o)
  /\ calculateShrink E c o = (1, o)
  /\ calculateResidual E c o = (F64.one, o).
Proof.
  intros HX HY HXr HYr HW HH.
  pose proof (smallerThanBox_at_source_size c o HW) as Hbox.
  assert (HSF : ScaleFactor c o = (F64.one, o)).
  { unfold ScaleFactor. rewrite Hbox, HW, HH.
    assert (H1 : (CImage.Xsize c >? 0) = true) by (apply Z.gtb_lt; lia).
    assert (H2 : (CImage.Ysize c >? 0) = true) by (apply Z.gtb_lt; lia).
    rewrite H1, H2, !of_int_div_same by assumption. cbn [andb].
    destruct (Options.Crop o); reflexivity. }
  assert (HSh : calculateShrink E c o = (1, o)).
  { unfold calculateShrink. rewrite Hbox, HSF. reflexivity. }
  split; [assumption|]. split; [assumption|].
  unfold calculateResidual. rewrite Hbox, HSh, HSF. reflexivity.
Qed.

(** What is left of [Process] once the plan is made: the stages from the
    transform on. *)
Lemma Process_at_source_size (E : Engine) (K : Constants) (c : CImage.t)
  (buf : list byte) (ty : ImageType) (lg : list Call)
  (width height : Z) (embed : bool) (x : Extract.t) :
  let img := VipsImage.mk buf (Some c) ty (requesting width height embed x) in
  let o1 := applyDefaults K img in
  let o4 := snd (ScaleFactor c (clampToSource c (normalizeOperation o1))) in
  IsTypeSupported E ty = true ->
  fst (exifTable (vips_exif_orientation E c)) = 0 ->
  0 < CImage.Xsize c -> 0 < CImage.Ysize c ->
  GoInt.in_range 32 (CImage.Xsize c) -> GoInt.in_range 32 (CImage.Ysize c) ->
  Options.Width o4 = CImage.Xsize c -> Options.Height o4 = CImage.Ysize c ->
  Options.Zoom o4 = 0 ->
  Process E K (mkWorld img lg)
  = (check transformStage E K 1 F64.one ;;
     o <- getOptions ;;
     check (if shouldApplyEffects o then applyEffects E else ret None) ;;
     check watermarkWithText E K ;;
     check watermarkWithImage E K (Process_depth E K 1) ;;
     check Flatten E K ;;
     check applyGamma E ;;
     ret None)
      (mkWorld (VipsImage.mk buf (Some c) ty o4) lg).
Proof.
  intros img o1 o4 Hty Hrot HX HY HXr HYr HW4 HH4 HZ4.
  unfold Process. cbn [Process_depth]. unfold Process_body.
  unfold bind at 1. unfold getSelf at 1.
  unfold bind at 1. unfold putOptions at 1.
  unfold bind at 1. unfold getOptions at 1.
  cbn [self calls VipsImage.with_Options VipsImage.Options VipsImage.Buffer
       VipsImage.Image VipsImage.Type_ img].
  fold img. fold o1.
  assert (Ho1 : o1 = setInterpretation
                       (setType (setCompression
                          (setQuality (requesting width height embed x)
                             (Quality K)) 6) ty)
                       (InterpretationSRGB K)) by reflexivity.
  assert (HT : Options.Type_ o1 = ty) by (rewrite Ho1; reflexivity).
  rewrite HT, Hty. cbn [negb].
  change (VipsImage.with_Options img o1)
    with (VipsImage.mk buf (Some c) ty o1).
  (* rotation *)
  assert (Hrf : rotateAndFlipImage E true
                  (mkWorld (VipsImage.mk buf (Some c) ty o1) lg)
                = Returns (false, None)
                    (mkWorld (VipsImage.mk buf (Some c) ty o1) lg)).
  { unfold rotateAndFlipImage. unfold bind at 1. unfold getSelf at 1.
    cbn [self].
    rewrite (calculateRotationAndFlip_table E
               (VipsImage.mk buf (Some c) ty o1) c eq_refl)
      by (rewrite Ho1; unfold fits62; cbn; lia).
    rewrite Hrot. rewrite Ho1.
    destruct (snd (exifTable (vips_exif_orientation E c))); reflexivity. }
  unfold bind at 1. rewrite Hrf. cbn iota.
  erewrite orReturn_nil by reflexivity.
  erewrite orReturn_nil by reflexivity.
  (* the operation, the clamp and the plan *)
  unfold bind at 1. unfold getOptions at 1.
  unfold bind at 1. unfold putOptions at 1.
  unfold bind at 1. unfold deref at 1.
  unfold bind at 1. unfold getOptions at 1.
  unfold bind at 1. unfold putOptions at 1.
  cbn [self calls VipsImage.with_Options VipsImage.Options VipsImage.Buffer
       VipsImage.Image VipsImage.Type_].
  set (o3 := clampToSource c (normalizeOperation o1)) in *.
  destruct (plan_at_source_size E c o4 HX HY HXr HYr HW4 HH4)
    as (_ & HSh & HRes).
  unfold planning.
  unfold bind at 1. unfold bind at 1. unfold deref at 1.
  unfold bind at 1. unfold getOptions at 1.
  cbn [self calls VipsImage.with_Options VipsImage.Options VipsImage.Buffer
       VipsImage.Image VipsImage.Type_].
  rewrite (surjective_pairing (ScaleFactor c o3)). fold o4.
  unfold bind at 1. unfold putOptions at 1. unfold ret at 1.
  cbn [self calls VipsImage.with_Options VipsImage.Options VipsImage.Buffer
       VipsImage.Image VipsImage.Type_].
  unfold bind at 1. unfold bind at 1. unfold deref at 1.
  unfold bind at 1. unfold getOptions at 1.
  cbn [self calls VipsImage.with_Options VipsImage.Options VipsImage.Buffer
       VipsImage.Image VipsImage.Type_].
  rewrite HSh.
  unfold bind at 1. unfold putOptions at 1. unfold ret at 1.
  cbn [self calls VipsImage.with_Options VipsImage.Options VipsImage.Buffer
       VipsImage.Image VipsImage.Type_].
  unfold bind at 1. unfold bind at 1. unfold deref at 1.
  unfold bind at 1. unfold getOptions at 1.
  cbn [self calls VipsImage.with_Options VipsImage.Options VipsImage.Buffer
       VipsImage.Image VipsImage.Type_].
  rewrite HRes.
  unfold bind at 1. unfold putOptions at 1. unfold ret at 1.
  cbn [self calls VipsImage.with_Options VipsImage.Options VipsImage.Buffer
       VipsImage.Image VipsImage.Type_].
  (* shrink-on-load *)
  unfold bind at 1. unfold getSelf at 1.
  cbn [self calls VipsImage.with_Options VipsImage.Options VipsImage.Buffer
       VipsImage.Image VipsImage.Type_].
  change (1 >=? 2) with false. rewrite andb_false_r.
  unfold bind at 1. unfold ret at 1. cbn iota.
  erewrite orReturn_nil by reflexivity.
  set (W := mkWorld (VipsImage.mk buf (Some c) ty o4) lg).
  assert (Hzoom : zoomImage E W = Returns None W).
  { unfold zoomImage, bind, getOptions, W. cbn [self VipsImage.Options].
    rewrite HZ4. reflexivity. }
  rewrite (orReturn_nil _ _ _ _ Hzoom).
  reflexivity.
Qed.

(** The stages after the transform, when the options ask for none. *)
Lemma Process_tail_idle (E : Engine) (K : Constants) (w : World) :
  let o := VipsImage.Options (self w) in
  shouldApplyEffects o = false ->
  Watermark.Text (Options.Watermark o) = EmptyString ->
  WatermarkImage.Buf (Options.WatermarkImage o) = [] ->
  ImageType_eqb (VipsImage.Type_ (self w)) PNG = false
  \/ Color.eqb (Options.Background o) (ColorBlack K) = true ->
  IEEE.gtb (Options.Gamma o) F64.zero = false ->
  (o <- getOptions ;;
   check (if shouldApplyEffects o then applyEffects E else ret None) ;;
   check watermarkWithText E K ;;
   check watermarkWithImage E K (Process_depth E K 1) ;;
   check Flatten E K ;;
   check applyGamma E ;;
   ret None) w
  = Returns None w.
Proof.
  intros o Hfx Htext Himg Hflat Hgamma. subst o.
  unfold bind at 1. unfold getOptions at 1. rewrite Hfx.
  erewrite orReturn_nil by reflexivity.
  assert (H1 : watermarkWithText E K w = Returns None w).
  { unfold watermarkWithText, bind, getOptions. rewrite Htext. reflexivity. }
  rewrite (orReturn_nil _ _ _ _ H1).
  destruct (watermarkWithImage_without_buffer E K (Process_depth E K 1)
              (Process_depth E K 1) w Himg) as [H2 _].
  rewrite (orReturn_nil _ _ _ _ H2).
  assert (H3 : Flatten E K w = Returns None w).
  { unfold Flatten, bind, getSelf.
    destruct Hflat as [H|H]; rewrite H;
      [reflexivity | rewrite orb_true_r; reflexivity]. }
  rewrite (orReturn_nil _ _ _ _ H3).
  assert (H4 : applyGamma E w = Returns None w).
  { unfold applyGamma, bind, getOptions. rewrite Hgamma. reflexivity. }
  rewrite (orReturn_nil _ _ _ _ H4).
  reflexivity.
Qed.

(** X10: with empty options, on an upright image of a supported type that
    needs no flattening, [Process] is the identity on the picture: it
    returns nil without a single engine call, leaves the image and the
    buffer alone, and only fills in the options (the defaults, and the
    source's own width and height). *)
Theorem Process_empty_options (E : Engine) (K : Constants) (c : CImage.t)
  (buf : list byte) (ty : ImageType) (lg : list Call) :
  IsTypeSupported E ty = true ->
  fst (exifTable (vips_exif_orientation E c)) = 0 ->
  0 < CImage.Xsize c -> 0 < CImage.Ysize c ->
  GoInt.in_range 32 (CImage.Xsize c) -> GoInt.in_range 32 (CImage.Ysize c) ->
  ImageType_eqb ty PNG = false
  \/ Color.eqb (Color.mk 0 0 0 0) (ColorBlack K) = true ->
  let img := VipsImage.mk buf (Some c) ty Options.zero in
  Process E K (mkWorld img lg)
  = Returns None
      (mkWorld
         (VipsImage.mk buf (Some c) ty
            (setHeight (setWidth (applyDefaults K img) (CImage.Xsize c))
               (CImage.Ysize c)))
         lg).
Proof.
  intros Hty Hrot HX HY HXr HYr Hflat img.
  assert (Hbox : forall o, Options.Width o = 0 -> smallerThanBox c o = false).
  { intros o HW. unfold smallerThanBox. rewrite HW.
    assert (H : (CImage.Xsize c <? 0) = false) by (apply Z.ltb_ge; lia).
    rewrite H, andb_false_r. reflexivity. }
  set (o1 := applyDefaults K img).
  assert (Hno : normalizeOperation o1 = o1) by reflexivity.
  assert (Hn : clampToSource c (normalizeOperation o1) = o1)
    by (rewrite Hno; unfold clampToSource; rewrite (Hbox o1 eq_refl);
        reflexivity).
  assert (HSF : ScaleFactor c o1
                = (F64.one,
                   setHeight (setWidth o1 (CImage.Xsize c)) (CImage.Ysize c)))
    by (unfold ScaleFactor; rewrite (Hbox o1 eq_refl); reflexivity).
  pose proof (Process_at_source_size E K c buf ty lg 0 0 false Extract.none
                Hty Hrot HX HY HXr HYr) as Hp.
  cbv zeta in Hp.
  change (requesting 0 0 false Extract.none) with Options.zero in Hp.
  fold img in Hp. fold o1 in Hp. rewrite Hn, HSF in Hp. cbn [snd] in Hp.
  rewrite Hp by reflexivity. clear Hp.
  set (o2 := setHeight (setWidth o1 (CImage.Xsize c)) (CImage.Ysize c)).
  set (W := mkWorld (VipsImage.mk buf (Some c) ty o2) lg).
  assert (Hgate : transformStage E K 1 F64.one W = Returns None W).
  { unfold transformStage, bind, deref, getOptions, W.
    cbn [self VipsImage.Options VipsImage.Image].
    unfold shouldTransformImage.
    change (Options.Width o2) with (CImage.Xsize c).
    change (Options.Height o2) with (CImage.Ysize c).
    rewrite !Z.ltb_irrefl. cbn. rewrite !andb_false_r. reflexivity. }
  rewrite (orReturn_nil _ _ _ _ Hgate).
  apply Process_tail_idle; try reflexivity.
  exact Hflat.
Qed.

Lemma Process_empty_options_example :
  Process (fakeEngine 1 []) fakeConstants (loaded 640 480 Options.zero)
  = Returns None
      (loaded 640 480
         (setHeight
            (setWidth
               (setInterpretation
                  (setType (setCompression (setQuality Options.zero 80) 6) PNG)
                  22) 640) 480)).
Proof.
  apply (Process_empty_options (fakeEngine 1 []) fakeConstants
           (CImage.mk 640 480 3 0) [x89] PNG []);
    try reflexivity; try (right; reflexivity);
    unfold GoInt.in_range; simpl; lia.
Defined.

(** *** Mirrored orientations *)

(** X11: an EXIF orientation that includes a mirror (2, 4, 5 or 7) never
    makes [rotateAndFlipImage] flip the image: the mirror only cancels a
    flip the options ask for.  With auto-rotation on and no flop, the one
    engine call left is the rotation, when the angle is positive. *)
Theorem exif_mirror_only_cancels (E : Engine) (w : World) (c : CImage.t) :
  let o := VipsImage.Options (self w) in
  let rotation := fst (exifTable (vips_exif_orientation E c)) + Options.Rotate o in
  VipsImage.Image (self w) = Some c ->
  snd (exifTable (vips_exif_orientation E c)) = true ->
  Options.NoAutoRotate o = false -> Options.Flop o = false ->
  fits62 (Options.Rotate o) ->
  exists rotated err w',
    rotateAndFlipImage E true w = Returns (rotated, err) w'
    /\ rotated = (rotation >? 0)
    /\ calls w' = calls w ++ (if rotation >? 0 then [CallRotate rotation] else [])
    /\ Options.Flip (VipsImage.Options (self w')) = false
    /\ Options.Rotate (VipsImage.Options (self w')) = rotation.
Proof.
  destruct w as [[buf img ty o] lg]. intros o' rotation. subst o'.
  cbn [self VipsImage.Image VipsImage.Options] in *.
  intros -> Hflip Hauto Hflop Hfit.
  unfold rotateAndFlipImage. unfold bind at 1. unfold getSelf at 1.
  cbn [self].
  rewrite (calculateRotationAndFlip_table E (VipsImage.mk buf (Some c) ty o)
             c eq_refl Hfit).
  rewrite Hflip. cbn [VipsImage.Options]. fold rotation.
  rewrite Hauto. cbn [negb andb].
  set (o2 := setRotate (if Options.Flip o then setFlip o false else o) rotation).
  assert (HR : Options.Rotate o2 = rotation)
    by (unfold o2; destruct o; destruct Flip; reflexivity).
  assert (HF : Options.Flip o2 = false)
    by (unfold o2; destruct o; destruct Flip; reflexivity).
  assert (HP : Options.Flop o2 = false)
    by (unfold o2; destruct o; cbn in Hflop; destruct Flip; cbn; assumption).
  unfold bind at 1. unfold putOptions at 1.
  cbn [self calls VipsImage.with_Options VipsImage.Buffer VipsImage.Image
       VipsImage.Type_].
  rewrite HR, HF, HP.
  destruct (rotation >? 0) eqn:Hpos.
  - unfold vipsRotate, replacing, bind, getOptions, getSelf, log, ret.
    cbn [self calls VipsImage.Image VipsImage.Options VipsImage.with_Options].
    match goal with
    | |- context [vips_rotate_fill E ?a ?b ?d] =>
        destruct (vips_rotate_fill E a b d) as [image|msg]
    end; cbn;
      eexists; eexists; eexists; (split; [reflexivity|]);
      repeat split; assumption.
  - unfold bind, ret. cbn. rewrite app_nil_r.
    eexists; eexists; eexists; (split; [reflexivity|]);
      repeat split; assumption.
Qed.

Lemma exif_mirror_only_cancels_example :
  exists rotated err w',
    rotateAndFlipImage (fakeEngine 2 []) true
      (loaded 100 50 (setFlip Options.zero true))
    = Returns (rotated, err) w'
    /\ rotated = false
    /\ calls w' = []
    /\ Options.Flip (VipsImage.Options (self w')) = false
    /\ Options.Rotate (VipsImage.Options (self w')) = 0.
Proof.
  apply (exif_mirror_only_cancels (fakeEngine 2 [])
           (loaded 100 50 (setFlip Options.zero true)) (CImage.mk 100 50 3 0));
    try reflexivity.
  unfold fits62. simpl. lia.
Defined.

(** *** A forced resize *)

Lemma extends_refl {A : Type} (P : Call -> bool) (w : World) (a : A) :
  extends P w (Returns a w).
Proof. exists []. split; [rewrite app_nil_r; reflexivity | reflexivity]. Qed.

Lemma extends_same_log {A : Type} (P : Call -> bool) (w w' : World)
  (r : Outcome A) :
  calls w' = calls w -> extends P w' r -> extends P w r.
Proof. unfold extends. intros H. destruct r; rewrite H; auto. Qed.

Lemma extends_bind {A B : Type} (P : Call -> bool) (m : M A) (k : A -> M B)
  (w : World) :
  extends P w (m w) ->
  (forall a w', extends P w' (k a w')) ->
  extends P w (bind m k w).
Proof.
  intros Hm Hk. unfold bind. destruct (m w) as [a w'|f w']; [|exact Hm].
  destruct Hm as (l & Hl & HP). specialize (Hk a w').
  unfold extends in *.
  destruct (k a w') as [b w''|f w'']; destruct Hk as (l' & Hl' & HP');
    exists (l ++ l'); (split; [rewrite Hl', Hl, app_assoc; reflexivity|]);
    rewrite forallb_app, HP, HP'; reflexivity.
Qed.

Lemma extends_replacing (E : Engine) (P : Call -> bool) (call : Call)
  (op : CImage.t -> cresult CImage.t) (w : World) :
  P call = true -> extends P w (replacing call op w).
Proof.
  intros HP. unfold replacing, bind, getSelf, log, putImage, ret.
  destruct (VipsImage.Image (self w)) as [c|]; [|apply extends_refl].
  cbn [self calls].
  destruct (op c) as [image|msg]; exists [call]; cbn [calls];
    (split; [reflexivity | simpl; rewrite HP; reflexivity]).
Qed.

(** X12: under [Force], [transformImage] only rescales: whatever [Crop] and
    [Embed] say, and as long as no smart crop, trim or extract area is asked
    for, the engine is called for nothing but a shrink and a resize, and
    when the function returns nil the options have [Crop] and [Embed]
    cleared. *)
Theorem transformImage_forced (E : Engine) (K : Constants) (shrink : Z)
  (residual : F64.t) (w : World) :
  let o := VipsImage.Options (self w) in
  Options.Force o = true ->
  Gravity_eqb (Options.Gravity o) GravitySmart = false ->
  Options.SmartCrop o = false -> Options.Trim o = false ->
  Options.Extract o = Extract.none ->
  extends resizing w (transformImage E K shrink residual w)
  /\ (forall w', transformImage E K shrink residual w = Returns None w' ->
      Options.Crop (VipsImage.Options (self w')) = false
      /\ Options.Embed (VipsImage.Options (self w')) = false).
Proof.
  destruct w as [[buf img ty o] lg]. intros o'. subst o'.
  cbn [self VipsImage.Options].
  destruct o. cbn [Options.Force Options.Gravity Options.SmartCrop
                   Options.Trim Options.Extract].
  intros -> Hg -> -> ->.
  unfold transformImage. unfold Gravity_eqb in Hg.
  destruct (shrink >? 1); destruct img as [c|];
    unfold shrinkImage, vipsShrink, vipsResize,
      extractOrEmbedImage, replacing, orReturn, bind, getOptions, getSelf,
      putOptions, putImage, putBuffer, log, deref, ret, extends, Gravity_eqb;
    repeat
      (cbn [self calls VipsImage.Image VipsImage.Options VipsImage.with_Options
            VipsImage.with_Image VipsImage.Buffer VipsImage.Type_
            Options.Force Options.Gravity Options.SmartCrop Options.Trim
            Options.Extract Options.Crop Options.Embed Options.Width
            Options.Height Options.Interpolator setEmbed setCrop orb andb negb
            fst snd Extract.none Extract.Top Extract.Left Extract.Width
            Extract.Height SFeqb SFcompare F32.zero];
       try rewrite Hg;
       try match goal with
         | |- context [vips_shrink_bridge E ?a ?b ?d] =>
             destruct (vips_shrink_bridge E a b d)
         | |- context [vips_resize_bridge E ?a ?b ?d] =>
             destruct (vips_resize_bridge E a b d)
         | |- context [if ?b then _ else _] => is_var b; destruct b
         end);
    (split;
     [ first [ exists []; split; [rewrite app_nil_r; reflexivity|reflexivity]
             | eexists [_]; split; [reflexivity|reflexivity]
             | eexists [_; _]; split;
                 [rewrite <- app_assoc; reflexivity|reflexivity] ]
     | intros w' Heq; inversion Heq; subst; cbn; split; reflexivity ]).
Qed.

Lemma transformImage_forced_example :
  let w := loaded 400 400
             (setCrop (setForce (setHeight (setWidth Options.zero 100) 100)
                         true) true) in
  extends resizing w (transformImage (fakeEngine 1 []) fakeConstants 4
                        F64.one w)
  /\ (forall w',
        transformImage (fakeEngine 1 []) fakeConstants 4 F64.one w
        = Returns None w' ->
        Options.Crop (VipsImage.Options (self w')) = false
        /\ Options.Embed (VipsImage.Options (self w')) = false).
Proof.
  apply (transformImage_forced (fakeEngine 1 []) fakeConstants 4 F64.one
           (loaded 400 400
              (setCrop (setForce (setHeight (setWidth Options.zero 100) 100)
                          true) true)));
    reflexivity.
Defined.

(* ================================================================== *)
(** ** Integers through [float64] and [float32] *)

(** [float64(z)] for a positive integer under [2 ^ 53]: the mantissa is
    [z] shifted to 53 digits. *)
Lemma of_int_canonical (z : Z) :
  0 < z < 2 ^ 53 ->
  exists m e,
    F64.of_int z = S754_finite false m e
    /\ e <= 0
    /\ Zpos m = z * 2 ^ (- e)
    /\ 2 ^ 52 <= Zpos m < 2 ^ 53.
Proof.
  intros [Hpos Hlt]. destruct z as [|p|p]; try lia.
  pose proof (int_digits p 53 ltac:(lia) Hlt) as Hd.
  pose proof (Zdigits2_pos (Zpos p) ltac:(lia)) as Hd1.
  change (Zdigits2 (Zpos p)) with (Zpos (digits2_pos p)) in Hd1.
  unfold F64.of_int, IEEE.of_Z, binary_normalize.
  change F64.prec with 53. change F64.emax with 1024.
  unfold binary_round. rewrite fexp64.
  assert (Hmax : Z.max (Zpos (digits2_pos p) + 0 - 53) (-1074)
                 = Zpos (digits2_pos p) - 53) by lia.
  rewrite Hmax. unfold shl_align.
  assert (Hbounds : forall m, Zpos (digits2_pos m) = 53 ->
                      2 ^ 52 <= Zpos m < 2 ^ 53).
  { intros m Hm. rewrite digits2_pos_log2 in Hm.
    assert (Hl : Z.log2 (Zpos m) = 52) by lia.
    pose proof (Z.log2_spec (Zpos m) ltac:(lia)) as Hs. rewrite Hl in Hs.
    change (Z.succ 52) with 53 in Hs. exact Hs. }
  destruct (Zpos (digits2_pos p) - 53 - 0) as [|k|k] eqn:Hk; try lia.
  - exists p, 0. split; [|split; [lia|split; [simpl; lia|]]].
    + apply binary_round_aux_canonical; [rewrite fexp64|]; lia.
    + apply Hbounds. lia.
  - exists (Pos.iter xO p k), (Zpos (digits2_pos p) - 53).
    assert (Hdig : Zpos (digits2_pos (Pos.iter xO p k))
                   = Zpos (digits2_pos p) + Zpos k)
      by (rewrite iter_xO_digits; lia).
    split; [|split; [lia|split]].
    + apply binary_round_aux_canonical; [rewrite fexp64|]; lia.
    + rewrite iter_xO_value. f_equal. f_equal. lia.
    + apply Hbounds. lia.
Qed.

(** The order of [float64] on such integers is the order of the integers. *)
Lemma SFltb_of_int (a b : Z) :
  0 < a < 2 ^ 53 -> 0 < b < 2 ^ 53 ->
  SFltb (F64.of_int a) (F64.of_int b) = (a <? b).
Proof.
  intros Ha Hb.
  destruct (of_int_canonical a Ha) as (ma & ea & -> & Hea & Hma & Hra).
  destruct (of_int_canonical b Hb) as (mb & eb & -> & Heb & Hmb & Hrb).
  unfold SFltb, SFcompare.
  assert (Hpa : 0 < 2 ^ (- ea)) by (apply Z.pow_pos_nonneg; lia).
  assert (Hpb : 0 < 2 ^ (- eb)) by (apply Z.pow_pos_nonneg; lia).
  destruct (Z.compare_spec ea eb) as [Heq|Hlt|Hgt].
  - subst eb. rewrite Pos.compare_cont_spec. cbn [Pos.switch_Eq].
    change (Pos.compare ma mb) with (Z.compare (Zpos ma) (Zpos mb)).
    rewrite Hma, Hmb.
    destruct (Z.compare_spec (a * 2 ^ (- ea)) (b * 2 ^ (- ea))) as [H|H|H];
      symmetry; [apply Z.ltb_ge | apply Z.ltb_lt | apply Z.ltb_ge]; nia.
  - symmetry. apply Z.ltb_lt.
    assert (Hs : 2 ^ (- ea) = 2 ^ (- eb) * 2 ^ (eb - ea))
      by (rewrite <- Z.pow_add_r by lia; f_equal; lia).
    assert (Hk : 2 <= 2 ^ (eb - ea)).
    { change 2 with (2 ^ 1) at 1. apply Z.pow_le_mono_r; lia. }
    (* a * 2^-ea < 2^53 <= 2 * 2^52 <= 2^(eb-ea) * b * 2^-eb *)
    rewrite Hs in Hma. nia.
  - symmetry. apply Z.ltb_ge.
    assert (Hs : 2 ^ (- eb) = 2 ^ (- ea) * 2 ^ (ea - eb))
      by (rewrite <- Z.pow_add_r by lia; f_equal; lia).
    assert (Hk : 2 <= 2 ^ (ea - eb)).
    { change 2 with (2 ^ 1) at 1. apply Z.pow_le_mono_r; lia. }
    rewrite Hs in Hmb. nia.
Qed.

(** [int(math.Min(float64(a), float64(b)))] for a positive [a] and a [b]
    that is not negative. *)
Lemma to_int_Min_of_int (a b : Z) :
  0 < a < 2 ^ 53 -> 0 <= b < 2 ^ 53 ->
  F64.to_int (IEEE.Min (F64.of_int a) (F64.of_int b)) = Z.min a b.
Proof.
  intros Ha Hb.
  destruct (of_int_pos a Ha) as (ma & ea & Hfa & _ & Hta).
  destruct (Z.eq_dec b 0) as [->|Hne].
  - rewrite Hfa. rewrite Z.min_r by lia. reflexivity.
  - destruct (of_int_pos b ltac:(lia)) as (mb & eb & Hfb & _ & Htb).
    pose proof (SFltb_of_int a b Ha ltac:(lia)) as Hlt.
    assert (HM : IEEE.Min (F64.of_int a) (F64.of_int b)
                 = if a <? b then F64.of_int a else F64.of_int b).
    { rewrite <- Hlt. rewrite Hfa, Hfb. reflexivity. }
    rewrite HM. destruct (Z.ltb_spec a b).
    + rewrite Z.min_l by lia. apply to_int_exact; [assumption|lia].
    + rewrite Z.min_r by lia. apply to_int_exact; [assumption|lia].
Qed.

(** [int(math.Max(float64(z), 0))] *)
Lemma to_int_Max_zero (z : Z) :
  - 2 ^ 53 < z < 2 ^ 53 ->
  F64.to_int (IEEE.Max (F64.of_int z) F64.zero) = Z.max z 0.
Proof.
  intros Hz.
  destruct (Z.lt_trichotomy z 0) as [Hneg|[->|Hpos]].
  - destruct z as [|p|p]; try lia.
    assert (Hp : Zpos p < 2 ^ 53) by lia.
    destruct (binary_round_exact true p (int_digits p 53 ltac:(lia) Hp))
      as (m & e & Heq & _).
    assert (Hf : F64.of_int (Zneg p) = S754_finite true m e).
    { unfold F64.of_int, IEEE.of_Z, binary_normalize.
      change F64.prec with 53. change F64.emax with 1024. exact Heq. }
    rewrite Hf, Z.max_r by lia. reflexivity.
  - reflexivity.
  - destruct (of_int_pos z ltac:(lia)) as (m & e & Heq & _ & Htr).
    rewrite Z.max_l by lia.
    assert (HM : IEEE.Max (F64.of_int z) F64.zero = F64.of_int z)
      by (rewrite Heq; reflexivity).
    rewrite HM. apply to_int_exact; [assumption|lia].
Qed.

(** *** binary32 *)

Lemma fexp32 (x : Z) : fexp 24 128 x = Z.max (x - 24) (-149).
Proof. reflexivity. Qed.

Lemma binary_round_aux_canonical32 (s : bool) (m : positive) (e : Z) :
  fexp 24 128 (Zpos (digits2_pos m) + e) = e -> e <= 104 ->
  binary_round_aux 24 128 s (Zpos m) e loc_Exact = S754_finite s m e.
Proof.
  intros Hc He. unfold binary_round_aux, shr_fexp.
  change (Zdigits2 (Zpos m)) with (Zpos (digits2_pos m)).
  rewrite Hc, Z.sub_diag.
  cbn [shr shr_record_of_loc shr_m loc_of_shr_record round_nearest_even].
  change (Zdigits2 (Zpos m)) with (Zpos (digits2_pos m)).
  rewrite Hc, Z.sub_diag.
  cbn [shr shr_record_of_loc shr_m].
  assert (Hle : (e <=? 128 - 24) = true) by (apply Z.leb_le; lia).
  rewrite Hle. reflexivity.
Qed.

(** [float32(z)] for an integer from 0 to [2 ^ 24] is exact: converting
    back gives [z]. *)
Lemma F32_of_int_exact (z : Z) :
  0 <= z < 2 ^ 24 -> IEEE.trunc (F32.of_int z) = Some z.
Proof.
  intros [Hpos Hlt]. destruct z as [|p|p]; try lia; [reflexivity|].
  pose proof (int_digits p 24 ltac:(lia) Hlt) as Hd.
  pose proof (Zdigits2_pos (Zpos p) ltac:(lia)) as Hd1.
  change (Zdigits2 (Zpos p)) with (Zpos (digits2_pos p)) in Hd1.
  unfold F32.of_int, IEEE.of_Z, binary_normalize.
  change F32.prec with 24. change F32.emax with 128.
  unfold binary_round. rewrite fexp32.
  assert (Hmax : Z.max (Zpos (digits2_pos p) + 0 - 24) (-149)
                 = Zpos (digits2_pos p) - 24) by lia.
  rewrite Hmax. unfold shl_align.
  destruct (Zpos (digits2_pos p) - 24 - 0) as [|k|k] eqn:Hk; try lia.
  - rewrite binary_round_aux_canonical32 by (try rewrite fexp32; lia).
    reflexivity.
  - assert (Hdig : Zpos (digits2_pos (Pos.iter xO p k))
                   = Zpos (digits2_pos p) + Zpos k)
      by (rewrite iter_xO_digits; lia).
    rewrite binary_round_aux_canonical32 by (try rewrite fexp32; lia).
    cbn [IEEE.trunc cond_Zopp]. f_equal.
    rewrite iter_xO_value.
    replace (Zpos (digits2_pos p) - 24) with (- Zpos k) by lia.
    rewrite Z.shiftl_opp_r.
    rewrite Z.shiftr_div_pow2 by lia.
    apply Z.div_mul. apply Z.pow_nonzero; lia.
Qed.

Lemma F32_to_cint_of_int (z : Z) :
  0 <= z < 2 ^ 24 -> F32.to_cint (F32.of_int z) = z.
Proof.
  intros Hz. unfold F32.to_cint, IEEE.to_int.
  rewrite (F32_of_int_exact z Hz).
  assert (Hr : GoInt.in_rangeb 32 z = true).
  { unfold GoInt.in_rangeb. apply andb_true_iff. split.
    - apply Z.leb_le. change (2 ^ (32 - 1)) with 2147483648. lia.
    - apply Z.ltb_lt. change (2 ^ (32 - 1)) with 2147483648.
      change (2 ^ 24) with 16777216 in Hz. lia. }
  rewrite Hr. reflexivity.
Qed.

(** [float32(z)] for a positive integer under [2 ^ 24] is a positive
    number. *)
Lemma F32_of_int_pos (z : Z) :
  0 < z < 2 ^ 24 -> exists m e, F32.of_int z = S754_finite false m e.
Proof.
  intros [Hpos Hlt]. destruct z as [|p|p]; try lia.
  pose proof (int_digits p 24 ltac:(lia) Hlt) as Hd.
  pose proof (Zdigits2_pos (Zpos p) ltac:(lia)) as Hd1.
  change (Zdigits2 (Zpos p)) with (Zpos (digits2_pos p)) in Hd1.
  unfold F32.of_int, IEEE.of_Z, binary_normalize.
  change F32.prec with 24. change F32.emax with 128.
  unfold binary_round. rewrite fexp32.
  assert (Hmax : Z.max (Zpos (digits2_pos p) + 0 - 24) (-149)
                 = Zpos (digits2_pos p) - 24) by lia.
  rewrite Hmax. unfold shl_align.
  destruct (Zpos (digits2_pos p) - 24 - 0) as [|k|k] eqn:Hk; try lia.
  - rewrite binary_round_aux_canonical32 by (try rewrite fexp32; lia).
    eexists. eexists. reflexivity.
  - assert (Hdig : Zpos (digits2_pos (Pos.iter xO p k))
                   = Zpos (digits2_pos p) + Zpos k)
      by (rewrite iter_xO_digits; lia).
    rewrite binary_round_aux_canonical32 by (try rewrite fexp32; lia).
    eexists. eexists. reflexivity.
Qed.

(* ================================================================== *)
(** ** Small helpers of the bindings *)

(** *** [max] *)

(** X13: [max] returns its argument when it is between 0 and [2 ^ 53], and
    0 when it is negative (down to [- 2 ^ 53]); in that range the detour
    through [float64] loses nothing. *)
Theorem max_spec (x : Z) :
  - 2 ^ 53 < x < 2 ^ 53 -> Helpers.max x = Z.max x 0.
Proof.
  intros Hx. unfold Helpers.max. apply to_int_Max_zero. assumption.
Qed.

Lemma max_spec_example : Helpers.max (-7) = 0 /\ Helpers.max 640 = 640.
Proof.
  split.
  - apply (max_spec (-7)). lia.
  - apply (max_spec 640). lia.
Defined.

(** *** [vipsExifShort] *)

Lemma prefix_paren (a : Ascii.ascii) (s : string) :
  prefix "(" (String a s) = Ascii.eqb a "("%char.
Proof.
  cbn [prefix]. destruct (Ascii.ascii_dec "(" a) as [<-|Hne].
  - destruct s; reflexivity.
  - symmetry. apply Ascii.eqb_neq. congruence.
Qed.

Lemma prefix_space_paren (a : Ascii.ascii) (s : string) :
  Ascii.eqb a "("%char = true -> prefix " (" (String a s) = false.
Proof.
  intros H. apply Ascii.eqb_eq in H. subst a. reflexivity.
Qed.

(** In [p ++ " (" ++ r] with no parenthesis in [p], both searches stop at
    the end of [p]. *)
Lemma index_after_unbracketed (p r : string) :
  Helpers.unbracketed p = true ->
  index 0 " (" (p ++ String " " (String "(" r)) = Some (String.length p)
  /\ index 0 "(" (p ++ String " " (String "(" r)) = Some (S (String.length p)).
Proof.
  induction p as [|a p IH]; intros Hp.
  - split.
    + cbn [append index]. destruct r; reflexivity.
    + cbn [append]. cbn [index].
      rewrite prefix_paren. cbn [Ascii.eqb Bool.eqb andb].
      rewrite prefix_paren. reflexivity.
  - cbn [Helpers.unbracketed] in Hp. apply andb_true_iff in Hp. destruct Hp as [Ha Hp].
    apply negb_true_iff in Ha. destruct (IH Hp) as [IH1 IH2].
    cbn [append String.length]. split.
    + cbn [index].
      destruct (prefix " (" (String a (p ++ String " " (String "(" r))))
        eqn:Hpre.
      * exfalso. cbn [prefix] in Hpre.
        destruct (Ascii.ascii_dec " " a) as [<-|]; [|discriminate].
        destruct p as [|b p]; cbn [append prefix] in Hpre.
        -- destruct (Ascii.ascii_dec "(" " ") as [H|];
             [discriminate H | discriminate Hpre].
        -- destruct (Ascii.ascii_dec "(" b) as [<-|]; [|discriminate].
           cbn [Helpers.unbracketed] in Hp. discriminate Hp.
      * rewrite IH1. reflexivity.
    + cbn [index]. rewrite prefix_paren, Ha, IH2. reflexivity.
Qed.

Lemma substring_prefix (p s : string) :
  substring 0 (String.length p) (p ++ s) = p.
Proof.
  induction p as [|a p IH]; cbn [append String.length substring].
  - destruct s; reflexivity.
  - rewrite IH. reflexivity.
Qed.

(** X14: [vipsExifShort] cuts a tag value of the form [text (comment] down
    to [text], when [text] is the part before the first parenthesis and a
    blank separates the two; a value without the two characters [" ("] is
    returned as it is. *)
Theorem vipsExifShort_cuts (p r s : string) :
  (Helpers.unbracketed p = true ->
   Helpers.vipsExifShort (p ++ String " " (String "(" r)) = Some p)
  /\ (index 0 " (" s = None -> Helpers.vipsExifShort s = Some s).
Proof.
  split.
  - intros Hp. destruct (index_after_unbracketed p r Hp) as [H1 H2].
    unfold Helpers.vipsExifShort, Helpers.Contains, Helpers.Index.
    rewrite H1, H2.
    assert (Hc : (0 <=? Z.of_nat (String.length p)) = true)
      by (apply Z.leb_le; lia).
    rewrite Hc.
    assert (Hh : (Z.of_nat (S (String.length p)) - 1 <? 0) = false)
      by (apply Z.ltb_ge; lia).
    rewrite Hh. f_equal.
    replace (Z.to_nat (Z.of_nat (S (String.length p)) - 1))
      with (String.length p) by lia.
    apply substring_prefix.
  - intros Hnone.
    unfold Helpers.vipsExifShort, Helpers.Contains, Helpers.Index.
    rewrite Hnone. reflexivity.
Qed.

Lemma vipsExifShort_cuts_example :
  Helpers.vipsExifShort "Canon (Canon, ASCII, 6 components, 6 bytes)"
  = Some "Canon"%string
  /\ Helpers.vipsExifShort "Canon" = Some "Canon"%string.
Proof.
  destruct (vipsExifShort_cuts "Canon" "Canon, ASCII, 6 components, 6 bytes)"
              "Canon") as [H1 H2].
  split; [apply H1; reflexivity | apply H2; reflexivity].
Defined.

(** X15: [vipsExifShort] panics on a value that begins with a parenthesis
    and holds [" ("] further on, the slice bound being -1; and on no other
    value. *)
Theorem vipsExifShort_panics (s : string) :
  Helpers.vipsExifShort s = None
  <-> (exists r, s = String "(" r /\ index 0 " (" r <> None).
Proof.
  unfold Helpers.vipsExifShort, Helpers.Contains, Helpers.Index. split.
  - destruct (index 0 " (" s) as [n|] eqn:Hsp; [|discriminate].
    assert (Hc : (0 <=? Z.of_nat n) = true) by (apply Z.leb_le; lia).
    rewrite Hc.
    destruct (index 0 "(" s) as [i|] eqn:Hi.
    + destruct (Z.ltb_spec (Z.of_nat i - 1) 0) as [Hlt|]; [|discriminate].
      intros _. assert (i = 0%nat) by lia. subst i.
      destruct s as [|a s]; [discriminate Hsp|].
      cbn [index] in Hi. rewrite prefix_paren in Hi.
      destruct (Ascii.eqb a "(") eqn:Ha.
      * apply Ascii.eqb_eq in Ha. subst a. exists s. split; [reflexivity|].
        cbn [index] in Hsp.
        change (prefix " (" (String "(" s)) with false in Hsp.
        destruct (index 0 " (" s); [discriminate | discriminate Hsp].
      * destruct (index 0 "(" s); discriminate Hi.
    + intros _. exfalso.
      (* a string that holds [" ("] holds ["("] *)
      clear Hc. revert n Hsp Hi. induction s as [|a s IH]; intros n Hsp Hi.
      * discriminate Hsp.
      * cbn [index] in Hsp, Hi. rewrite prefix_paren in Hi.
        destruct (Ascii.eqb a "(") eqn:Ha; [discriminate Hi|].
        destruct (prefix " (" (String a s)) eqn:Hpre.
        -- cbn [prefix] in Hpre.
           destruct (Ascii.ascii_dec " " a) as [<-|]; [|discriminate].
           destruct s as [|b s]; [discriminate|]. cbn [prefix] in Hpre.
           destruct (Ascii.ascii_dec "(" b) as [<-|]; [|discriminate].
           cbn [index] in Hi. rewrite prefix_paren in Hi. discriminate Hi.
        -- destruct (index 0 " (" s) as [k|] eqn:Hk; [|discriminate Hsp].
           destruct (index 0 "(" s) as [j|] eqn:Hj; [discriminate Hi|].
           exact (IH k eq_refl eq_refl).
  - intros (r & -> & Hr). cbn [index].
    change (prefix " (" (String "(" r)) with false.
    rewrite prefix_paren. cbn [Ascii.eqb Bool.eqb andb].
    destruct (index 0 " (" r) as [k|]; [|congruence]. reflexivity.
Qed.

Lemma vipsExifShort_panics_example :
  Helpers.vipsExifShort "(c) 2019 (all rights reserved)" = None.
Proof.
  apply (vipsExifShort_panics "(c) 2019 (all rights reserved)").
  exists "c) 2019 (all rights reserved)"%string.
  split; [reflexivity | vm_compute; discriminate].
Defined.

(* ================================================================== *)
(** ** Saving *)

(** Symbolic execution of a method on a receiver with a loaded image. *)
Ltac run_monad :=
  unfold orReturn, bind, getOptions, getSelf, putOptions, putImage,
    putBuffer, log, deref, ret;
  repeat
    (cbn [self calls VipsImage.Image VipsImage.Options VipsImage.Buffer
          VipsImage.Type_ VipsImage.with_Options VipsImage.with_Image
          VipsImage.with_Buffer VipsImage.with_Type fst snd];
     match goal with
     | |- context [match ?x with inl _ => _ | inr _ => _ end] =>
         destruct x eqn:?
     | |- context [if ?b then _ else _] => destruct b eqn:?
     end).

Section SavingFacts.

Variable E : Engine.
Variable V : SaveEngine.
Variable K : Constants.

(** [vipsPreSave] never panics and leaves the buffer and the log alone. *)
Lemma vipsPreSave_returns (o : vipsSaveOptions.t) (w : World) :
  exists o' err w',
    vipsPreSave E V K o w = Returns (o', err) w'
    /\ VipsImage.Buffer (self w') = VipsImage.Buffer (self w)
    /\ calls w' = calls w
    /\ (VipsImage.Image (self w) <> None -> VipsImage.Image (self w') <> None)
    /\ vipsSaveOptions.Type_ o' = vipsSaveOptions.Type_ o.
Proof.
  destruct w as [[buf img ty opts] lg]. destruct o.
  unfold vipsPreSave, vipsColourspaceIsSupported, hasProfile.
  destruct img as [c|]; run_monad;
    eexists; eexists; eexists; (split; [reflexivity|]);
    cbn; repeat split; try reflexivity; try discriminate; auto.
Qed.

(** X16: [vipsSave] never encodes to GIF, PDF, SVG or MAGICK, whatever the
    engine: it returns an error, which is [VIPS cannot save to] with the
    quoted name once the preparation went through, and neither the buffer
    nor the log of engine calls changes. *)
Theorem vipsSave_refuses (o : vipsSaveOptions.t) (w : World) :
  In (vipsSaveOptions.Type_ o) [GIF; PDF; SVG; MAGICK] ->
  exists e w',
    vipsSave E V K o w = Returns (Some e) w'
    /\ VipsImage.Buffer (self w') = VipsImage.Buffer (self w)
    /\ calls w' = calls w
    /\ (forall o1 w1, vipsPreSave E V K o w = Returns (o1, None) w1 ->
        e = cannotSave (ImageTypeName (vipsSaveOptions.Type_ o)) /\ w' = w1).
Proof.
  intros Hty. unfold vipsSave. unfold bind at 1. unfold getSelf at 1.
  destruct (VipsImage.Image (self w)) as [c|] eqn:Himg.
  - destruct (vipsPreSave_returns o w) as (o' & err & w' & Hpre & Hb & Hl & _ & HT).
    unfold bind at 1. rewrite Hpre. destruct err as [e|].
    + exists e, w'. split; [reflexivity|]. split; [assumption|].
      split; [assumption|]. intros ? ? H. discriminate H.
    + assert (Hno : negb (ImageType_eqb (vipsSaveOptions.Type_ o') UNKNOWN)
                    && negb (IsTypeSupportedSave V (vipsSaveOptions.Type_ o'))
                    = true).
      { rewrite HT. simpl in Hty.
        destruct Hty as [H|[H|[H|[H|[]]]]]; rewrite <- H; reflexivity. }
      rewrite Hno. eexists. exists w'. split; [reflexivity|].
      split; [assumption|]. split; [assumption|].
      intros ? ? H. split; [|congruence].
      rewrite HT. simpl in Hty.
      destruct Hty as [H'|[H'|[H'|[H'|[]]]]]; rewrite <- H'; reflexivity.
  - exists ErrVipsImageNotValidPointer, w.
    split; [reflexivity|]. split; [reflexivity|]. split; [reflexivity|].
    intros ? ? H. unfold vipsPreSave, bind, getSelf in H.
    rewrite Himg in H. discriminate H.
Qed.

(** X17: [vipsSave] never panics; an error leaves [Buffer] as it was, and a
    nil result means that exactly one encoder ran, the one of the type (JPEG
    unless WEBP, PNG or TIFF), after which [Buffer] holds its output. *)
Theorem vipsSave_buffer (o : vipsSaveOptions.t) (w : World) :
  exists err w',
    vipsSave E V K o w = Returns err w'
    /\ (err <> None ->
        VipsImage.Buffer (self w') = VipsImage.Buffer (self w))
    /\ (err = None ->
        calls w'
        = calls w
          ++ [CallSave match vipsSaveOptions.Type_ o with
                       | WEBP => WEBP | PNG => PNG | TIFF => TIFF | _ => JPEG
                       end]).
Proof.
  unfold vipsSave. unfold bind at 1. unfold getSelf at 1.
  destruct (VipsImage.Image (self w)) as [c|] eqn:Himg.
  - destruct (vipsPreSave_returns o w)
      as (o' & err & w' & Hpre & Hb & Hl & Hi & HT).
    unfold bind at 1. rewrite Hpre. destruct err as [e|].
    + exists (Some e), w'. split; [reflexivity|].
      split; [intros _; assumption | discriminate].
    + rewrite HT.
      destruct (VipsImage.Image (self w')) as [c'|] eqn:Himg';
        [|exfalso; apply Hi; [rewrite Himg; discriminate | reflexivity]].
      destruct (negb (ImageType_eqb (vipsSaveOptions.Type_ o) UNKNOWN)
                && negb (IsTypeSupportedSave V (vipsSaveOptions.Type_ o))).
      * eexists. exists w'. split; [reflexivity|].
        split; [intros _; assumption | discriminate].
      * unfold bind, deref, log, putBuffer, ret. rewrite Himg'. cbn [self calls].
        match goal with
        | |- context [match ?x with inl _ => _ | inr _ => _ end] =>
            destruct x as [out|msg]
        end; eexists; eexists; (split; [reflexivity|]); cbn [self calls];
          (split; [intros H; try (exfalso; apply H; reflexivity);
                   try (cbn; assumption)
                  | intros H; try discriminate H; rewrite Hl; reflexivity]).
  - exists (Some ErrVipsImageNotValidPointer), w.
    split; [reflexivity|]. split; [reflexivity | discriminate].
Qed.

(** X18: [GetICCProfile] reads and changes nothing; it can only return a
    profile for an image in which the engine finds one embedded, and returns
    [No Profile] for any other loaded image. *)
Theorem GetICCProfile_reads (w : World) :
  exists blob err,
    GetICCProfile E V w = Returns (blob, err) w
    /\ (err = None ->
        exists c, VipsImage.Image (self w) = Some c
                  /\ 0 < has_profile_embed E c
                  /\ vips_image_get_blob_bridge V c "icc-profile-data"
                     = inl blob)
    /\ (forall c, VipsImage.Image (self w) = Some c ->
        has_profile_embed E c <= 0 ->
        err = Some "No Profile"%string).
Proof.
  destruct w as [[buf img ty o] lg].
  unfold GetICCProfile, hasProfile, vipsBlob, bind, getSelf, ret.
  cbn [self VipsImage.Image]. destruct img as [c|].
  - destruct (Z.gtb_spec (has_profile_embed E c) 0) as [Hgt|Hle]; cbn [negb].
    + cbn [self VipsImage.Image].
      change (Blob_String VIPS_META_ICC_NAME) with "icc-profile-data"%string.
      destruct (vips_image_get_blob_bridge V c "icc-profile-data")
        as [blob|msg] eqn:Hblob;
        eexists; eexists; (split; [reflexivity|]); split.
      * intros _. exists c. split; [reflexivity|]. split; [lia | assumption].
      * intros c' Hc' Hle. inversion Hc'. subst. lia.
      * discriminate.
      * intros c' Hc' Hle. inversion Hc'. subst. lia.
    + eexists; eexists; (split; [reflexivity|]); split;
        [discriminate | reflexivity].
  - eexists; eexists; (split; [reflexivity|]); split;
      [discriminate | intros c H; discriminate H].
Qed.

End SavingFacts.

Lemma vipsSave_refuses_example :
  let o := vipsSaveOptions.mk 80 6 GIF false false false false EmptyString 0
             false in
  exists e w',
    vipsSave (fakeEngine 1 []) fakeSaveEngine fakeConstants o
      (loaded 10 10 Options.zero)
    = Returns (Some e) w'
    /\ VipsImage.Buffer (self w') = [x89]
    /\ calls w' = []
    /\ (forall o1 w1,
          vipsPreSave (fakeEngine 1 []) fakeSaveEngine fakeConstants o
            (loaded 10 10 Options.zero) = Returns (o1, None) w1 ->
          e = cannotSave (ImageTypeName GIF) /\ w' = w1).
Proof.
  intros o.
  apply (vipsSave_refuses (fakeEngine 1 []) fakeSaveEngine fakeConstants o
           (loaded 10 10 Options.zero)).
  simpl. auto.
Defined.

Lemma vipsSave_buffer_example :
  let o := vipsSaveOptions.mk 80 6 UNKNOWN false false false false EmptyString
             0 false in
  exists w',
    vipsSave (fakeEngine 1 []) fakeSaveEngine fakeConstants o
      (loaded 10 10 Options.zero) = Returns None w'
    /\ calls w' = [CallSave JPEG] /\ VipsImage.Buffer (self w') = [xff].
Proof.
  intros o.
  destruct (vipsSave_buffer (fakeEngine 1 []) fakeSaveEngine fakeConstants o
              (loaded 10 10 Options.zero)) as (err & w' & Heq & _ & Hok).
  exists w'.
  assert (Hrun : vipsSave (fakeEngine 1 []) fakeSaveEngine fakeConstants o
                   (loaded 10 10 Options.zero)
                 = Returns None
                     (mkWorld (VipsImage.mk [xff] (Some (CImage.mk 10 10 3 0))
                                 PNG Options.zero) [CallSave JPEG]))
    by reflexivity.
  rewrite Hrun in Heq. inversion Heq. subst.
  split; [reflexivity|]. split; [apply Hok; reflexivity | reflexivity].
Defined.

Lemma GetICCProfile_reads_example :
  exists blob,
    GetICCProfile (fakeEngine 1 []) fakeSaveEngine (loaded 10 10 Options.zero)
    = Returns (blob, Some "No Profile"%string) (loaded 10 10 Options.zero).
Proof.
  destruct (GetICCProfile_reads (fakeEngine 1 []) fakeSaveEngine
              (loaded 10 10 Options.zero)) as (blob & err & Heq & _ & Hno).
  exists blob. rewrite Heq.
  rewrite (Hno (CImage.mk 10 10 3 0) eq_refl ltac:(simpl; lia)).
  reflexivity.
Defined.

(* ================================================================== *)
(** ** The cache of supported types *)

Lemma ImageType_eqb_eq (a b : ImageType) : ImageType_eqb a b = true <-> a = b.
Proof. destruct a, b; simpl; split; congruence. Qed.

Lemma ImageType_eqb_refl (a : ImageType) : ImageType_eqb a a = true.
Proof. destruct a; reflexivity. Qed.

Lemma inImageTypes_In (order : list (ImageType * string)) (k : ImageType) :
  Permutation order ImageTypes ->
  (existsb (fun kv => ImageType_eqb (fst kv) k) order = inImageTypes k).
Proof.
  intros Hperm. unfold inImageTypes.
  destruct (existsb (fun kv => ImageType_eqb (fst kv) k) ImageTypes) eqn:H.
  - apply existsb_exists in H. destruct H as (kv & Hin & Hk).
    apply existsb_exists. exists kv. split; [|assumption].
    apply Permutation_in with ImageTypes; [symmetry|]; assumption.
  - destruct (existsb _ order) eqn:H'; [|reflexivity].
    apply existsb_exists in H'. destruct H' as (kv & Hin & Hk).
    assert (Ht : existsb (fun kv => ImageType_eqb (fst kv) k) ImageTypes = true).
    { apply existsb_exists. exists kv. split; [|assumption].
      apply Permutation_in with order; assumption. }
    congruence.
Qed.

Section CacheFacts.

Variable E : Engine.
Variable V : SaveEngine.

(** A discovery stores, under every key it visits, what the engine says. *)
Lemma discover_lookup (order : list (ImageType * string)) (m : Cache.t)
  (k : ImageType) :
  Cache.discoverSupportedImageTypes E V order m k
  = if existsb (fun kv => ImageType_eqb (fst kv) k) order
    then Some (Cache.entry E V k) else m k.
Proof.
  unfold Cache.discoverSupportedImageTypes. revert m.
  induction order as [|[k' n] order IH]; intros m; [reflexivity|].
  cbn [fold_left existsb fst]. rewrite IH.
  destruct (existsb (fun kv => ImageType_eqb (fst kv) k) order).
  - rewrite orb_true_r. reflexivity.
  - rewrite orb_false_r. unfold Cache.store.
    destruct (ImageType_eqb k' k) eqn:Hk; [|reflexivity].
    apply ImageType_eqb_eq in Hk. subst. reflexivity.
Qed.

Lemma discover_discovered (order : list (ImageType * string)) (m : Cache.t)
  (k : ImageType) :
  Permutation order ImageTypes -> (forall k, m k = None) ->
  Cache.discoverSupportedImageTypes E V order m k = Cache.discovered E V k.
Proof.
  intros Hperm Hm. rewrite discover_lookup, (inImageTypes_In order k Hperm), Hm.
  reflexivity.
Qed.

Lemma len_empty (m : Cache.t) : (forall k, m k = None) -> Cache.len m = 0%nat.
Proof. intros Hm. unfold Cache.len. simpl. rewrite !Hm. reflexivity. Qed.

Lemma len_discovered (m : Cache.t) :
  (forall k, m k = Cache.discovered E V k) -> Cache.len m = 8%nat.
Proof. intros Hm. unfold Cache.len. simpl. rewrite !Hm. reflexivity. Qed.

(** The answer of [IsImageTypeSupportedByVips] on a coherent cache. *)
Lemma IsImageTypeSupportedByVips_coherent (order : list (ImageType * string))
  (ty : ImageType) (m : Cache.t) :
  Permutation order ImageTypes -> Cache.coherent E V m ->
  fst (Cache.IsImageTypeSupportedByVips E V order ty m)
  = (if inImageTypes ty then Cache.entry E V ty
     else SupportedImageType.mk false false)
  /\ (forall k, snd (Cache.IsImageTypeSupportedByVips E V order ty m) k
                = Cache.discovered E V k).
Proof.
  intros Hperm [Hm|Hm]; unfold Cache.IsImageTypeSupportedByVips.
  - rewrite (len_empty m Hm). cbn [Nat.eqb].
    rewrite (discover_discovered order m ty Hperm Hm).
    unfold Cache.discovered.
    destruct (inImageTypes ty); cbn [fst snd]; (split; [reflexivity|]);
      intros k; apply discover_discovered; assumption.
  - rewrite (len_discovered m Hm). cbn [Nat.eqb]. rewrite Hm.
    unfold Cache.discovered.
    destruct (inImageTypes ty); cbn [fst snd]; (split; [reflexivity|]);
      exact Hm.
Qed.

(** X19: the cache of [IsImageTypeSupportedByVips] is transparent.  On a
    cache that was never filled or was filled by a discovery, and whatever
    order the discovery visits the table in, [IsTypeSupported] and
    [IsTypeSupportedSave] answer what the engine says for the types of
    [ImageTypes] and [false] for any other type, and a cache that was
    coherent stays so. *)
Theorem cache_transparent (order : list (ImageType * string))
  (ty : ImageType) (m : Cache.t) :
  Permutation order ImageTypes -> Cache.coherent E V m ->
  fst (Cache.IsTypeSupported E V order ty m) = IsTypeSupported E ty
  /\ fst (Cache.IsTypeSupportedSave E V order ty m) = IsTypeSupportedSave V ty
  /\ Cache.coherent E V (snd (Cache.IsTypeSupported E V order ty m))
  /\ Cache.coherent E V (snd (Cache.IsTypeSupportedSave E V order ty m)).
Proof.
  intros Hperm Hm.
  destruct (IsImageTypeSupportedByVips_coherent order ty m Hperm Hm)
    as [Hans Hcache].
  unfold Cache.IsTypeSupported, Cache.IsTypeSupportedSave,
    IsTypeSupported, IsTypeSupportedSave.
  destruct (Cache.IsImageTypeSupportedByVips E V order ty m) as [s m'].
  cbn [fst snd] in Hans, Hcache.
  destruct (inImageTypes ty) eqn:Hin.
  - subst s. cbn [fst snd SupportedImageType.Load SupportedImageType.Save].
    repeat split; try (right; assumption).
    destruct ty; try discriminate Hin; reflexivity.
  - cbn [fst snd]. destruct ty; try discriminate Hin.
    repeat split; assumption.
Qed.

End CacheFacts.

Lemma cache_transparent_example :
  let E := withTypeFind (fakeEngine 1 [])
             (fun t => match t with GIF => 0 | _ => 1 end) in
  fst (Cache.IsTypeSupported E fakeSaveEngine (rev ImageTypes) GIF Cache.empty)
  = false
  /\ fst (Cache.IsTypeSupportedSave E fakeSaveEngine (rev ImageTypes) GIF
            Cache.empty) = false
  /\ fst (Cache.IsTypeSupported E fakeSaveEngine (rev ImageTypes) PNG
            Cache.empty) = true.
Proof.
  intros E.
  assert (Hperm : Permutation (rev ImageTypes) ImageTypes)
    by (symmetry; apply Permutation_rev).
  assert (Hco : Cache.coherent E fakeSaveEngine Cache.empty)
    by (left; reflexivity).
  destruct (cache_transparent E fakeSaveEngine (rev ImageTypes) GIF Cache.empty
              Hperm Hco) as (H1 & H2 & _).
  destruct (cache_transparent E fakeSaveEngine (rev ImageTypes) PNG Cache.empty
              Hperm Hco) as (H3 & _).
  rewrite H1, H2, H3. repeat split.
Defined.

Section NameFacts.

Variable E : Engine.
Variable V : SaveEngine.

(** X20: asking by name is asking by type.  In whatever orders the two
    loops over [ImageTypes] run, and on a coherent cache,
    [IsTypeNameSupported] and [IsTypeNameSupportedSave] answer for a name
    what [IsTypeSupported] and [IsTypeSupportedSave] answer for the type
    that [imageTypeToID] gives the name, which is [false] for a name of no
    type. *)
Theorem IsTypeNameSupported_by_name (visit order : list (ImageType * string))
  (name : string) (m : Cache.t) :
  Permutation visit ImageTypes -> Permutation order ImageTypes ->
  Cache.coherent E V m ->
  let ty := lookupName imageTypeToID UNKNOWN name in
  fst (Cache.IsTypeNameSupported E V visit order name m) = IsTypeSupported E ty
  /\ fst (Cache.IsTypeNameSupportedSave E V visit order name m)
     = IsTypeSupportedSave V ty.
Proof.
  intros Hvisit Horder Hm ty.
  unfold Cache.IsTypeNameSupported, Cache.IsTypeNameSupportedSave.
  destruct (find (fun kv => String.eqb (snd kv) name) visit) as [[k n]|] eqn:Hf.
  - apply find_some in Hf. destruct Hf as [Hin Hn].
    apply String.eqb_eq in Hn. cbn [snd] in Hn. subst n.
    apply (Permutation_in _ Hvisit) in Hin.
    destruct (IsImageTypeSupportedByVips_coherent E V order k m Horder Hm)
      as [Hans _].
    cbn [fst]. destruct (Cache.IsImageTypeSupportedByVips E V order k m)
      as [s m'].
    cbn [fst] in Hans. subst s. subst ty.
    unfold ImageTypes in Hin. simpl in Hin.
    repeat (destruct Hin as [Heq|Hin];
            [inversion Heq; subst; split; reflexivity|]).
    destruct Hin.
  - assert (Hnot : ~ In name (map fst imageTypeToID)).
    { intros Hin.
      assert (Hin' : exists k, In (k, name) visit).
      { simpl in Hin.
        repeat (destruct Hin as [<-|Hin];
                [eexists; apply (Permutation_in _ (Permutation_sym Hvisit));
                 unfold ImageTypes; simpl; auto 10|]).
        destruct Hin. }
      destruct Hin' as [k Hk].
      pose proof (find_none _ _ Hf _ Hk) as Hk'. cbn [snd] in Hk'.
      rewrite String.eqb_refl in Hk'. discriminate Hk'. }
    subst ty. rewrite (lookupName_missing imageTypeToID UNKNOWN name Hnot).
    split; reflexivity.
Qed.

End NameFacts.

Lemma IsTypeNameSupported_by_name_example :
  let E := withTypeFind (fakeEngine 1 [])
             (fun t => match t with WEBP => 0 | _ => 1 end) in
  fst (Cache.IsTypeNameSupported E fakeSaveEngine (rev ImageTypes) ImageTypes
         "webp" Cache.empty) = false
  /\ fst (Cache.IsTypeNameSupported E fakeSaveEngine (rev ImageTypes) ImageTypes
            "jpeg" Cache.empty) = true
  /\ fst (Cache.IsTypeNameSupported E fakeSaveEngine (rev ImageTypes) ImageTypes
            "bmp" Cache.empty) = false.
Proof.
  intros E.
  assert (Hperm : Permutation (rev ImageTypes) ImageTypes)
    by (symmetry; apply Permutation_rev).
  assert (Hco : Cache.coherent E fakeSaveEngine Cache.empty)
    by (left; reflexivity).
  destruct (IsTypeNameSupported_by_name E fakeSaveEngine (rev ImageTypes)
              ImageTypes "webp" Cache.empty Hperm (Permutation_refl _) Hco)
    as [H1 _].
  destruct (IsTypeNameSupported_by_name E fakeSaveEngine (rev ImageTypes)
              ImageTypes "jpeg" Cache.empty Hperm (Permutation_refl _) Hco)
    as [H2 _].
  destruct (IsTypeNameSupported_by_name E fakeSaveEngine (rev ImageTypes)
              ImageTypes "bmp" Cache.empty Hperm (Permutation_refl _) Hco)
    as [H3 _].
  rewrite H1, H2, H3. repeat split.
Defined.

(** [calculateCrop] on sizes that cannot overflow. *)
Lemma calculateCrop_offsets (inW inH outW outH : Z) (g : Gravity) :
  fits62 inW -> fits62 inH -> fits62 outW -> fits62 outH ->
  calculateCrop inW inH outW outH g =
    match g with
    | GravityNorth => ((inW - outW + 1) ÷ 2, 0)
    | GravityEast => (inW - outW, (inH - outH + 1) ÷ 2)
    | GravitySouth => ((inW - outW + 1) ÷ 2, inH - outH)
    | GravityWest => (0, (inH - outH + 1) ÷ 2)
    | GravityCentre | GravitySmart =>
        ((inW - outW + 1) ÷ 2, (inH - outH + 1) ÷ 2)
    end.
Proof.
  intros HiW HiH HoW HoH. unfold calculateCrop.
  rewrite !centre_exact, !sub_exact by assumption.
  destruct g; reflexivity.
Qed.

(* ================================================================== *)
(** ** The crop window *)

(** The offset of [calculateCrop] along one axis, cut off at 0 as
    [extractOrEmbedImage] does, keeps the window inside the source. *)
Lemma crop_offset_inside (inW outW off : Z) :
  0 < inW -> 0 <= outW ->
  off = (inW - outW + 1) ÷ 2 \/ off = inW - outW \/ off = 0 ->
  0 <= Z.max off 0 /\ Z.max off 0 + Z.min inW outW <= inW.
Proof.
  intros Hin Hout Hoff. split; [lia|].
  assert (Hq : forall d, 0 <= d -> 0 <= (d + 1) ÷ 2 <= d).
  { intros d Hd. pose proof (Z.quot_pos (d + 1) 2 ltac:(lia) ltac:(lia)).
    split; [assumption|].
    destruct (Z.eq_dec d 0) as [->|Hne]; [reflexivity|].
    apply Z.quot_le_upper_bound; lia. }
  assert (Hn : forall d, d < 0 -> (d + 1) ÷ 2 <= 0).
  { intros d Hd. rewrite <- (Z.opp_involutive (d + 1)), Z.quot_opp_l by lia.
    pose proof (Z.quot_pos (- (d + 1)) 2 ltac:(lia) ltac:(lia)). lia. }
  destruct (Z.le_gt_cases outW inW) as [Hle|Hgt].
  - rewrite Z.min_r by lia. specialize (Hq (inW - outW) ltac:(lia)).
    destruct Hoff as [-> | [-> | ->]]; lia.
  - rewrite Z.min_l by lia. specialize (Hn (inW - outW) ltac:(lia)).
    destruct Hoff as [-> | [-> | ->]]; lia.
Qed.

(** X21: a crop stays inside the image.  Take the [Crop] case of
    [extractOrEmbedImage] (no smart crop) on a receiver whose options have
    [Extract.Relative] unset, with a source under [2 ^ 24] pixels a side and
    a requested width and height that are not negative (and under
    [2 ^ 52]).  The width and height of the area are the smaller of the
    source's and the requested ones.  When one of them exceeds [MaxSize] the
    function returns [Maximum image size exceeded] and changes nothing;
    otherwise it does not panic, leaves the receiver alone and starts by
    asking the engine for the area at the offsets of [calculateCrop] cut
    off at 0, which lies within the source: the offsets are not negative
    and offset plus extent stays within the source on both axes. *)
Theorem crop_within_source (E : Engine) (K : Constants) (o : Options.t)
  (w : World) (c : CImage.t) :
  let crop := calculateCrop (CImage.Xsize c) (CImage.Ysize c)
                (Options.Width o) (Options.Height o) (Options.Gravity o) in
  let left := Z.max (fst crop) 0 in
  let top := Z.max (snd crop) 0 in
  let width := Z.min (CImage.Xsize c) (Options.Width o) in
  let height := Z.min (CImage.Ysize c) (Options.Height o) in
  let refused :=
    IEEE.gtb (F32.of_int width) (F32.of_int (MaxSize K))
    || IEEE.gtb (F32.of_int height) (F32.of_int (MaxSize K)) in
  VipsImage.Image (self w) = Some c ->
  Extract.Relative (Options.Extract (VipsImage.Options (self w))) = false ->
  0 < CImage.Xsize c < 2 ^ 24 -> 0 < CImage.Ysize c < 2 ^ 24 ->
  0 <= Options.Width o < 2 ^ 52 -> 0 <= Options.Height o < 2 ^ 52 ->
  Options.Crop o = true -> Options.SmartCrop o = false ->
  Gravity_eqb (Options.Gravity o) GravitySmart = false ->
  exists r w',
    extractOrEmbedImage E K o w = Returns r w'
    /\ if refused
       then r = (None, Some "Maximum image size exceeded"%string) /\ w' = w
       else self w' = self w
            /\ (exists rest,
                  calls w'
                  = calls w ++ CallExtractArea left top width height :: rest)
            /\ 0 <= left /\ left + width <= CImage.Xsize c
            /\ 0 <= top /\ top + height <= CImage.Ysize c.
Proof.
  intros crop left top width height refused.
  destruct w as [[buf img ty opts] lg].
  cbn [self VipsImage.Image VipsImage.Options].
  intros -> Hrel HX HY HW HH Hcrop Hsmart Hg.
  unfold extractOrEmbedImage. unfold bind at 1. unfold deref at 1.
  cbn [self VipsImage.Image]. rewrite Hg, Hsmart, Hcrop. cbn [orb].
  (* the four numbers *)
  assert (H24 : 2 ^ 24 < 2 ^ 52) by (vm_compute; reflexivity).
  assert (H52 : 2 ^ 52 < 2 ^ 53) by (vm_compute; reflexivity).
  assert (H62 : 2 ^ 53 < 2 ^ 62) by (vm_compute; reflexivity).
  rewrite (to_int_Min_of_int (CImage.Xsize c) (Options.Width o)) by lia.
  rewrite (to_int_Min_of_int (CImage.Ysize c) (Options.Height o)) by lia.
  fold width height. fold crop.
  assert (Hoffs :
            (fst crop = (CImage.Xsize c - Options.Width o + 1) ÷ 2
             \/ fst crop = CImage.Xsize c - Options.Width o \/ fst crop = 0)
            /\ (snd crop = (CImage.Ysize c - Options.Height o + 1) ÷ 2
                \/ snd crop = CImage.Ysize c - Options.Height o
                \/ snd crop = 0)).
  { unfold crop. rewrite calculateCrop_offsets by (unfold fits62; lia).
    destruct (Options.Gravity o); cbn [fst snd]; auto. }
  unfold left, top. clearbody crop. destruct crop as [left_ top_].
  cbn [fst snd] in *. clear left top.
  destruct Hoffs as [Hl Ht].
  assert (Hlr : - 2 ^ 53 < left_ < 2 ^ 53).
  { assert (Hq : Z.abs ((CImage.Xsize c - Options.Width o + 1) ÷ 2)
                 <= Z.abs (CImage.Xsize c - Options.Width o + 1)).
    { rewrite <- Z.quot_abs by lia.
      apply Z.quot_le_upper_bound; lia. }
    destruct Hl as [-> | [-> | ->]]; lia. }
  assert (Htr : - 2 ^ 53 < top_ < 2 ^ 53).
  { assert (Hq : Z.abs ((CImage.Ysize c - Options.Height o + 1) ÷ 2)
                 <= Z.abs (CImage.Ysize c - Options.Height o + 1)).
    { rewrite <- Z.quot_abs by lia.
      apply Z.quot_le_upper_bound; lia. }
    destruct Ht as [-> | [-> | ->]]; lia. }
  rewrite (to_int_Max_zero left_ Hlr), (to_int_Max_zero top_ Htr).
  destruct (crop_offset_inside (CImage.Xsize c) (Options.Width o) left_
              ltac:(lia) ltac:(lia) Hl) as [Hl0 Hl1].
  destruct (crop_offset_inside (CImage.Ysize c) (Options.Height o) top_
              ltac:(lia) ltac:(lia) Ht) as [Ht0 Ht1].
  fold width in Hl1. fold height in Ht1.
  set (left := Z.max left_ 0) in *. set (top := Z.max top_ 0) in *.
  (* the call *)
  unfold vipsExtract. unfold bind at 1. unfold getSelf at 1.
  cbn [self VipsImage.Image VipsImage.Options]. rewrite Hrel.
  fold refused. destruct refused.
  - unfold ret. eexists. eexists. split; [reflexivity|].
    split; reflexivity.
  - assert (Hwr : 0 <= width < 2 ^ 24) by (unfold width; lia).
    assert (Hhr : 0 <= height < 2 ^ 24) by (unfold height; lia).
    assert (Hlf : 0 <= left < 2 ^ 24) by lia.
    assert (Htp : 0 <= top < 2 ^ 24) by lia.
    rewrite !F32_to_cint_of_int by assumption.
    clearbody left top width height.
    unfold bind, log, on, getImageBuffer, getSelf, putBuffer, ret.
    cbn [self calls VipsImage.Image VipsImage.Type_].
    destruct (vips_extract_area_bridge E c left top width height)
      as [image|msg]; cbn.
    + destruct (vips_save_bridge E JPEG image) as [out|msg]; cbn;
        eexists; eexists; (split; [reflexivity|]); cbn;
        (split; [reflexivity|]);
        (split; [eexists; rewrite <- app_assoc; reflexivity|]);
        repeat split; assumption.
    + eexists. eexists. split; [reflexivity|]. cbn.
      split; [reflexivity|]. split; [exists []; reflexivity|].
      repeat split; assumption.
Qed.

Lemma crop_within_source_example :
  let o := setCrop (setHeight (setWidth Options.zero 1200) 400) true in
  exists r w',
    extractOrEmbedImage (fakeEngine 1 []) fakeConstants o (loaded 1000 800 o)
    = Returns r w'
    /\ self w' = self (loaded 1000 800 o)
    /\ (exists rest, calls w' = CallExtractArea 0 200 1000 400 :: rest).
Proof.
  intros o.
  destruct (crop_within_source (fakeEngine 1 []) fakeConstants o
              (loaded 1000 800 o) (CImage.mk 1000 800 3 0))
    as (r & w' & Hrun & Hself & Hcall & _);
    try reflexivity; try (simpl; lia).
  exists r, w'. split; [exact Hrun|]. split; [exact Hself|]. exact Hcall.
Defined.

(* ================================================================== *)
(** ** The method DSL *)

(** X22: [Resize] to a box larger than the source on both sides does
    nothing to the picture, on an upright image (no EXIF rotation) of a
    supported type that needs no flattening (the type is not PNG, or
    [ColorBlack] is the zero colour, which is the background of fresh
    options) and whose options are fresh: although [Embed] is set, the
    request is cut down to the source's size, [Resize] returns nil, no
    engine call is made and the image and the buffer stay as they are. *)
Theorem Resize_larger_is_idle (E : Engine) (K : Constants) (c : CImage.t)
  (buf : list byte) (ty : ImageType) (lg : list Call) (width height : Z) :
  IsTypeSupported E ty = true ->
  fst (exifTable (vips_exif_orientation E c)) = 0 ->
  0 < CImage.Xsize c -> 0 < CImage.Ysize c ->
  GoInt.in_range 32 (CImage.Xsize c) -> GoInt.in_range 32 (CImage.Ysize c) ->
  ImageType_eqb ty PNG = false
  \/ Color.eqb (Color.mk 0 0 0 0) (ColorBlack K) = true ->
  CImage.Xsize c < width -> CImage.Ysize c < height ->
  exists o',
    Dsl.Resize E K width height
      (mkWorld (VipsImage.mk buf (Some c) ty Options.zero) lg)
    = Returns None (mkWorld (VipsImage.mk buf (Some c) ty o') lg)
    /\ Options.Width o' = CImage.Xsize c
    /\ Options.Height o' = CImage.Ysize c
    /\ Options.Embed o' = true.
Proof.
  intros Hty Hrot HX HY HXr HYr Hflat HW HH.
  unfold Dsl.Resize, Dsl.assign, Dsl.Process.
  unfold bind at 1. unfold bind at 1. unfold getOptions at 1.
  unfold putOptions at 1.
  cbn [self calls VipsImage.with_Options VipsImage.Options].
  change (setEmbed (setHeight (setWidth Options.zero width) height) true)
    with (requesting width height true Extract.none).
  set (img := VipsImage.mk buf (Some c) ty
                (requesting width height true Extract.none)).
  set (o1 := applyDefaults K img).
  assert (Hno : normalizeOperation o1 = o1) by reflexivity.
  assert (Hbox : smallerThanBox c o1 = true).
  { unfold smallerThanBox.
    change (Options.Width o1) with width.
    change (Options.Height o1) with height.
    assert (H1 : (CImage.Xsize c <? width) = true) by (apply Z.ltb_lt; lia).
    assert (H2 : (CImage.Ysize c <? height) = true) by (apply Z.ltb_lt; lia).
    rewrite H1, H2. reflexivity. }
  set (o3 := setHeight (setWidth o1 (CImage.Xsize c)) (CImage.Ysize c)).
  assert (Hclamp : clampToSource c (normalizeOperation o1) = o3)
    by (rewrite Hno; unfold clampToSource; rewrite Hbox; reflexivity).
  destruct (plan_at_source_size E c o3 HX HY HXr HYr eq_refl eq_refl)
    as (HSF & _ & _).
  pose proof (Process_at_source_size E K c buf ty lg width height true
                Extract.none Hty Hrot HX HY HXr HYr) as Hp.
  cbv zeta in Hp. fold img in Hp. fold o1 in Hp.
  rewrite Hclamp, HSF in Hp. cbn [snd] in Hp.
  unfold orReturn at 1. unfold bind at 1.
  change (VipsImage.with_Options (VipsImage.mk buf (Some c) ty Options.zero)
            (requesting width height true Extract.none)) with img.
  rewrite Hp by reflexivity. clear Hp.
  set (W := mkWorld (VipsImage.mk buf (Some c) ty o3) lg).
  assert (Hgate : transformStage E K 1 F64.one W = Returns None W).
  { unfold transformStage, bind, deref, getOptions, W.
    cbn [self VipsImage.Options VipsImage.Image].
    unfold shouldTransformImage.
    change (Options.Width o3) with (CImage.Xsize c).
    change (Options.Height o3) with (CImage.Ysize c).
    rewrite !Z.ltb_irrefl. cbn. rewrite !andb_false_r. reflexivity. }
  rewrite (orReturn_nil _ _ _ _ Hgate).
  rewrite Process_tail_idle; try reflexivity; [|exact Hflat].
  exists o3. repeat split.
Qed.

Lemma Resize_larger_is_idle_example :
  exists o',
    Dsl.Resize (fakeEngine 1 []) fakeConstants 800 600
      (mkWorld (VipsImage.mk [x89] (Some (CImage.mk 640 480 3 0)) PNG
                  Options.zero) [])
    = Returns None
        (mkWorld (VipsImage.mk [x89] (Some (CImage.mk 640 480 3 0)) PNG o') [])
    /\ Options.Width o' = 640 /\ Options.Height o' = 480
    /\ Options.Embed o' = true.
Proof.
  apply (Resize_larger_is_idle (fakeEngine 1 []) fakeConstants
           (CImage.mk 640 480 3 0) [x89] PNG [] 800 600);
    try reflexivity; try (right; reflexivity);
    unfold GoInt.in_range; simpl; lia.
Defined.

(** The transform stage for an extract area whose top is -1, on options
    that ask for nothing else. *)
Lemma transformStage_extract_origin (E : Engine) (K : Constants)
  (c : CImage.t) (buf : list byte) (ty : ImageType) (lg : list Call)
  (width height : Z) (o : Options.t) :
  let x := Extract.mk (F32.of_int 0) (F32.of_int (-1)) (F32.of_int width)
             (F32.of_int height) false in
  0 < width < 2 ^ 24 -> 0 < height < 2 ^ 24 ->
  o = setHeight
        (setWidth
           (setInterpretation
              (setType (setCompression
                 (setQuality (requesting 0 0 false x) (Quality K)) 6) ty)
              (InterpretationSRGB K))
           (CImage.Xsize c)) (CImage.Ysize c) ->
  exists err w',
    transformStage E K 1 F64.one (mkWorld (VipsImage.mk buf (Some c) ty o) lg)
    = Returns err w'
    /\ VipsImage.Options (self w') = o
    /\ VipsImage.Type_ (self w') = ty
    /\ ((calls w' = lg ++ [CallResize F64.one] /\ err <> None)
        \/ exists rest,
             calls w'
             = lg ++ [CallResize F64.one; CallExtractArea 0 (-1) width height]
                  ++ rest).
Proof.
  intros x Hw Hh Ho.
  destruct (F32_of_int_pos width Hw) as (mw & ew & Hfw).
  destruct (F32_of_int_pos height Hh) as (mh & eh & Hfh).
  assert (Hgw : IEEE.gtb (F32.of_int width) F32.zero = true)
    by (rewrite Hfw; reflexivity).
  assert (Hew : SFeqb (F32.of_int width) F32.zero = false)
    by (rewrite Hfw; reflexivity).
  assert (Heh : SFeqb (F32.of_int height) F32.zero = false)
    by (rewrite Hfh; reflexivity).
  assert (Hgate : shouldTransformImage c o = true).
  { unfold shouldTransformImage. rewrite Ho. cbn. rewrite Hgw.
    rewrite !orb_true_r. reflexivity. }
  unfold transformStage. unfold bind at 1. unfold deref at 1.
  cbn [self VipsImage.Image].
  unfold bind at 1. unfold getOptions at 1. cbn [self VipsImage.Options].
  rewrite Hgate.
  unfold transformImage. change (1 >? 1) with false.
  unfold bind at 1. unfold ret at 1. cbn iota.
  unfold bind at 1. unfold getOptions at 1. cbn [self VipsImage.Options].
  assert (HF : Options.Force o = false) by (rewrite Ho; reflexivity).
  assert (HI : Options.Interpolator o = Bicubic) by (rewrite Ho; reflexivity).
  rewrite HF, HI. change (negb (SFeqb F64.one F64.zero)) with true.
  cbn [orb]. cbv beta iota zeta.
  unfold orReturn at 1. unfold bind at 1.
  unfold vipsResize, replacing. unfold bind at 1. unfold getSelf at 1.
  cbn [self VipsImage.Image].
  unfold bind at 1. unfold log at 1. cbn [self calls].
  destruct (vips_resize_bridge E c F64.one Bicubic) as [image|msg].
  2:{ unfold ret. eexists. eexists. split; [reflexivity|]. cbn [self calls].
      split; [reflexivity|]. split; [reflexivity|].
      left. split; [reflexivity | discriminate]. }
  unfold bind at 1. unfold putImage at 1. cbn [self calls VipsImage.with_Image
    VipsImage.Buffer VipsImage.Type_ VipsImage.Options VipsImage.Image].
  unfold ret at 1.
  unfold bind at 1. unfold putOptions at 1.
  cbn [self calls VipsImage.with_Options VipsImage.Buffer VipsImage.Type_
       VipsImage.Options VipsImage.Image].
  (* the extract area *)
  unfold bind at 1. unfold extractOrEmbedImage.
  unfold bind at 1. unfold deref at 1. cbn [self VipsImage.Image].
  assert (Hcase : Gravity_eqb (Options.Gravity o) GravitySmart
                  || Options.SmartCrop o = false) by (rewrite Ho; reflexivity).
  assert (Hcr : Options.Crop o = false) by (rewrite Ho; reflexivity).
  assert (Hem : Options.Embed o = false) by (rewrite Ho; reflexivity).
  assert (Htr : Options.Trim o = false) by (rewrite Ho; reflexivity).
  assert (Hx : Options.Extract o = x) by (rewrite Ho; reflexivity).
  rewrite Hcase, Hcr, Hem, Htr, Hx.
  cbn [Extract.Top Extract.Left Extract.Width Extract.Height x].
  change (negb (SFeqb (F32.of_int (-1)) F32.zero)) with true. cbn [orb].
  rewrite Hew, Heh. cbn [orb].
  rewrite Hew, Heh. cbn [orb].
  unfold vipsExtract, getSelf, bind.
  cbn [self calls VipsImage.with_Options VipsImage.with_Image
       VipsImage.Buffer VipsImage.Type_ VipsImage.Options VipsImage.Image].
  rewrite Hx. cbn [Extract.Relative x].
  destruct (IEEE.gtb (F32.of_int width) (F32.of_int (MaxSize K))
            || IEEE.gtb (F32.of_int height) (F32.of_int (MaxSize K))).
  { unfold ret. eexists. eexists. split; [reflexivity|]. cbn [self calls].
    split; [reflexivity|]. split; [reflexivity|].
    left. split; [reflexivity | discriminate]. }
  rewrite (F32_to_cint_of_int width), (F32_to_cint_of_int height) by lia.
  change (F32.to_cint (F32.of_int 0)) with 0.
  change (F32.to_cint (F32.of_int (-1))) with (-1).
  unfold log at 1.
  cbn [self calls VipsImage.with_Options VipsImage.with_Image
       VipsImage.Buffer VipsImage.Type_ VipsImage.Options VipsImage.Image].
  destruct (vips_extract_area_bridge E image 0 (-1) width height)
    as [area|msg].
  2:{ unfold ret. eexists. eexists. split; [reflexivity|]. cbn [self calls].
      split; [reflexivity|]. split; [reflexivity|].
      right. exists []. rewrite <- app_assoc. reflexivity. }
  unfold on, getImageBuffer, getSelf, bind.
  cbn [self calls VipsImage.with_Options VipsImage.with_Image
       VipsImage.Buffer VipsImage.Type_ VipsImage.Options VipsImage.Image].
  unfold log at 1. cbn [self calls].
  destruct (vips_save_bridge E JPEG area) as [out|msg].
  - unfold putBuffer, putImage, ret.
    cbn [self calls snd fst VipsImage.with_Buffer VipsImage.with_Image
         VipsImage.Buffer VipsImage.Image VipsImage.Type_ VipsImage.Options].
    destruct (0 <? Z.of_nat (List.length out));
      cbn [self calls VipsImage.with_Buffer VipsImage.with_Image
           VipsImage.Buffer VipsImage.Image VipsImage.Type_ VipsImage.Options];
      eexists; eexists; (split; [reflexivity|]); cbn [self calls];
      (split; [reflexivity|]); (split; [reflexivity|]);
      right; exists [CallSave JPEG]; rewrite <- !app_assoc; reflexivity.
  - unfold ret. cbn [self calls snd fst].
    eexists. eexists. split; [reflexivity|]. cbn [self calls].
    split; [reflexivity|]. split; [reflexivity|].
    right. exists [CallSave JPEG]. rewrite <- !app_assoc. reflexivity.
Qed.

(** X23: [Extract] with [top] and [left] both 0 never asks for the area at
    the origin.  On an upright image with fresh options it first has the
    image resized by the factor 1, and then, unless that failed or the size
    was refused, asks the engine for the area whose top is -1. *)
Theorem Extract_at_origin (E : Engine) (K : Constants) (c : CImage.t)
  (buf : list byte) (ty : ImageType) (lg : list Call) (width height : Z) :
  IsTypeSupported E ty = true ->
  fst (exifTable (vips_exif_orientation E c)) = 0 ->
  0 < CImage.Xsize c -> 0 < CImage.Ysize c ->
  GoInt.in_range 32 (CImage.Xsize c) -> GoInt.in_range 32 (CImage.Ysize c) ->
  ImageType_eqb ty PNG = false
  \/ Color.eqb (Color.mk 0 0 0 0) (ColorBlack K) = true ->
  0 < width < 2 ^ 24 -> 0 < height < 2 ^ 24 ->
  exists err w',
    Dsl.Extract E K 0 0 width height
      (mkWorld (VipsImage.mk buf (Some c) ty Options.zero) lg)
    = Returns err w'
    /\ ((calls w' = lg ++ [CallResize F64.one] /\ err <> None)
        \/ exists rest,
             calls w'
             = lg ++ [CallResize F64.one; CallExtractArea 0 (-1) width height]
                  ++ rest).
Proof.
  intros Hty Hrot HX HY HXr HYr Hflat Hw Hh.
  unfold Dsl.Extract, Dsl.assign, Dsl.Process.
  unfold bind at 1. unfold bind at 1. unfold getOptions at 1.
  unfold putOptions at 1.
  cbn [self calls VipsImage.with_Options VipsImage.Options].
  set (x := Extract.mk (F32.of_int 0) (F32.of_int (-1)) (F32.of_int width)
              (F32.of_int height) false).
  set (img := VipsImage.mk buf (Some c) ty (requesting 0 0 false x)).
  match goal with
  | |- context [mkWorld ?i lg] => change i with img
  end.
  set (o1 := applyDefaults K img).
  assert (Hbox : smallerThanBox c o1 = false).
  { unfold smallerThanBox. change (Options.Width o1) with 0.
    assert (H : (CImage.Xsize c <? 0) = false) by (apply Z.ltb_ge; lia).
    rewrite H, andb_false_r. reflexivity. }
  assert (Hno : normalizeOperation o1 = o1) by reflexivity.
  assert (Hn : clampToSource c (normalizeOperation o1) = o1)
    by (rewrite Hno; unfold clampToSource; rewrite Hbox; reflexivity).
  set (o2 := setHeight (setWidth o1 (CImage.Xsize c)) (CImage.Ysize c)).
  assert (HSF : ScaleFactor c o1 = (F64.one, o2))
    by (unfold ScaleFactor; rewrite Hbox; reflexivity).
  pose proof (Process_at_source_size E K c buf ty lg 0 0 false x Hty Hrot
                HX HY HXr HYr) as Hp.
  cbv zeta in Hp. fold img in Hp. fold o1 in Hp.
  rewrite Hn, HSF in Hp. cbn [snd] in Hp.
  unfold orReturn at 1. unfold bind at 1.
  rewrite Hp by reflexivity. clear Hp.
  destruct (transformStage_extract_origin E K c buf ty lg width height o2
              Hw Hh eq_refl) as (e & w1 & Hts & Hopt & Htype & Hcalls).
  unfold orReturn at 1. unfold bind at 1. rewrite Hts.
  destruct e as [e|].
  - unfold ret. eexists. eexists. split; [reflexivity|]. exact Hcalls.
  - rewrite Process_tail_idle.
    + unfold ret. eexists. eexists. split; [reflexivity|].
      destruct Hcalls as [[_ Hne]|Hcalls]; [congruence|]. right. exact Hcalls.
    + rewrite Hopt. reflexivity.
    + rewrite Hopt. reflexivity.
    + rewrite Hopt. reflexivity.
    + rewrite Hopt, Htype. exact Hflat.
    + rewrite Hopt. reflexivity.
Qed.

Lemma Extract_at_origin_example :
  exists err w',
    Dsl.Extract (fakeEngine 1 []) fakeConstants 0 0 50 40
      (mkWorld (VipsImage.mk [x89] (Some (CImage.mk 640 480 3 0)) PNG
                  Options.zero) [])
    = Returns err w'
    /\ ((calls w' = [] ++ [CallResize F64.one] /\ err <> None)
        \/ exists rest,
             calls w'
             = [] ++ [CallResize F64.one; CallExtractArea 0 (-1) 50 40]
                  ++ rest).
Proof.
  apply (Extract_at_origin (fakeEngine 1 []) fakeConstants
           (CImage.mk 640 480 3 0) [x89] PNG [] 50 40);
    try reflexivity; try (right; reflexivity);
    unfold GoInt.in_range; simpl; lia.
Defined.
